(** * CourtApp: record store, encrypted backup, cloud-sync merge and
      integrity hash

    A shallow embedding of

    - [src/lib/storage/indexedDBStorage.ts]  (class [IndexedDBStorage]),
    - [src/lib/storage/encryptedBackup.ts]   (class [EncryptedBackupService]),
    - the cloud sync service                 (class [CloudSyncService]),
    - the encrypted storage service          (class [EncryptedStorageService],
                                              the web path),
    - [src/App.tsx]                          (the component [App]: loading,
                                              saving, adding and deleting
                                              records),
    - the settings screen                    ([handleClearData]).

    The TypeScript code is glue around browser primitives.  The primitives
    that the backup service only calls (JSON text of a backup,
    [TextDecoder], [atob], PBKDF2, AES-GCM) are the fields of the class
    [Platform]; what the theorems need to know about them is stated as
    the classes [PlatformLaws] and [IdealCrypto].  The SHA-256 digest is
    an argument of the hash functions.  Everything the repository itself
    writes (guards, control flow, error mapping, base64 glue, the merge
    loop, the IndexedDB request sequences, the hash input) is modelled
    concretely, and so are [btoa], [TextEncoder] and [JSON.stringify] of
    flat records, on whose exact output the integrity hash depends.

    Conventions.  A JavaScript string is a [string] whose characters are
    the code units U+0000..U+00FF; a byte buffer ([Uint8Array],
    [ArrayBuffer]) is a [list byte]; a JavaScript number holding an
    integer is a [Z]; a thrown value is a [JSException]; the outcome of a
    call (or of the promise of an [async] method) is a [Completion]. *)

From Stdlib Require Import ZArith NArith Ascii String List Lia DecimalString
  DecimalZ DecimalPos.
From Stdlib.Strings Require Import Byte.
From stdpp Require Import base option list strings gmap.
Import ListNotations.
Local Open Scope string_scope.
Local Open Scope list_scope.
Local Open Scope nat_scope.

(* ================================================================== *)
(** * JavaScript values, exceptions and completions *)
(* ================================================================== *)

(** What a [catch (error)] clause can observe of the thrown value. *)
Record JSException : Type := mkException {
  exn_instanceof_Error : bool;   (* [error instanceof Error] *)
  exn_name : string;             (* [error.name] *)
  exn_message : string           (* [error.message] *)
}.

(** [new Error(message)] *)
Definition new_Error (message : string) : JSException :=
  mkException true "Error" message.

(** A [DOMException] raised by a browser API.  Its [name] is fixed by the
    relevant standard, its [message] is chosen by the browser. *)
Definition DOMException (name message : string) : JSException :=
  mkException true name message.

Inductive Completion (A : Type) : Type :=
| Returns (a : A)
| Throws (e : JSException).
Arguments Returns {A} a.
Arguments Throws {A} e.

#[global] Instance Completion_ret : MRet Completion := fun _ a => Returns a.
#[global] Instance Completion_bind : MBind Completion := fun _ _ k m =>
  match m with
  | Returns a => k a
  | Throws e => Throws e
  end.

(** [try { body } catch (error) { handler }] for synchronous code. *)
Definition try_catch {A} (body : Completion A)
    (handler : JSException -> Completion A) : Completion A :=
  match body with
  | Returns a => Returns a
  | Throws e => handler e
  end.

(** Primitive values as they occur in settings and in flat records. *)
Inductive JSValue : Type :=
| JSUndefined
| JSNull
| JSBoolean (b : bool)
| JSNumber (n : Z)
| JSString (s : string).

#[global] Instance JSValue_eq_dec : EqDecision JSValue.
Proof. solve_decision. Defined.

(** ToBoolean: the test performed by [if (value)] and [value || other]. *)
Definition js_truthy (v : JSValue) : bool :=
  match v with
  | JSUndefined | JSNull => false
  | JSBoolean b => b
  | JSNumber n => negb (n =? 0)%Z
  | JSString s => negb (String.eqb s EmptyString)
  end.

(** [a === b] on primitive values. *)
Definition js_strict_equal (a b : JSValue) : bool := bool_decide (a = b).

(** [haystack.includes(needle)] *)
Fixpoint string_includes (needle haystack : string) : bool :=
  String.prefix needle haystack
  || match haystack with
     | EmptyString => false
     | String _ rest => string_includes needle rest
     end.

(** [s.substring(0, n)] *)
Fixpoint string_take (n : nat) (s : string) : string :=
  match n, s with
  | S n', String c rest => String c (string_take n' rest)
  | _, _ => EmptyString
  end.

(* ================================================================== *)
(** * [btoa], hexadecimal and UTF-8 *)
(* ================================================================== *)

(** Six bits, most significant first. *)
Definition sextet : Type := (bool * bool * bool * bool * bool * bool)%type.

Definition base64_alphabet : string :=
  "ABCDEFGHIJKLMNOPQRSTUVWXYZabcdefghijklmnopqrstuvwxyz0123456789+/".

Definition bit_weight (b : bool) (w : nat) : nat := if b then w else 0.

Definition sextet_index (s : sextet) : nat :=
  let '(s5, s4, s3, s2, s1, s0) := s in
  bit_weight s5 32 + bit_weight s4 16 + bit_weight s3 8
  + bit_weight s2 4 + bit_weight s1 2 + bit_weight s0 1.

Definition base64_char (s : sextet) : ascii :=
  match String.get (sextet_index s) base64_alphabet with
  | Some c => c
  | None => "="%char
  end.

Definition base64_quad (a b c : ascii) : string :=
  let '(Ascii a0 a1 a2 a3 a4 a5 a6 a7) := a in
  let '(Ascii b0 b1 b2 b3 b4 b5 b6 b7) := b in
  let '(Ascii c0 c1 c2 c3 c4 c5 c6 c7) := c in
  String (base64_char (a7, a6, a5, a4, a3, a2))
    (String (base64_char (a1, a0, b7, b6, b5, b4))
      (String (base64_char (b3, b2, b1, b0, c7, c6))
        (String (base64_char (c5, c4, c3, c2, c1, c0)) EmptyString))).

Definition base64_tail2 (a b : ascii) : string :=
  let '(Ascii a0 a1 a2 a3 a4 a5 a6 a7) := a in
  let '(Ascii b0 b1 b2 b3 b4 b5 b6 b7) := b in
  String (base64_char (a7, a6, a5, a4, a3, a2))
    (String (base64_char (a1, a0, b7, b6, b5, b4))
      (String (base64_char (b3, b2, b1, b0, false, false))
        (String "="%char EmptyString))).

Definition base64_tail1 (a : ascii) : string :=
  let '(Ascii a0 a1 a2 a3 a4 a5 a6 a7) := a in
  String (base64_char (a7, a6, a5, a4, a3, a2))
    (String (base64_char (a1, a0, false, false, false, false))
      (String "="%char (String "="%char EmptyString))).

(** [btoa(binary)]: base64 of a binary string (RFC 4648, with padding).
    Every character of a [string] is at most U+00FF, so the
    InvalidCharacterError of [btoa] cannot arise in this model. *)
Fixpoint btoa (binary : string) : string :=
  match binary with
  | EmptyString => EmptyString
  | String a EmptyString => base64_tail1 a
  | String a (String b EmptyString) => base64_tail2 a b
  | String a (String b (String c rest)) => base64_quad a b c +:+ btoa rest
  end.

(** Position of the first occurrence of a character. *)
Fixpoint string_index_of (c : ascii) (s : string) : option nat :=
  match s with
  | EmptyString => None
  | String d rest => if Ascii.eqb c d then Some 0 else S <$> string_index_of c rest
  end.

Definition hex_digits : string := "0123456789abcdef".

Definition hex_digit (n : N) : ascii :=
  match String.get (N.to_nat n) hex_digits with
  | Some c => c
  | None => "0"%char
  end.

(** [b.toString(16).padStart(2, '0')] *)
Definition byte_to_hex (b : byte) : string :=
  let n := Byte.to_N b in
  String (hex_digit (n / 16)) (String (hex_digit (n mod 16)) EmptyString).

(** [hashArray.map(b => b.toString(16).padStart(2, '0')).join('')] *)
Definition bytes_to_hex (bs : list byte) : string :=
  fold_right (fun b acc => byte_to_hex b +:+ acc) EmptyString bs.

(** The byte that two hexadecimal digits denote. *)
Definition hex_pair_to_byte (hi lo : ascii) : option byte :=
  hi' ← string_index_of hi hex_digits;
  lo' ← string_index_of lo hex_digits;
  Byte.of_nat (16 * hi' + lo').

(** UTF-8 of one code unit below U+0100. *)
Definition utf8_encode_char (c : ascii) : list byte :=
  let '(Ascii b0 b1 b2 b3 b4 b5 b6 b7) := c in
  if b7
  then [byte_of_ascii (Ascii b6 true false false false false true true);
        byte_of_ascii (Ascii b0 b1 b2 b3 b4 b5 false true)]
  else [byte_of_ascii c].

(** [new TextEncoder().encode(s)] *)
Fixpoint TextEncoder_encode (s : string) : list byte :=
  match s with
  | EmptyString => []
  | String c rest => utf8_encode_char c ++ TextEncoder_encode rest
  end.

(* ================================================================== *)
(** * Data model ([src/App.tsx], [encryptedBackup.ts], cloud sync) *)
(* ================================================================== *)

Module AttachmentType.
Inductive kind : Type := image | pdf | audio | video | document.
Inductive origin : Type := scanner | camera | files.
Record t : Type := mk {
  id : string;
  name : string;
  url : string;
  type : kind;
  source : origin;
  fileHash : option string;
  ocrText : option string
}.
End AttachmentType.

Module LogEntry.
(** An element of [RecordType.eventLog]. *)
Record t : Type := mk {
  timestamp : string;
  action : string
}.
End LogEntry.

Module RecordType.
Record t : Type := mk {
  id : string;
  dateTime : string;
  description : string;
  tags : list string;
  people : option (list string);
  location : option string;
  severity : option Z;                       (* 1-5 *)
  files : option (list AttachmentType.t);
  createdAt : string;
  editedAt : option string;
  contentHash : option string;
  eventLog : option (list LogEntry.t)
}.
End RecordType.

Module BackupSettings.
(** [BackupData.settings].  Each field holds what [getSetting]
    delivered: a stored string, a stored [null], or [undefined]. *)
Record t : Type := mk {
  pin : JSValue;
  decoyPin : JSValue;
  lockEnabled : JSValue;
  userName : JSValue;
  welcomeCompleted : JSValue
}.
End BackupSettings.

Module BackupData.
Record t : Type := mk {
  version : string;
  exportDate : string;
  records : list RecordType.t;
  settings : BackupSettings.t
}.
End BackupData.

Module EncryptedBackup.
Record t : Type := mk {
  version : string;
  salt : string;
  iv : string;
  data : string
}.
End EncryptedBackup.

Module SyncSettings.
(** [SyncData.settings] *)
Record t : Type := mk {
  pin : JSValue;
  decoyPin : JSValue;
  lockEnabled : JSValue;
  userName : JSValue
}.
End SyncSettings.

Module SyncData.
Record t : Type := mk {
  version : string;
  lastSynced : string;
  records : list RecordType.t;
  settings : SyncSettings.t
}.
End SyncData.

#[global] Instance AttachmentType_kind_eq_dec : EqDecision AttachmentType.kind.
Proof. solve_decision. Defined.
#[global] Instance AttachmentType_origin_eq_dec : EqDecision AttachmentType.origin.
Proof. solve_decision. Defined.
#[global] Instance AttachmentType_eq_dec : EqDecision AttachmentType.t.
Proof. solve_decision. Defined.
#[global] Instance LogEntry_eq_dec : EqDecision LogEntry.t.
Proof. solve_decision. Defined.
#[global] Instance RecordType_eq_dec : EqDecision RecordType.t.
Proof. solve_decision. Defined.
#[global] Instance BackupSettings_eq_dec : EqDecision BackupSettings.t.
Proof. solve_decision. Defined.
#[global] Instance BackupData_eq_dec : EqDecision BackupData.t.
Proof. solve_decision. Defined.

(* ================================================================== *)
(** * The environment of the asynchronous methods *)
(* ================================================================== *)

(** The state outside the program that the modelled methods read or
    change: the two IndexedDB object stores, the bytes the browser's
    random source will deliver next, and the clock.

    [idb_write_budget] is a fault plan for the storage back end:
    [Some n] means that the next [n] write requests succeed and every
    later one fails (quota exhausted, disk error); [None] means the back
    end never fails. *)
Record World : Type := mkWorld {
  idb_records : gmap string RecordType.t;     (* store 'records', keyPath 'id' *)
  idb_settings : gmap string JSValue;         (* store 'settings', keyPath 'key' *)
  idb_write_budget : option nat;
  csprng_tape : nat -> byte;
  csprng_pos : nat;
  clock_iso : string
}.

(** An [async] method: it may change the world, and its promise is
    fulfilled ([Returns]) or rejected ([Throws]). *)
Definition Async (A : Type) : Type := World -> World * Completion A.

#[global] Instance Async_ret : MRet Async := fun _ a w => (w, Returns a).
#[global] Instance Async_bind : MBind Async := fun _ _ k m w =>
  match m w with
  | (w', Returns a) => k a w'
  | (w', Throws e) => (w', Throws e)
  end.

Definition throw {A} (e : JSException) : Async A := fun w => (w, Throws e).

(** [try { await body } catch (error) { handler }] *)
Definition try_catch_async {A} (body : Async A)
    (handler : JSException -> Async A) : Async A := fun w =>
  match body w with
  | (w', Returns a) => (w', Returns a)
  | (w', Throws e) => handler e w'
  end.

(** [window.crypto.getRandomValues(new Uint8Array(n))] *)
Definition getRandomValues (n : nat) : Async (list byte) := fun w =>
  (mkWorld (idb_records w) (idb_settings w) (idb_write_budget w)
           (csprng_tape w) (csprng_pos w + n) (clock_iso w),
   Returns (map (csprng_tape w) (seq (csprng_pos w) n))).

(** [new Date().toISOString()] *)
Definition Date_now_toISOString : Async string := fun w =>
  (w, Returns (clock_iso w)).

(* ================================================================== *)
(** * [IndexedDBStorage] ([indexedDBStorage.ts]) *)
(* ================================================================== *)

(** The requests that [saveRecords] places on its transaction. *)
Inductive IDBRequest : Type :=
| store_clear
| store_add (record : RecordType.t).

Definition ConstraintError : JSException :=
  DOMException "ConstraintError" "Key already exists in the object store.".
Definition BackendError : JSException :=
  DOMException "UnknownError" "The storage back end failed.".

(** One request against the uncommitted contents of the object store.
    [add] fails with ConstraintError when the key is already present. *)
Definition exec_request (rq : IDBRequest)
    (staged : gmap string RecordType.t) : Completion (gmap string RecordType.t) :=
  match rq with
  | store_clear => Returns ∅
  | store_add record =>
      match staged !! RecordType.id record with
      | Some _ => Throws ConstraintError
      | None => Returns (<[RecordType.id record := record]> staged)
      end
  end.

Definition budget_spent (budget : option nat) : bool :=
  match budget with Some 0 => true | _ => false end.

Definition budget_pred (budget : option nat) : option nat := Nat.pred <$> budget.

(** The requests of one transaction, in order, on the staged contents.
    The first failing request ends the run. *)
Fixpoint run_requests (reqs : list IDBRequest) (budget : option nat)
    (staged : gmap string RecordType.t)
    : option nat * Completion (gmap string RecordType.t) :=
  match reqs with
  | [] => (budget, Returns staged)
  | rq :: rest =>
      if budget_spent budget then (budget, Throws BackendError)
      else match exec_request rq staged with
           | Returns staged' => run_requests rest (budget_pred budget) staged'
           | Throws e => (budget_pred budget, Throws e)
           end
  end.

(** A read-write transaction on the 'records' store, as IndexedDB runs
    it.  If every request succeeds the transaction commits and
    [oncomplete] fires.  The error event of a failed request bubbles to
    the transaction ([onerror] fires) and, since no handler calls
    [preventDefault], aborts it; an aborted transaction leaves the store
    as it was before the transaction began.  The database is taken to
    be open ([initialize] has succeeded). *)
Definition records_transaction (reqs : list IDBRequest) : Async unit := fun w =>
  match run_requests reqs (idb_write_budget w) (idb_records w) with
  | (budget', Returns staged) =>
      (mkWorld staged (idb_settings w) budget'
               (csprng_tape w) (csprng_pos w) (clock_iso w), Returns tt)
  | (budget', Throws e) =>
      (mkWorld (idb_records w) (idb_settings w) budget'
               (csprng_tape w) (csprng_pos w) (clock_iso w), Throws e)
  end.

(** [saveRecords(records)]: one transaction holding [store.clear()]
    followed by [store.add(record)] for each record. *)
Definition saveRecords (records : list RecordType.t) : Async unit :=
  records_transaction (store_clear :: map store_add records).

(** [getRecords()]: [store.getAll()], the records in the store's key order. *)
Definition getRecords : Async (list RecordType.t) := fun w =>
  (w, Returns (map_to_list (idb_records w)).*2).

(** [saveSetting(key, value)]: [store.put({ key, value })] in a
    transaction of its own. *)
Definition saveSetting (key : string) (value : JSValue) : Async unit := fun w =>
  if budget_spent (idb_write_budget w) then (w, Throws BackendError)
  else (mkWorld (idb_records w) (<[key := value]> (idb_settings w))
                (budget_pred (idb_write_budget w))
                (csprng_tape w) (csprng_pos w) (clock_iso w), Returns tt).

(** [getSetting(key)]: [request.result?.value].  The read request is
    taken to succeed. *)
Definition getSetting (key : string) : Async JSValue := fun w =>
  (w, Returns (default JSUndefined (idb_settings w !! key))).

(** The records of a list, each under its key. *)
Definition keyed (records : list RecordType.t) : list (string * RecordType.t) :=
  (fun r => (RecordType.id r, r)) <$> records.

(* ================================================================== *)
(** * Browser primitives used by the backup service *)
(* ================================================================== *)

Class Platform : Type := {
  (** The opaque [CryptoKey] objects of Web Crypto. *)
  CryptoKey : Type;
  (** [JSON.stringify(backupData)] *)
  JSON_stringify : BackupData.t -> string;
  (** [JSON.parse(jsonData)], read at type [BackupData]; SyntaxError on
      text that is not JSON. *)
  JSON_parse : string -> Completion BackupData.t;
  (** [new TextDecoder().decode(buffer)] *)
  TextDecoder_decode : list byte -> string;
  (** [atob(base64)]; InvalidCharacterError on text that is not base64. *)
  atob : string -> Completion string;
  (** [subtle.importKey('raw', passwordBuffer, 'PBKDF2', ...)] followed by
      [subtle.deriveKey({ name: 'PBKDF2', salt, iterations, hash: 'SHA-256' },
      keyMaterial, { name: 'AES-GCM', length: 256 }, ...)]. *)
  subtle_deriveKey : list byte -> list byte -> Z -> CryptoKey;
  (** [subtle.encrypt({ name: 'AES-GCM', iv }, key, data)]: ciphertext
      followed by the authentication tag. *)
  subtle_encrypt : CryptoKey -> list byte -> list byte -> list byte;
  (** [subtle.decrypt({ name: 'AES-GCM', iv }, key, data)]; rejects with
      a DOMException named OperationError when authentication fails. *)
  subtle_decrypt : CryptoKey -> list byte -> list byte -> Completion (list byte)
}.

(** Bit [i mod 8] of byte [i / 8] inverted (bit 0 is the least
    significant bit of the first byte). *)
Definition flip_ascii_bit (i : nat) (c : ascii) : ascii :=
  let '(Ascii b0 b1 b2 b3 b4 b5 b6 b7) := c in
  match i with
  | 0 => Ascii (negb b0) b1 b2 b3 b4 b5 b6 b7
  | 1 => Ascii b0 (negb b1) b2 b3 b4 b5 b6 b7
  | 2 => Ascii b0 b1 (negb b2) b3 b4 b5 b6 b7
  | 3 => Ascii b0 b1 b2 (negb b3) b4 b5 b6 b7
  | 4 => Ascii b0 b1 b2 b3 (negb b4) b5 b6 b7
  | 5 => Ascii b0 b1 b2 b3 b4 (negb b5) b6 b7
  | 6 => Ascii b0 b1 b2 b3 b4 b5 (negb b6) b7
  | _ => Ascii b0 b1 b2 b3 b4 b5 b6 (negb b7)
  end.

Definition flip_byte_bit (i : nat) (b : byte) : byte :=
  byte_of_ascii (flip_ascii_bit i (ascii_of_byte b)).

Fixpoint flip_bit (i : nat) (bs : list byte) : list byte :=
  match bs with
  | [] => []
  | b :: rest =>
      if (i <? 8)%nat then flip_byte_bit i b :: rest
      else b :: flip_bit (i - 8) rest
  end.

(** The contracts of the primitives that a backup and its restoration
    rely on: each decoder inverts its encoder. *)
Class PlatformLaws `{Platform} : Prop := {
  JSON_parse_stringify :
    forall d, JSON_parse (JSON_stringify d) = Returns d;
  TextDecoder_decode_encode :
    forall s, TextDecoder_decode (TextEncoder_encode s) = s;
  atob_btoa :
    forall s, atob (btoa s) = Returns s;
  subtle_decrypt_encrypt :
    forall k iv m, subtle_decrypt k iv (subtle_encrypt k iv m) = Returns m
}.

(** The idealised security of PBKDF2 and AES-GCM (what holds up to a
    negligible probability is taken to hold always): keys do not
    collide, a ciphertext opens only under the key and nonce that sealed
    it, and no single-bit change of a ciphertext is accepted. *)
Class IdealCrypto `{Platform} : Prop := {
  subtle_deriveKey_injective :
    forall pw pw' salt salt' n,
      subtle_deriveKey pw salt n = subtle_deriveKey pw' salt' n ->
      pw = pw' /\ salt = salt';
  subtle_decrypt_authentic :
    forall k iv m k' iv' m',
      subtle_decrypt k' iv' (subtle_encrypt k iv m) = Returns m' ->
      k' = k /\ iv' = iv;
  subtle_decrypt_tampered :
    forall k iv m k' iv' i,
      i < 8 * length (subtle_encrypt k iv m) ->
      exists e, subtle_decrypt k' iv' (flip_bit i (subtle_encrypt k iv m)) = Throws e
}.

(* ================================================================== *)
(** * [EncryptedBackupService] ([encryptedBackup.ts]) *)
(* ================================================================== *)

Definition BACKUP_VERSION : string := "1.0".
Definition ITERATIONS : Z := 100000.  (* PBKDF2 iterations *)

Definition PasswordTooWeak : JSException :=
  new_Error "Password must be at least 6 characters".
Definition BackupCreationFailed : JSException :=
  new_Error "Failed to create encrypted backup".
Definition PasswordRequired : JSException :=
  new_Error "Password is required".
Definition IncorrectPasswordOrCorrupted : JSException :=
  new_Error "Incorrect password or corrupted backup file".
Definition RestoreFailed : JSException :=
  new_Error "Failed to restore backup".
Definition ApplyFailed : JSException :=
  new_Error "Failed to apply backup data".

Section EncryptedBackupService.
Context `{Platform}.

(** [deriveKey(password, salt)] *)
Definition deriveKey (password : string) (salt : list byte) : CryptoKey :=
  let passwordBuffer := TextEncoder_encode password in
  subtle_deriveKey passwordBuffer salt ITERATIONS.

(** [arrayBufferToBase64(buffer)]: the loop
    [binary += String.fromCharCode(bytes[i])], then [btoa(binary)]. *)
Definition arrayBufferToBase64 (buffer : list byte) : string :=
  let binary :=
    fold_left (fun binary b => binary +:+ String (ascii_of_byte b) EmptyString)
              buffer EmptyString in
  btoa binary.

(** [base64ToArrayBuffer(base64)]: [atob(base64)], then the loop
    [bytes[i] = binary.charCodeAt(i)]. *)
Definition base64ToArrayBuffer (base64 : string) : Completion (list byte) :=
  binary ← atob base64;
  Returns (list_byte_of_string binary).

(** [createBackup(password, records)] *)
Definition createBackup (password : string) (records : list RecordType.t)
    : Async EncryptedBackup.t :=
  if String.eqb password EmptyString || (String.length password <? 6)%nat
  then throw PasswordTooWeak
  else
    try_catch_async
      (pin ← getSetting "recordKeeper_pin";
       decoyPin ← getSetting "recordKeeper_decoyPin";
       lockEnabled ← getSetting "recordKeeper_lockEnabled";
       userName ← getSetting "recordKeeper_userName";
       welcomeCompleted ← getSetting "recordKeeper_welcomeCompleted";
       let settings :=
         BackupSettings.mk pin decoyPin lockEnabled userName welcomeCompleted in
       exportDate ← Date_now_toISOString;
       let backupData :=
         BackupData.mk BACKUP_VERSION exportDate records settings in
       let jsonData := JSON_stringify backupData in
       let dataBuffer := TextEncoder_encode jsonData in
       salt ← getRandomValues 16;
       iv ← getRandomValues 12;
       let key := deriveKey password salt in
       let encryptedBuffer := subtle_encrypt key iv dataBuffer in
       mret (EncryptedBackup.mk BACKUP_VERSION
               (arrayBufferToBase64 salt)
               (arrayBufferToBase64 iv)
               (arrayBufferToBase64 encryptedBuffer)))
      (fun error => throw BackupCreationFailed).

(** [restoreBackup(password, encryptedBackup)].  The method touches no
    state; its value is the outcome of the returned promise. *)
Definition restoreBackup (password : string)
    (encryptedBackup : EncryptedBackup.t) : Completion BackupData.t :=
  if String.eqb password EmptyString
  then Throws PasswordRequired
  else
    try_catch
      (salt ← base64ToArrayBuffer (EncryptedBackup.salt encryptedBackup);
       iv ← base64ToArrayBuffer (EncryptedBackup.iv encryptedBackup);
       encryptedData ← base64ToArrayBuffer (EncryptedBackup.data encryptedBackup);
       let key := deriveKey password salt in
       decryptedBuffer ← subtle_decrypt key iv encryptedData;
       let jsonData := TextDecoder_decode decryptedBuffer in
       backupData ← JSON_parse jsonData;
       (* a version other than BACKUP_VERSION only logs a warning *)
       Returns backupData)
      (fun error =>
         if exn_instanceof_Error error
            && string_includes "OperationError" (exn_message error)
         then Throws IncorrectPasswordOrCorrupted
         else Throws RestoreFailed).

(** [if (value) { await indexedDBStorage.saveSetting(key, value); }] *)
Definition restoreSetting (key : string) (value : JSValue) : Async unit :=
  if js_truthy value then saveSetting key value else mret tt.

(** A sequence of [restoreSetting] statements. *)
Fixpoint restoreSettings (entries : list (string * JSValue)) : Async unit :=
  match entries with
  | [] => mret tt
  | (key, value) :: rest => restoreSetting key value;; restoreSettings rest
  end.

(** [applyBackup(backupData)] *)
Definition applyBackup (backupData : BackupData.t) : Async unit :=
  let settings := BackupData.settings backupData in
  try_catch_async
    (saveRecords (BackupData.records backupData);;
     restoreSetting "recordKeeper_pin" (BackupSettings.pin settings);;
     restoreSetting "recordKeeper_decoyPin" (BackupSettings.decoyPin settings);;
     restoreSetting "recordKeeper_lockEnabled" (BackupSettings.lockEnabled settings);;
     restoreSetting "recordKeeper_userName" (BackupSettings.userName settings);;
     restoreSetting "recordKeeper_welcomeCompleted"
                    (BackupSettings.welcomeCompleted settings);;
     mret tt)
    (fun error => throw ApplyFailed).

(** The settings that [createBackup] gathers from the store. *)
Definition stored_settings (w : World) : BackupSettings.t :=
  let read key := default JSUndefined (idb_settings w !! key) in
  BackupSettings.mk (read "recordKeeper_pin") (read "recordKeeper_decoyPin")
    (read "recordKeeper_lockEnabled") (read "recordKeeper_userName")
    (read "recordKeeper_welcomeCompleted").

(** The salt and the nonce that a [createBackup] started in [w] draws. *)
Definition backup_draws (w : World) : list byte * list byte :=
  (map (csprng_tape w) (seq (csprng_pos w) 16),
   map (csprng_tape w) (seq (csprng_pos w + 16) 12)).

(** The plaintext that [createBackup] assembles in world [w]. *)
Definition backup_payload (records : list RecordType.t) (w : World)
    : BackupData.t :=
  BackupData.mk BACKUP_VERSION (clock_iso w) records (stored_settings w).

(** The envelope that [createBackup] returns in world [w]. *)
Definition sealed_backup (password : string) (records : list RecordType.t)
    (w : World) : EncryptedBackup.t :=
  let '(salt, iv) := backup_draws w in
  let dataBuffer := TextEncoder_encode (JSON_stringify (backup_payload records w)) in
  EncryptedBackup.mk BACKUP_VERSION
    (arrayBufferToBase64 salt) (arrayBufferToBase64 iv)
    (arrayBufferToBase64 (subtle_encrypt (deriveKey password salt) iv dataBuffer)).

(** The world after [n] more random bytes were drawn. *)
Definition advance_csprng (n : nat) (w : World) : World :=
  mkWorld (idb_records w) (idb_settings w) (idb_write_budget w)
          (csprng_tape w) (csprng_pos w + n) (clock_iso w).

(** The value that [backupData.settings] holds for a settings key;
    [undefined] for keys that a backup does not carry. *)
Definition backup_setting (backupData : BackupData.t) (key : string) : JSValue :=
  let settings := BackupData.settings backupData in
  if decide (key = "recordKeeper_pin") then BackupSettings.pin settings
  else if decide (key = "recordKeeper_decoyPin") then BackupSettings.decoyPin settings
  else if decide (key = "recordKeeper_lockEnabled") then BackupSettings.lockEnabled settings
  else if decide (key = "recordKeeper_userName") then BackupSettings.userName settings
  else if decide (key = "recordKeeper_welcomeCompleted")
       then BackupSettings.welcomeCompleted settings
  else JSUndefined.

(** The envelope with bit [i] of its decoded [data] bytes inverted. *)
Definition tamper_data (i : nat) (eb : EncryptedBackup.t) : EncryptedBackup.t :=
  match base64ToArrayBuffer (EncryptedBackup.data eb) with
  | Returns bytes =>
      EncryptedBackup.mk (EncryptedBackup.version eb) (EncryptedBackup.salt eb)
        (EncryptedBackup.iv eb) (arrayBufferToBase64 (flip_bit i bytes))
  | Throws _ => eb
  end.

(** Number of bits of the decoded [data] field. *)
Definition data_bits (eb : EncryptedBackup.t) : nat :=
  match base64ToArrayBuffer (EncryptedBackup.data eb) with
  | Returns bytes => 8 * length bytes
  | Throws _ => 0
  end.
End EncryptedBackupService.

(** The entries that [applyBackup] passes to [restoreSetting], in order. *)
Definition backup_entries (backupData : BackupData.t) : list (string * JSValue) :=
  let settings := BackupData.settings backupData in
  [("recordKeeper_pin", BackupSettings.pin settings);
   ("recordKeeper_decoyPin", BackupSettings.decoyPin settings);
   ("recordKeeper_lockEnabled", BackupSettings.lockEnabled settings);
   ("recordKeeper_userName", BackupSettings.userName settings);
   ("recordKeeper_welcomeCompleted", BackupSettings.welcomeCompleted settings)].

(** The settings store after the truthy entries were written. *)
Definition write_truthy (entries : list (string * JSValue))
    (settings : gmap string JSValue) : gmap string JSValue :=
  fold_left (fun m entry => if js_truthy entry.2 then <[entry.1 := entry.2]> m else m)
            entries settings.

(* ================================================================== *)
(** * [CloudSyncService.sync]: the merge *)
(* ================================================================== *)

(** Lines 287-294 of the sync service: start from the local records and
    push every cloud record whose id is not a local id. *)
Definition mergeRecords (localRecords cloudRecords : list RecordType.t)
    : list RecordType.t :=
  let mergedRecords := localRecords in
  let localIds : gset string := list_to_set (RecordType.id <$> localRecords) in
  fold_left
    (fun mergedRecords cloudRecord =>
       if decide (RecordType.id cloudRecord ∈ localIds)
       then mergedRecords
       else mergedRecords ++ [cloudRecord])
    cloudRecords mergedRecords.

(** [cloudData && cloudData.records.length > 0] *)
Definition cloud_has_data (cloudData : option SyncData.t) : bool :=
  match cloudData with
  | Some d => (0 <? length (SyncData.records d))%nat
  | None => false
  end.

(** The value of [recordsToUpload] when the upload starts. *)
Definition recordsToUpload (localRecords : list RecordType.t)
    (cloudData : option SyncData.t) : list RecordType.t :=
  match cloudData with
  | Some d =>
      if (0 <? length (SyncData.records d))%nat
      then mergeRecords localRecords (SyncData.records d)
      else localRecords
  | None => localRecords
  end.

Section CloudSyncService.
(** The transport ([downloadFromCloud], [uploadToCloud]) belongs to the
    Supabase client; both methods catch their own failures and report
    them in the [error] field. *)
Variable downloadFromCloud : Async (option SyncData.t * option string).
Variable uploadToCloud : list RecordType.t -> Async (bool * option string).

(** [if (downloadError)]: the error is a non-empty string or [null]. *)
Definition error_present (error : option string) : bool :=
  match error with
  | Some msg => negb (String.eqb msg EmptyString)
  | None => false
  end.

(** [sync(localRecords)] *)
Definition sync (localRecords : list RecordType.t) : Async (bool * option string) :=
  try_catch_async
    ('(cloudData, downloadError) ← downloadFromCloud;
     if error_present downloadError then mret (false, downloadError)
     else
       (if cloud_has_data cloudData
        then saveRecords (recordsToUpload localRecords cloudData)
        else mret tt);;
       '(success, uploadError) ← uploadToCloud (recordsToUpload localRecords cloudData);
       if negb success then mret (false, uploadError)
       else mret (true, None))
    (fun error => mret (false, Some "Sync failed")).
End CloudSyncService.

(* ================================================================== *)
(** * SHA-256 (FIPS 180-4) *)
(* ================================================================== *)

(** [crypto.subtle.digest('SHA-256', buffer)], so that hashes can be
    computed; checked below against the test vectors of the standard. *)
Section SHA256.
Local Open Scope N_scope.

Definition w32 (x : N) : N := x mod 0x100000000.
Definition rotr (n x : N) : N := w32 (N.lor (N.shiftr x n) (N.shiftl x (32 - n))).
Definition sha_Ch (x y z : N) : N :=
  N.lxor (N.land x y) (N.land (N.lxor x 0xffffffff) z).
Definition sha_Maj (x y z : N) : N :=
  N.lxor (N.lxor (N.land x y) (N.land x z)) (N.land y z).
Definition sha_Sigma0 (x : N) : N := N.lxor (N.lxor (rotr 2 x) (rotr 13 x)) (rotr 22 x).
Definition sha_Sigma1 (x : N) : N := N.lxor (N.lxor (rotr 6 x) (rotr 11 x)) (rotr 25 x).
Definition sha_sigma0 (x : N) : N := N.lxor (N.lxor (rotr 7 x) (rotr 18 x)) (N.shiftr x 3).
Definition sha_sigma1 (x : N) : N := N.lxor (N.lxor (rotr 17 x) (rotr 19 x)) (N.shiftr x 10).

(** The constants are what the standard says they are: the first 32
    bits of the fractional parts of the square roots of the first 8
    primes (initial hash value) and of the cube roots of the first 64
    primes (round constants). *)
Definition is_prime (n : nat) : bool :=
  (2 <=? n)%nat && forallb (fun d => negb (n mod d =? 0)%nat) (seq 2 (n - 2)).

Definition first_primes (count : nat) : list N :=
  N.of_nat <$> take count (List.filter is_prime (seq 2 400)).

(** The integer cube root of [x], found bit by bit below [2 ^ bits]. *)
Fixpoint cube_root_bits (bits : nat) (x root : N) : N :=
  match bits with
  | O => root
  | S bits' =>
      let candidate := root + 2 ^ N.of_nat bits' in
      cube_root_bits bits' x (if candidate ^ 3 <=? x then candidate else root)
  end.

Definition sha_K : list N :=
  Eval vm_compute in
    (fun p => w32 (cube_root_bits 36 (p * 2 ^ 96) 0)) <$> first_primes 64.

Definition sha_H0 : list N :=
  Eval vm_compute in (fun p => w32 (N.sqrt (p * 2 ^ 64))) <$> first_primes 8.

(** The [n] low bytes of [x], most significant first. *)
Fixpoint be_bytes (n : nat) (x : N) : list byte :=
  match n with
  | O => []
  | S n' => default x00 (Byte.of_N ((x / 256 ^ N.of_nat n') mod 256)) :: be_bytes n' x
  end.

Definition be_word (bs : list byte) : N :=
  fold_left (fun acc b => acc * 256 + Byte.to_N b) bs 0.

Definition sha_pad (msg : list byte) : list byte :=
  let len := length msg in
  let zeros := ((119 - len mod 64) mod 64)%nat in
  msg ++ [x80] ++ repeat x00 zeros ++ be_bytes 8 (8 * N.of_nat len).

Fixpoint chunks (n : nat) (size : nat) (bs : list byte) : list (list byte) :=
  match n with
  | O => []
  | S n' => firstn size bs :: chunks n' size (skipn size bs)
  end.

(** The message schedule, newest word first. *)
Fixpoint sha_extend (n : nat) (rev_w : list N) : list N :=
  match n with
  | O => rev_w
  | S n' =>
      let w i := nth i rev_w 0 in
      sha_extend n' (w32 (sha_sigma1 (w 1%nat) + w 6%nat + sha_sigma0 (w 14%nat) + w 15%nat) :: rev_w)
  end.

Definition sha_schedule (block : list byte) : list N :=
  rev (sha_extend 48 (rev (be_word <$> chunks 16 4 block))).

Definition sha_round (st : list N) (kw : N * N) : list N :=
  match st with
  | [a; b; c; d; e; f; g; h] =>
      let t1 := h + sha_Sigma1 e + sha_Ch e f g + kw.1 + kw.2 in
      let t2 := sha_Sigma0 a + sha_Maj a b c in
      [w32 (t1 + t2); a; b; c; w32 (d + t1); e; f; g]
  | _ => st
  end.

Definition sha_compress (hash : list N) (block : list byte) : list N :=
  let final := fold_left sha_round (zip sha_K (sha_schedule block)) hash in
  zip_with (fun x y => w32 (x + y)) hash final.

Definition SHA256 (msg : list byte) : list byte :=
  let padded := sha_pad msg in
  let blocks := chunks (length padded / 64) 64 padded in
  fold_left sha_compress blocks sha_H0 ≫= be_bytes 4.
End SHA256.

(* ================================================================== *)
(** * [EncryptedStorageService]: the integrity hash *)
(* ================================================================== *)

(** A flat JavaScript object: its own enumerable properties in
    insertion order.  [EncryptedRecord] values are such objects, and
    what [JSON.stringify], the spread [{ ...record, hash }] and the rest
    pattern [{ hash, ...recordWithoutHash }] do depends on exactly this
    list. *)
Abbreviation JSObject := (list (string * JSValue)).

(** [object.key] *)
Definition js_get (key : string) (object : JSObject) : JSValue :=
  match list_find (fun p => p.1 = key) object with
  | Some (_, (_, value)) => value
  | None => JSUndefined
  end.

Definition js_has (key : string) (object : JSObject) : bool :=
  bool_decide (key ∈ object.*1).

(** [{ ...object, key: value }] *)
Definition js_spread_set (object : JSObject) (key : string) (value : JSValue)
    : JSObject :=
  if js_has key object
  then map (fun p => if decide (p.1 = key) then (key, value) else p) object
  else object ++ [(key, value)].

(** The [rest] of [const { key, ...rest } = object] *)
Definition js_rest_without (key : string) (object : JSObject) : JSObject :=
  filter (fun p => p.1 <> key) object.

Definition dquote : ascii := "034"%char.
Definition backslash : ascii := "092"%char.

(** QuoteJSONString, one code unit. *)
Definition json_escape_char (c : ascii) : string :=
  let n := nat_of_ascii c in
  if decide (n = 8) then "\b"
  else if decide (n = 9) then "\t"
  else if decide (n = 10) then "\n"
  else if decide (n = 12) then "\f"
  else if decide (n = 13) then "\r"
  else if decide (n = 34) then String backslash (String dquote EmptyString)
  else if decide (n = 92) then String backslash (String backslash EmptyString)
  else if decide (n < 32) then "\u00" +:+ byte_to_hex (byte_of_ascii c)
  else String c EmptyString.

Fixpoint json_escape (s : string) : string :=
  match s with
  | EmptyString => EmptyString
  | String c rest => json_escape_char c +:+ json_escape rest
  end.

Definition json_quote (s : string) : string :=
  String dquote (json_escape s +:+ String dquote EmptyString).

(** The JSON text of a primitive; [None] for [undefined], whose
    property [JSON.stringify] leaves out.  Integers print in decimal
    (Number::toString below 10^21). *)
Definition json_of_value (v : JSValue) : option string :=
  match v with
  | JSUndefined => None
  | JSNull => Some "null"
  | JSBoolean true => Some "true"
  | JSBoolean false => Some "false"
  | JSNumber n => Some (NilZero.string_of_int (Z.to_int n))
  | JSString s => Some (json_quote s)
  end.

Definition json_members (object : JSObject) : list string :=
  omap (fun p => (fun text => json_quote p.1 +:+ ":" +:+ text) <$> json_of_value p.2)
       object.

Fixpoint string_join (sep : string) (parts : list string) : string :=
  match parts with
  | [] => EmptyString
  | [part] => part
  | part :: rest => part +:+ sep +:+ string_join sep rest
  end.

(** [JSON.stringify(object)] of a flat object. *)
Definition JSON_stringify_object (object : JSObject) : string :=
  "{" +:+ string_join "," (json_members object) +:+ "}".

(** [generateHash(record)].  [subtle] is [Some digest] when
    [typeof crypto !== 'undefined' && crypto.subtle] holds, [digest]
    being [crypto.subtle.digest('SHA-256', _)], and [None] otherwise.
    The JSON text holds characters up to U+00FF, as every string of the
    model does; on such a text the [btoa] of the fallback is defined. *)
Definition generateHash (subtle : option (list byte -> list byte))
    (record : JSObject) : string :=
  let data := JSON_stringify_object record in
  match subtle with
  | Some digest =>
      let dataBuffer := TextEncoder_encode data in
      let hashArray := digest dataBuffer in
      bytes_to_hex hashArray
  | None =>
      (* Fallback for environments without Web Crypto API *)
      string_take 64 (btoa data)
  end.

(** [verifyRecordIntegrity(record)] *)
Definition verifyRecordIntegrity (subtle : option (list byte -> list byte))
    (record : JSObject) : bool :=
  let hash := js_get "hash" record in
  let recordWithoutHash := js_rest_without "hash" record in
  let calculatedHash := generateHash subtle recordWithoutHash in
  js_strict_equal hash (JSString calculatedHash).

(** [JSON.parse(JSON.stringify(object))] of a flat object: properties
    holding [undefined] are gone.  This is what one pass through
    [localStorage] does to a record. *)
Definition js_json_clone (object : JSObject) : JSObject :=
  filter (fun p => p.2 <> JSUndefined) object.

(** [r.id || 0] as an integer, for an [id] that is a number or is
    missing, as the interface [EncryptedRecord] declares it
    ([id?: number]). *)
Definition id_or_zero (r : JSObject) : Z :=
  match js_get "id" r with
  | JSNumber n => n
  | _ => 0%Z
  end.

(** [saveToLocalStorage(record)] on the parsed contents of the
    'evidence_records' item; returns the new contents and the id. *)
Definition saveToLocalStorage (record : JSObject) (records : list JSObject)
    : list JSObject * Z :=
  let id :=
    match records with
    | [] => 1%Z
    | r :: rest => (fold_left Z.max (map id_or_zero rest) (id_or_zero r) + 1)%Z
    end in
  let newRecord := js_spread_set record "id" (JSNumber id) in
  (map js_json_clone (records ++ [newRecord]), id).

(** [saveRecord(record)] on the web path ([isNative] false). *)
Definition saveRecord (subtle : option (list byte -> list byte))
    (record : JSObject) (records : list JSObject) : list JSObject * Z :=
  let hash := generateHash subtle record in
  let recordWithHash := js_spread_set record "hash" (JSString hash) in
  saveToLocalStorage recordWithHash records.

(** The object literal of an evidence record as callers build it. *)
Definition evidence_record (timestamp : Z) (type content tags : string)
    (attachments : option string) : JSObject :=
  [("timestamp", JSNumber timestamp); ("type", JSString type);
   ("content", JSString content); ("tags", JSString tags)]
  ++ match attachments with
     | Some a => [("attachments", JSString a)]
     | None => []
     end.

(* ================================================================== *)
(** * [IndexedDBStorage]: single-record methods and the migration *)
(* ================================================================== *)

(** The outcome of a synchronous call inside an [async] method. *)
Definition Async_lift {A} (c : Completion A) : Async A := fun w => (w, c).

(** [addRecord(record)]: [store.add(record)] in a transaction of its own. *)
Definition addRecord (record : RecordType.t) : Async unit :=
  records_transaction [store_add record].

(** [clearRecords()]: [store.clear()] in a transaction of its own. *)
Definition clearRecords : Async unit :=
  records_transaction [store_clear].

(** A transaction on the 'records' store with one request that IndexedDB
    itself never refuses ([put], [delete]): it fails only with the back
    end. *)
Definition records_write
    (change : gmap string RecordType.t -> gmap string RecordType.t) : Async unit :=
  fun w =>
    if budget_spent (idb_write_budget w) then (w, Throws BackendError)
    else (mkWorld (change (idb_records w)) (idb_settings w)
                  (budget_pred (idb_write_budget w))
                  (csprng_tape w) (csprng_pos w) (clock_iso w), Returns tt).

(** [updateRecord(record)]: [store.put(record)] *)
Definition updateRecord (record : RecordType.t) : Async unit :=
  records_write (insert (RecordType.id record) record).

(** [deleteRecord(id)]: [store.delete(id)] *)
Definition deleteRecord (id : string) : Async unit :=
  records_write (delete id).

(** The write methods of [IndexedDBStorage]. *)
Inductive StorageCall : Type :=
| call_saveRecords (records : list RecordType.t)
| call_addRecord (record : RecordType.t)
| call_updateRecord (record : RecordType.t)
| call_deleteRecord (id : string)
| call_clearRecords
| call_saveSetting (key : string) (value : JSValue).

Definition run_call (call : StorageCall) : Async unit :=
  match call with
  | call_saveRecords records => saveRecords records
  | call_addRecord record => addRecord record
  | call_updateRecord record => updateRecord record
  | call_deleteRecord id => deleteRecord id
  | call_clearRecords => clearRecords
  | call_saveSetting key value => saveSetting key value
  end.

(** The world after a sequence of calls, each awaited whatever its
    outcome. *)
Definition run_calls (calls : list StorageCall) (w : World) : World :=
  fold_left (fun w call => (run_call call w).1) calls w.

(** Every stored record sits under its own id (the key path of the
    store). *)
Definition records_keyed (w : World) : Prop :=
  map_Forall (fun key record => RecordType.id record = key) (idb_records w).

#[global] Instance records_keyed_dec (w : World) : Decision (records_keyed w).
Proof. unfold records_keyed. apply _. Defined.

(** [if (text)] on what [localStorage.getItem] returned: [null] and the
    empty string are falsy. *)
Definition item_truthy (item : option string) : bool :=
  match item with
  | Some text => negb (String.eqb text EmptyString)
  | None => false
  end.

Definition settingsToMigrate : list string :=
  ["recordKeeper_pin"; "recordKeeper_decoyPin"; "recordKeeper_lockEnabled";
   "recordKeeper_welcomeCompleted"; "recordKeeper_userName"].

Section LocalStorage.
(** [JSON.parse] at type [RecordType[]]. *)
Variable JSON_parse_records : string -> Completion (list RecordType.t).

(** The loop [for (const key of settingsToMigrate)]. *)
Fixpoint migrateSettings (localStorage : gmap string string) (keys : list string)
    : Async unit :=
  match keys with
  | [] => mret tt
  | key :: rest =>
      match localStorage !! key with
      | Some value => saveSetting key (JSString value)
      | None => mret tt
      end;;
      migrateSettings localStorage rest
  end.

(** [migrateFromLocalStorage()].  The method only reads [localStorage]
    (the two [removeItem] lines are commented out). *)
Definition migrateFromLocalStorage (localStorage : gmap string string) : Async unit :=
  try_catch_async
    (let savedRecords := localStorage !! "recordKeeper_records" in
     (if item_truthy savedRecords
      then records ← Async_lift (JSON_parse_records (default EmptyString savedRecords));
           saveRecords records
      else mret tt);;
     migrateSettings localStorage settingsToMigrate)
    (fun error => throw error).
End LocalStorage.

(** The value of a setting after a completed migration loop over
    [keys]. *)
Definition migrated_setting (localStorage : gmap string string) (keys : list string)
    (settings : gmap string JSValue) (key : string) : option JSValue :=
  if decide (key ∈ keys)
  then match localStorage !! key with
       | Some value => Some (JSString value)
       | None => settings !! key
       end
  else settings !! key.

(* ================================================================== *)
(** * The [App] component and the settings screen *)
(* ================================================================== *)

Module App.
Inductive TabType : Type := tab_home | tab_add | tab_records | tab_settings.

(** The [useState] cells of the [App] component. *)
Record State : Type := mkState {
  activeTab : TabType;
  records : list RecordType.t;
  isLocked : bool;
  isDecoyMode : bool;
  pin : JSValue;
  decoyPin : JSValue;
  hasCompletedWelcome : bool;
  userName : JSValue
}.

Definition setActiveTab (tab : TabType) (s : State) : State :=
  mkState tab (records s) (isLocked s) (isDecoyMode s) (pin s) (decoyPin s)
    (hasCompletedWelcome s) (userName s).
Definition setRecords (rs : list RecordType.t) (s : State) : State :=
  mkState (activeTab s) rs (isLocked s) (isDecoyMode s) (pin s) (decoyPin s)
    (hasCompletedWelcome s) (userName s).
Definition setIsLocked (b : bool) (s : State) : State :=
  mkState (activeTab s) (records s) b (isDecoyMode s) (pin s) (decoyPin s)
    (hasCompletedWelcome s) (userName s).
Definition setPin (v : JSValue) (s : State) : State :=
  mkState (activeTab s) (records s) (isLocked s) (isDecoyMode s) v (decoyPin s)
    (hasCompletedWelcome s) (userName s).
Definition setDecoyPin (v : JSValue) (s : State) : State :=
  mkState (activeTab s) (records s) (isLocked s) (isDecoyMode s) (pin s) v
    (hasCompletedWelcome s) (userName s).
Definition setHasCompletedWelcome (b : bool) (s : State) : State :=
  mkState (activeTab s) (records s) (isLocked s) (isDecoyMode s) (pin s) (decoyPin s)
    b (userName s).
Definition setUserName (v : JSValue) (s : State) : State :=
  mkState (activeTab s) (records s) (isLocked s) (isDecoyMode s) (pin s) (decoyPin s)
    (hasCompletedWelcome s) v.

(** The state of the first render. *)
Definition initial (localStorage : gmap string string) : State :=
  mkState tab_home [] false false JSNull JSNull
    (bool_decide (localStorage !! "recordKeeper_welcomeCompleted" = Some "true"))
    JSNull.

(** What [AddRecord] hands to [onSave]. *)
Record Draft : Type := mkDraft {
  draft_dateTime : string;
  draft_description : string;
  draft_tags : list string;
  draft_people : option (list string);
  draft_location : option string;
  draft_severity : option Z;
  draft_files : option (list AttachmentType.t)
}.

Section Component.
Variable JSON_parse_records : string -> Completion (list RecordType.t).
Variable JSON_stringify_records : list RecordType.t -> string.
(** [crypto.randomUUID()] *)
Variable randomUUID : Async string.

(** [loadData()], the effect that runs on mount.  The database is taken
    to open. *)
Definition loadData (localStorage : gmap string string) (s : State) : Async State :=
  try_catch_async
    (let hasLocalStorageData := localStorage !! "recordKeeper_records" in
     (if item_truthy hasLocalStorageData
      then migrateFromLocalStorage JSON_parse_records localStorage
      else mret tt);;
     savedRecords ← getRecords;
     let s := if (0 <? length savedRecords)%nat then setRecords savedRecords s else s in
     savedPin ← getSetting "recordKeeper_pin";
     savedDecoyPin ← getSetting "recordKeeper_decoyPin";
     lockEnabled ← getSetting "recordKeeper_lockEnabled";
     welcomeCompleted ← getSetting "recordKeeper_welcomeCompleted";
     savedUserName ← getSetting "recordKeeper_userName";
     let s := if js_truthy savedPin then setPin savedPin s else s in
     let s := if js_truthy savedDecoyPin then setDecoyPin savedDecoyPin s else s in
     let s := if js_strict_equal lockEnabled (JSString "true") && js_truthy savedPin
              then setIsLocked true s else s in
     let s := if js_strict_equal welcomeCompleted (JSString "true")
              then setHasCompletedWelcome true s else s in
     let s := if js_truthy savedUserName then setUserName savedUserName s else s in
     mret s)
    (fun error =>
       (* Fallback to localStorage if IndexedDB fails *)
       let savedRecords := localStorage !! "recordKeeper_records" in
       if item_truthy savedRecords
       then records ← Async_lift (JSON_parse_records (default EmptyString savedRecords));
            mret (setRecords records s)
       else mret s).

(** The effect that runs whenever [records] has changed: the world and
    [localStorage] after it. *)
Definition saveEffect (records : list RecordType.t) (w : World)
    (localStorage : gmap string string) : World * gmap string string :=
  if (0 <? length records)%nat
  then match saveRecords records w with
       | (w', Returns _) => (w', localStorage)
       | (w', Throws _) =>
           (* Fallback to localStorage *)
           (w', <["recordKeeper_records" := JSON_stringify_records records]> localStorage)
       end
  else (w, localStorage).

(** [addRecord(record)] *)
Definition addRecord (record : Draft) (s : State) : Async State :=
  timestamp ← Date_now_toISOString;
  id ← randomUUID;
  let newRecord :=
    RecordType.mk id (draft_dateTime record) (draft_description record)
      (draft_tags record) (draft_people record) (draft_location record)
      (draft_severity record) (draft_files record)
      timestamp None None (Some [LogEntry.mk timestamp "created"]) in
  mret (setActiveTab tab_home (setRecords (newRecord :: records s) s)).

(** [deleteRecord(id)] *)
Definition deleteRecord (id : string) (s : State) : State :=
  setRecords (filter (fun r => RecordType.id r <> id) (records s)) s.
End Component.
End App.

Module SettingsScreen.
(** [handleClearData()] up to the reload: the world and [localStorage]
    after it.  Both the [try] block and the [catch] clause end with the
    same three [removeItem] calls. *)
Definition handleClearData (w : World) (localStorage : gmap string string)
    : World * gmap string string :=
  let cleared :=
    delete "recordKeeper_lockEnabled"
      (delete "recordKeeper_pin" (delete "recordKeeper_records" localStorage)) in
  let '(w', _) :=
    (clearRecords;;
     saveSetting "recordKeeper_pin" JSNull;;
     saveSetting "recordKeeper_lockEnabled" (JSString "false")) w in
  (w', cleared).
End SettingsScreen.

(* ================================================================== *)
(** * Backup files ([downloadBackup], [restoreFromFile]) *)
(* ================================================================== *)

Definition FileReadFailed : JSException := new_Error "Failed to read backup file".

Definition newline : string := String "010"%char EmptyString.

(** [JSON.stringify(encryptedBackup, null, 2)]: one member per line,
    indented by two spaces. *)
Definition JSON_stringify_envelope (encryptedBackup : EncryptedBackup.t) : string :=
  let member key value := "  " +:+ json_quote key +:+ ": " +:+ json_quote value in
  "{" +:+ newline
  +:+ member "version" (EncryptedBackup.version encryptedBackup) +:+ "," +:+ newline
  +:+ member "salt" (EncryptedBackup.salt encryptedBackup) +:+ "," +:+ newline
  +:+ member "iv" (EncryptedBackup.iv encryptedBackup) +:+ "," +:+ newline
  +:+ member "data" (EncryptedBackup.data encryptedBackup) +:+ newline
  +:+ "}".

(** [String(n).padStart(2, '0')] *)
Definition pad2 (n : Z) : string :=
  let text := NilZero.string_of_int (Z.to_int n) in
  if (String.length text <? 2)%nat then "0" +:+ text else text.

(** The envelope with another [version] field. *)
Definition with_version (version : string) (eb : EncryptedBackup.t) : EncryptedBackup.t :=
  EncryptedBackup.mk version (EncryptedBackup.salt eb) (EncryptedBackup.iv eb)
    (EncryptedBackup.data eb).

Section BackupFiles.
Context `{Platform}.
(** [JSON.parse] at type [EncryptedBackup]. *)
Variable JSON_parse_envelope : string -> Completion EncryptedBackup.t.

(** [downloadBackup(password, records, filename)]: the name and the
    text of the file that the browser is made to download.  [today]
    holds [getFullYear()], [getMonth()] and [getDate()] of [new Date()]. *)
Definition downloadBackup (password : string) (records : list RecordType.t)
    (filename : option string) (today : Z * Z * Z) : Async (string * string) :=
  encryptedBackup ← createBackup password records;
  let jsonString := JSON_stringify_envelope encryptedBackup in
  let '(fullYear, month, date) := today in
  let dateStr :=
    NilZero.string_of_int (Z.to_int fullYear) +:+ "-" +:+ pad2 (month + 1)
    +:+ "-" +:+ pad2 date in
  let download :=
    if item_truthy filename then default EmptyString filename
    else "herlaw-backup-" +:+ dateStr +:+ ".encrypted" in
  mret (download, jsonString).

(** [restoreFromFile(password, file)]; [file] is the text that the
    [FileReader] delivers, [None] when it fails. *)
Definition restoreFromFile (password : string) (file : option string)
    : Completion BackupData.t :=
  match file with
  | Some content =>
      try_catch
        (encryptedBackup ← JSON_parse_envelope content;
         restoreBackup password encryptedBackup)
        (fun error => Throws error)
  | None => Throws FileReadFailed
  end.
End BackupFiles.

(* ================================================================== *)
(** * [CloudSyncService]: encryption, transport and [applySyncData] *)
(* ================================================================== *)

Definition SYNC_VERSION : string := "1.0".

Definition SyncApplyFailed : JSException := new_Error "Failed to apply sync data".

#[global] Instance SyncSettings_eq_dec : EqDecision SyncSettings.t.
Proof. solve_decision. Defined.
#[global] Instance SyncData_eq_dec : EqDecision SyncData.t.
Proof. solve_decision. Defined.

Section CloudSyncCrypto.
Context `{Platform}.
(** [JSON.stringify] and [JSON.parse] at type [SyncData]. *)
Variable JSON_stringify_sync : SyncData.t -> string.
Variable JSON_parse_sync : string -> Completion SyncData.t.

(** [encryptData(data, userId)].  The key is derived from the user id;
    salt, nonce and ciphertext travel in one buffer, whose base64 form
    is made by the loop that [arrayBufferToBase64] has too. *)
Definition encryptData (data : SyncData.t) (userId : string) : Async string :=
  let jsonData := JSON_stringify_sync data in
  let dataBuffer := TextEncoder_encode jsonData in
  let keyMaterial := TextEncoder_encode userId in
  salt ← getRandomValues 16;
  let key := subtle_deriveKey keyMaterial salt 100000 in
  iv ← getRandomValues 12;
  let encryptedBuffer := subtle_encrypt key iv dataBuffer in
  let combined := salt ++ iv ++ encryptedBuffer in
  mret (arrayBufferToBase64 combined).

(** [decryptData(encryptedBase64, userId)] *)
Definition decryptData (encryptedBase64 userId : string) : Completion SyncData.t :=
  bytes ← base64ToArrayBuffer encryptedBase64;
  let salt := take 16 bytes in                  (* bytes.slice(0, 16) *)
  let iv := take 12 (drop 16 bytes) in          (* bytes.slice(16, 28) *)
  let encryptedData := drop 28 bytes in         (* bytes.slice(28) *)
  let keyMaterial := TextEncoder_encode userId in
  let key := subtle_deriveKey keyMaterial salt 100000 in
  decryptedBuffer ← subtle_decrypt key iv encryptedData;
  let jsonData := TextDecoder_decode decryptedBuffer in
  JSON_parse_sync jsonData.
End CloudSyncCrypto.

Module UserDataRow.
(** A row of the table 'user_data'. *)
Record t : Type := mk {
  user_id : string;
  encrypted_data : string;
  last_synced : string;
  updated_at : string
}.
End UserDataRow.

(** The settings that [uploadToCloud] gathers from the store. *)
Definition stored_sync_settings (w : World) : SyncSettings.t :=
  let read key := default JSUndefined (idb_settings w !! key) in
  SyncSettings.mk (read "recordKeeper_pin") (read "recordKeeper_decoyPin")
    (read "recordKeeper_lockEnabled") (read "recordKeeper_userName").

Section CloudTransport.
Context `{Platform}.
Variable JSON_stringify_sync : SyncData.t -> string.
Variable JSON_parse_sync : string -> Completion SyncData.t.
(** [isSupabaseConfigured && supabase] *)
Variable supabaseConfigured : bool.
(** [authService.getCurrentUser()]: the id of the user, [None] when
    nobody is signed in. *)
Variable getCurrentUser : Async (option string).
(** [supabase.from('user_data').upsert(row)]: the message of the
    [error] of the response, [None] when it is [null]. *)
Variable upsert : UserDataRow.t -> Async (option string).
(** [supabase.from('user_data').select(...).eq('user_id', id).single()]:
    [data?.encrypted_data], and the code and message of [error]. *)
Variable select_single : string -> Async (option string * option (string * string)).

(** [uploadToCloud(records)] *)
Definition uploadToCloud (records : list RecordType.t) : Async (bool * option string) :=
  if negb supabaseConfigured
  then mret (false, Some "Cloud sync not configured")
  else
    try_catch_async
      (user ← getCurrentUser;
       match user with
       | None => mret (false, Some "Not signed in")
       | Some userId =>
           pin ← getSetting "recordKeeper_pin";
           decoyPin ← getSetting "recordKeeper_decoyPin";
           lockEnabled ← getSetting "recordKeeper_lockEnabled";
           userName ← getSetting "recordKeeper_userName";
           let settings := SyncSettings.mk pin decoyPin lockEnabled userName in
           lastSynced ← Date_now_toISOString;
           let syncData := SyncData.mk SYNC_VERSION lastSynced records settings in
           encryptedData ← encryptData JSON_stringify_sync syncData userId;
           last_synced ← Date_now_toISOString;
           updated_at ← Date_now_toISOString;
           error ← upsert (UserDataRow.mk userId encryptedData last_synced updated_at);
           match error with
           | Some message => mret (false, Some message)
           | None => mret (true, None)
           end
       end)
      (fun error => mret (false, Some "Failed to upload to cloud")).

(** [downloadFromCloud()] *)
Definition downloadFromCloud : Async (option SyncData.t * option string) :=
  if negb supabaseConfigured
  then mret (None, Some "Cloud sync not configured")
  else
    try_catch_async
      (user ← getCurrentUser;
       match user with
       | None => mret (None, Some "Not signed in")
       | Some userId =>
           '(encrypted_data, error) ← select_single userId;
           match error with
           | Some (code, message) =>
               if String.eqb code "PGRST116"
               then mret (None, None)   (* No data found *)
               else mret (None, Some message)
           | None =>
               if negb (item_truthy encrypted_data) then mret (None, None)
               else
                 syncData ← Async_lift
                   (decryptData JSON_parse_sync (default EmptyString encrypted_data) userId);
                 mret (Some syncData, None)
           end
       end)
      (fun error => mret (None, Some "Failed to download from cloud")).
End CloudTransport.

(** [applySyncData(syncData)] *)
Definition applySyncData (syncData : SyncData.t) : Async unit :=
  let settings := SyncData.settings syncData in
  try_catch_async
    (saveRecords (SyncData.records syncData);;
     restoreSetting "recordKeeper_pin" (SyncSettings.pin settings);;
     restoreSetting "recordKeeper_decoyPin" (SyncSettings.decoyPin settings);;
     restoreSetting "recordKeeper_lockEnabled" (SyncSettings.lockEnabled settings);;
     restoreSetting "recordKeeper_userName" (SyncSettings.userName settings);;
     mret tt)
    (fun error => throw SyncApplyFailed).

(** The backup that carries what a sync snapshot carries: the same
    records and the four settings, no welcome flag. *)
Definition backup_of_sync (syncData : SyncData.t) : BackupData.t :=
  let settings := SyncData.settings syncData in
  BackupData.mk (SyncData.version syncData) (SyncData.lastSynced syncData)
    (SyncData.records syncData)
    (BackupSettings.mk (SyncSettings.pin settings) (SyncSettings.decoyPin settings)
       (SyncSettings.lockEnabled settings) (SyncSettings.userName settings)
       JSUndefined).

(* ================================================================== *)
(** * [EncryptedStorageService]: the evidence store *)
(* ================================================================== *)

Definition TypeError (message : string) : JSException :=
  mkException true "TypeError" message.

Module EncryptedStorageService.
(** The methods of the web path ([isNative] false) that are not
    modelled above.  [records] is the parsed content of the item
    'evidence_records' ([getFromLocalStorage()]: the empty list when the
    item is absent). *)

(** [r.tags.includes(tag)] *)
Definition tags_include (tag : string) (r : JSObject) : Completion bool :=
  match js_get "tags" r with
  | JSString tags => Returns (string_includes tag tags)
  | JSUndefined | JSNull =>
      Throws (TypeError "Cannot read properties of undefined (reading 'includes')")
  | _ => Throws (TypeError "r.tags.includes is not a function")
  end.

(** [all.filter(callback)] with a callback that may throw. *)
Fixpoint array_filter (callback : JSObject -> Completion bool) (all : list JSObject)
    : Completion (list JSObject) :=
  match all with
  | [] => Returns []
  | r :: rest =>
      keep ← callback r;
      kept ← array_filter callback rest;
      Returns (if keep : bool then r :: kept else kept)
  end.

(** [getRecordsByTag(tag)] *)
Definition getRecordsByTag (tag : string) (records : list JSObject)
    : Completion (list JSObject) :=
  try_catch (array_filter (tags_include tag) records) (fun error => Throws error).

(** [deleteRecord(id)]: the new content of the item. *)
Definition deleteRecord (id : Z) (records : list JSObject) : list JSObject :=
  let filtered :=
    filter (fun r => js_strict_equal (js_get "id" r) (JSNumber id) = false) records in
  map js_json_clone filtered.

(** [clearAllRecords()]: the item is removed. *)
Definition clearAllRecords (records : list JSObject) : list JSObject := [].
End EncryptedStorageService.

(** Whether the [tags] string of a record contains [tag]. *)
Definition tag_matches (tag : string) (r : JSObject) : bool :=
  match js_get "tags" r with
  | JSString tags => string_includes tag tags
  | _ => false
  end.

(** What [JSON.parse] can return for a flat object: no property holds
    [undefined] and no key occurs twice. *)
Definition js_parsed (object : JSObject) : Prop :=
  NoDup object.*1 /\ Forall (fun p => p.2 <> JSUndefined) object.

(** The [id] of a stored record as the interface [EncryptedRecord]
    declares it ([id?: number]) and as [saveToLocalStorage] assigns it:
    missing, or an integer below 2^53 in absolute value, which a Number
    holds exactly together with its successor. *)
Definition id_declared (r : JSObject) : Prop :=
  match js_get "id" r with
  | JSUndefined => True
  | JSNumber n => (Z.abs n < 2 ^ 53)%Z
  | _ => False
  end.

(** Two inputs on which a digest collides. *)
Definition digest_collision (digest : list byte -> list byte) : Prop :=
  exists x y : list byte, x <> y /\ digest x = digest y.

(* ================================================================== *)
(** * A reader for the JSON texts that the program writes *)
(* ================================================================== *)

(** The character that the letter of a two-character escape denotes. *)
Definition json_unescape_letter (e : ascii) : option ascii :=
  if Ascii.eqb e "b" then Some "008"%char
  else if Ascii.eqb e "t" then Some "009"%char
  else if Ascii.eqb e "n" then Some "010"%char
  else if Ascii.eqb e "f" then Some "012"%char
  else if Ascii.eqb e "r" then Some "013"%char
  else if Ascii.eqb e dquote then Some dquote
  else if Ascii.eqb e backslash then Some backslash
  else None.

(** Reads a JSON string literal from behind its opening quote: the
    string it denotes, and the text behind its closing quote. *)
Fixpoint json_read_string (text : string) : option (string * string) :=
  match text with
  | EmptyString => None
  | String c rest =>
      if Ascii.eqb c dquote then Some (EmptyString, rest)
      else if Ascii.eqb c backslash then
        match rest with
        | String e rest1 =>
            if Ascii.eqb e "u" then
              match rest1 with
              | String z1 (String z2 (String hi (String lo rest2))) =>
                  if Ascii.eqb z1 "0" && Ascii.eqb z2 "0" then
                    b ← hex_pair_to_byte hi lo;
                    '(s, after) ← json_read_string rest2;
                    Some (String (ascii_of_byte b) s, after)
                  else None
              | _ => None
              end
            else
              c' ← json_unescape_letter e;
              '(s, after) ← json_read_string rest1;
              Some (String c' s, after)
        | EmptyString => None
        end
      else
        '(s, after) ← json_read_string rest;
        Some (String c s, after)
  end.

(** The characters of a JSON integer. *)
Definition is_number_char (c : ascii) : bool :=
  Ascii.eqb c "-" || ((48 <=? nat_of_ascii c) && (nat_of_ascii c <=? 57)).

(** Reads the longest run of number characters. *)
Fixpoint json_read_number (text : string) : string * string :=
  match text with
  | EmptyString => (EmptyString, EmptyString)
  | String c rest =>
      if is_number_char c
      then let '(digits, after) := json_read_number rest in (String c digits, after)
      else (EmptyString, text)
  end.

(** Whether a text begins with a number character. *)
Definition starts_number (text : string) : bool :=
  match text with
  | EmptyString => false
  | String c _ => is_number_char c
  end.

(** Removes [expected] from the front of [text]. *)
Fixpoint json_expect (expected text : string) : option string :=
  match expected with
  | EmptyString => Some text
  | String c expected' =>
      match text with
      | String d text' => if Ascii.eqb c d then json_expect expected' text' else None
      | EmptyString => None
      end
  end.

(** The integer that a JSON numeral denotes. *)
Definition json_number_value (digits : string) : option Z :=
  Z.of_int <$> NilZero.int_of_string digits.

(** The text in front of the value of a string member that is not the
    first member. *)
Definition member_open (key : string) : string :=
  "," +:+ json_quote key +:+ ":" +:+ String dquote EmptyString.

Definition evidence_open : string := "{" +:+ json_quote "timestamp" +:+ ":".

(** A reader for the JSON text of an evidence record: timestamp, type,
    content, tags and attachments. *)
Definition parse_evidence_record (text : string)
    : option (Z * string * string * string * option string) :=
  text ← json_expect evidence_open text;
  let '(digits, text) := json_read_number text in
  timestamp ← json_number_value digits;
  text ← json_expect (member_open "type") text;
  '(type, text) ← json_read_string text;
  text ← json_expect (member_open "content") text;
  '(content, text) ← json_read_string text;
  text ← json_expect (member_open "tags") text;
  '(tags, text) ← json_read_string text;
  if String.eqb text "}" then Some (timestamp, type, content, tags, None)
  else
    text ← json_expect (member_open "attachments") text;
    '(attachments, text) ← json_read_string text;
    if String.eqb text "}" then Some (timestamp, type, content, tags, Some attachments)
    else None.

(** The text in front of the value of a member of a pretty-printed
    object. *)
Definition envelope_member_open (first : bool) (key : string) : string :=
  (if first then "{" else ",") +:+ newline +:+ "  " +:+ json_quote key +:+ ": "
  +:+ String dquote EmptyString.

(** A reader for the text of a backup file. *)
Definition parse_envelope (text : string) : option EncryptedBackup.t :=
  text ← json_expect (envelope_member_open true "version") text;
  '(version, text) ← json_read_string text;
  text ← json_expect (envelope_member_open false "salt") text;
  '(salt, text) ← json_read_string text;
  text ← json_expect (envelope_member_open false "iv") text;
  '(iv, text) ← json_read_string text;
  text ← json_expect (envelope_member_open false "data") text;
  '(data, text) ← json_read_string text;
  if String.eqb text (newline +:+ "}")
  then Some (EncryptedBackup.mk version salt iv data)
  else None.

(* ================================================================== *)
(** * A platform that satisfies the laws *)
(* ================================================================== *)

(** The laws of [PlatformLaws] and [IdealCrypto] are consistent: the
    platform below satisfies all of them.  Its key derivation is
    symbolic (a key is the triple it was derived from), its cipher
    text is an error-detecting code of (key, nonce, message), and its
    JSON text is the binary numeral of stdpp's [encode]. *)

Definition index_sextet (n : nat) : sextet :=
  (Nat.testbit n 5, Nat.testbit n 4, Nat.testbit n 3,
   Nat.testbit n 2, Nat.testbit n 1, Nat.testbit n 0).

Definition base64_value (c : ascii) : option sextet :=
  index_sextet <$> string_index_of c base64_alphabet.

Definition base64_unquad (c1 c2 c3 c4 : ascii) : option string :=
  '(a7, a6, a5, a4, a3, a2) ← base64_value c1;
  '(a1, a0, b7, b6, b5, b4) ← base64_value c2;
  '(b3, b2, b1, b0, c7, c6) ← base64_value c3;
  '(c5, c4, c3, c2, c1, c0) ← base64_value c4;
  Some (String (Ascii a0 a1 a2 a3 a4 a5 a6 a7)
         (String (Ascii b0 b1 b2 b3 b4 b5 b6 b7)
           (String (Ascii c0 c1 c2 c3 c4 c5 c6 c7) EmptyString))).

Definition base64_untail2 (c1 c2 c3 : ascii) : option string :=
  '(a7, a6, a5, a4, a3, a2) ← base64_value c1;
  '(a1, a0, b7, b6, b5, b4) ← base64_value c2;
  '(b3, b2, b1, b0, _, _) ← base64_value c3;
  Some (String (Ascii a0 a1 a2 a3 a4 a5 a6 a7)
         (String (Ascii b0 b1 b2 b3 b4 b5 b6 b7) EmptyString)).

Definition base64_untail1 (c1 c2 : ascii) : option string :=
  '(a7, a6, a5, a4, a3, a2) ← base64_value c1;
  '(a1, a0, _, _, _, _) ← base64_value c2;
  Some (String (Ascii a0 a1 a2 a3 a4 a5 a6 a7) EmptyString).

(** A strict base64 decoder (padding required, no white space). *)
Fixpoint base64_decode (s : string) : option string :=
  match s with
  | EmptyString => Some EmptyString
  | String c1 (String c2 (String c3 (String c4 rest))) =>
      if Ascii.eqb c4 "="%char && String.eqb rest EmptyString
      then if Ascii.eqb c3 "="%char
           then base64_untail1 c1 c2
           else base64_untail2 c1 c2 c3
      else
        front ← base64_unquad c1 c2 c3 c4;
        back ← base64_decode rest;
        Some (front +:+ back)
  | _ => None
  end.

(** A UTF-8 decoder for the one- and two-byte forms. *)
Fixpoint utf8_decode (bs : list byte) : string :=
  match bs with
  | [] => EmptyString
  | b :: rest =>
      let '(Ascii b0 b1 b2 b3 b4 b5 b6 b7) := ascii_of_byte b in
      if b7
      then match rest with
           | [] => EmptyString
           | c :: rest' =>
               let '(Ascii c0 c1 c2 c3 c4 c5 c6 c7) := ascii_of_byte c in
               String (Ascii c0 c1 c2 c3 c4 c5 b0 true) (utf8_decode rest')
           end
      else String (ascii_of_byte b) (utf8_decode rest)
  end.

(** Binary numerals, as text and as bytes of which only [x00] and
    [xff] are valid. *)
Fixpoint positive_to_string (p : positive) : string :=
  match p with
  | xH => EmptyString
  | xO q => String "0"%char (positive_to_string q)
  | xI q => String "1"%char (positive_to_string q)
  end.

Fixpoint string_to_positive (s : string) : positive :=
  match s with
  | EmptyString => xH
  | String c rest =>
      if Ascii.eqb c "0"%char then xO (string_to_positive rest)
      else xI (string_to_positive rest)
  end.

Fixpoint positive_to_bytes (p : positive) : list byte :=
  match p with
  | xH => []
  | xO q => x00 :: positive_to_bytes q
  | xI q => xff :: positive_to_bytes q
  end.

Fixpoint bytes_to_positive (bs : list byte) : option positive :=
  match bs with
  | [] => Some xH
  | b :: rest =>
      if Byte.eqb b x00 then xO <$> bytes_to_positive rest
      else if Byte.eqb b xff then xI <$> bytes_to_positive rest
      else None
  end.

#[global] Instance byte_eq_dec : EqDecision byte := Byte.byte_eq_dec.
#[global] Instance byte_countable : Countable byte :=
  inj_countable Byte.to_N Byte.of_N Byte.of_to_N.

#[global] Instance JSValue_countable : Countable JSValue.
Proof.
  refine (inj_countable'
    (fun v => match v with
              | JSUndefined => inl (inl tt)
              | JSNull => inl (inr tt)
              | JSBoolean b => inr (inl b)
              | JSNumber n => inr (inr (inl n))
              | JSString s => inr (inr (inr s))
              end)
    (fun x => match x with
              | inl (inl _) => JSUndefined
              | inl (inr _) => JSNull
              | inr (inl b) => JSBoolean b
              | inr (inr (inl n)) => JSNumber n
              | inr (inr (inr s)) => JSString s
              end) _).
  intros []; reflexivity.
Defined.

#[global] Instance AttachmentType_kind_countable : Countable AttachmentType.kind.
Proof.
  refine (inj_countable'
    (fun k => match k with
              | AttachmentType.image => 0 | AttachmentType.pdf => 1
              | AttachmentType.audio => 2 | AttachmentType.video => 3
              | AttachmentType.document => 4
              end)
    (fun n => match n with
              | 0 => AttachmentType.image | 1 => AttachmentType.pdf
              | 2 => AttachmentType.audio | 3 => AttachmentType.video
              | _ => AttachmentType.document
              end) _).
  intros []; reflexivity.
Defined.

#[global] Instance AttachmentType_origin_countable : Countable AttachmentType.origin.
Proof.
  refine (inj_countable'
    (fun k => match k with
              | AttachmentType.scanner => 0 | AttachmentType.camera => 1
              | AttachmentType.files => 2
              end)
    (fun n => match n with
              | 0 => AttachmentType.scanner | 1 => AttachmentType.camera
              | _ => AttachmentType.files
              end) _).
  intros []; reflexivity.
Defined.

#[global] Instance AttachmentType_countable : Countable AttachmentType.t.
Proof.
  refine (inj_countable'
    (fun a => (AttachmentType.id a, AttachmentType.name a, AttachmentType.url a,
               AttachmentType.type a, AttachmentType.source a,
               AttachmentType.fileHash a, AttachmentType.ocrText a))
    (fun '(i, n, u, k, s, h, o) => AttachmentType.mk i n u k s h o) _).
  intros []; reflexivity.
Defined.

#[global] Instance LogEntry_countable : Countable LogEntry.t.
Proof.
  refine (inj_countable'
    (fun e => (LogEntry.timestamp e, LogEntry.action e))
    (fun '(t, a) => LogEntry.mk t a) _).
  intros []; reflexivity.
Defined.

#[global] Instance RecordType_countable : Countable RecordType.t.
Proof.
  refine (inj_countable'
    (fun r => (RecordType.id r, RecordType.dateTime r, RecordType.description r,
               RecordType.tags r, RecordType.people r, RecordType.location r,
               RecordType.severity r, RecordType.files r, RecordType.createdAt r,
               RecordType.editedAt r, RecordType.contentHash r, RecordType.eventLog r))
    (fun '(i, d, ds, t, p, l, s, f, c, e, h, g) =>
       RecordType.mk i d ds t p l s f c e h g) _).
  intros []; reflexivity.
Defined.

#[global] Instance BackupSettings_countable : Countable BackupSettings.t.
Proof.
  refine (inj_countable'
    (fun s => (BackupSettings.pin s, BackupSettings.decoyPin s,
               BackupSettings.lockEnabled s, BackupSettings.userName s,
               BackupSettings.welcomeCompleted s))
    (fun '(p, d, l, u, w) => BackupSettings.mk p d l u w) _).
  intros []; reflexivity.
Defined.

#[global] Instance BackupData_countable : Countable BackupData.t.
Proof.
  refine (inj_countable'
    (fun d => (BackupData.version d, BackupData.exportDate d,
               BackupData.records d, BackupData.settings d))
    (fun '(v, e, r, s) => BackupData.mk v e r s) _).
  intros []; reflexivity.
Defined.

Section SamplePlatform.
(** The [message] that the browser puts into the DOMException of a
    failed decryption. *)
Variable decrypt_failure_message : string.

Definition sample_key : Type := (list byte * list byte * Z)%type.

Definition OperationError : JSException :=
  DOMException "OperationError" decrypt_failure_message.
Definition InvalidCharacterError : JSException :=
  DOMException "InvalidCharacterError" "The string to be decoded is not correctly encoded.".
Definition SyntaxError : JSException :=
  mkException true "SyntaxError" "Unexpected token in JSON".

Definition sample_encrypt (key : sample_key) (iv data : list byte) : list byte :=
  positive_to_bytes (encode (key, iv, data)).

Definition sample_decrypt (key : sample_key) (iv data : list byte)
    : Completion (list byte) :=
  match bytes_to_positive data ≫= decode with
  | Some (key', iv', plain) =>
      if decide (key' = key /\ iv' = iv) then Returns plain
      else Throws OperationError
  | None => Throws OperationError
  end.

Definition sample_platform : Platform := {|
  CryptoKey := sample_key;
  JSON_stringify := fun d => positive_to_string (encode d);
  JSON_parse := fun text =>
    match decode (string_to_positive text) with
    | Some d => Returns d
    | None => Throws SyntaxError
    end;
  TextDecoder_decode := utf8_decode;
  atob := fun text =>
    match base64_decode text with
    | Some binary => Returns binary
    | None => Throws InvalidCharacterError
    end;
  subtle_deriveKey := fun password salt iterations => (password, salt, iterations);
  subtle_encrypt := sample_encrypt;
  subtle_decrypt := sample_decrypt
|}.
End SamplePlatform.

(** The message Firefox and Node.js give to the OperationError of a
    failed AES-GCM decryption (Chromium gives the empty string). *)
Definition browser_failure_message : string :=
  "The operation failed for an operation-specific reason".

(** A random tape that counts, a clock, and an empty database. *)
Definition sample_world : World :=
  mkWorld ∅ ∅ None
    (fun n => default x00 (Byte.of_nat (n mod 256)))
    0 "2025-01-01T00:00:00.000Z".

Definition sample_record (id description : string) : RecordType.t :=
  RecordType.mk id "2025-01-01T09:30" description ["Harassment"] None None
    (Some 4%Z) None "2025-01-01T09:31:00.000Z" None None None.

(** A backup that carries a pin, a [null] decoy pin, an empty user name
    and no other setting. *)
Definition sample_backup : BackupData.t :=
  BackupData.mk BACKUP_VERSION "2025-01-01T00:00:00.000Z"
    [sample_record "r1" "Incident at pickup"; sample_record "r2" "Missed exchange"]
    (BackupSettings.mk (JSString "1234") JSNull JSUndefined (JSString EmptyString)
       JSUndefined).

(** A database with one older record, a pin and a user name. *)
Definition sample_old_world : World :=
  mkWorld {[ "r0" := sample_record "r0" "Older entry" ]}
    {[ "recordKeeper_pin" := JSString "0000";
       "recordKeeper_userName" := JSString "Ada" ]}
    None (csprng_tape sample_world) 0 (clock_iso sample_world).

#[global] Instance SyncSettings_countable : Countable SyncSettings.t.
Proof.
  refine (inj_countable'
    (fun s => (SyncSettings.pin s, SyncSettings.decoyPin s,
               SyncSettings.lockEnabled s, SyncSettings.userName s))
    (fun '(p, d, l, u) => SyncSettings.mk p d l u) _).
  intros []; reflexivity.
Defined.

#[global] Instance SyncData_countable : Countable SyncData.t.
Proof.
  refine (inj_countable'
    (fun d => (SyncData.version d, SyncData.lastSynced d,
               SyncData.records d, SyncData.settings d))
    (fun '(v, l, r, s) => SyncData.mk v l r s) _).
  intros []; reflexivity.
Defined.

(** A JSON text for record lists that a parser inverts: a bracket
    followed by the binary numeral of stdpp's [encode]. *)
Definition sample_stringify_records (records : list RecordType.t) : string :=
  String "["%char (positive_to_string (encode records)).

Definition sample_parse_records (text : string) : Completion (list RecordType.t) :=
  match text with
  | String "["%char numeral =>
      match decode (string_to_positive numeral) with
      | Some records => Returns records
      | None => Throws SyntaxError
      end
  | _ => Throws SyntaxError
  end.

(** The same for sync snapshots. *)
Definition sample_stringify_sync (data : SyncData.t) : string :=
  String "{"%char (positive_to_string (encode data)).

Definition sample_parse_sync (text : string) : Completion SyncData.t :=
  match text with
  | String "{"%char numeral =>
      match decode (string_to_positive numeral) with
      | Some data => Returns data
      | None => Throws SyntaxError
      end
  | _ => Throws SyntaxError
  end.

(** A parser for backup files. *)
Definition sample_parse_envelope (text : string) : Completion EncryptedBackup.t :=
  match parse_envelope text with
  | Some encryptedBackup => Returns encryptedBackup
  | None => Throws SyntaxError
  end.

(** A [crypto.randomUUID] that reads its value off the random tape. *)
Definition sample_randomUUID : Async string := fun w =>
  (advance_csprng 16 w,
   Returns (bytes_to_hex (map (csprng_tape w) (seq (csprng_pos w) 16)))).

Definition sample_sync_data : SyncData.t :=
  SyncData.mk SYNC_VERSION "2025-01-02T00:00:00.000Z"
    [sample_record "r1" "Incident at pickup"]
    (SyncSettings.mk (JSString "1234") JSNull JSUndefined (JSString "Ada")).

(** A backup of another version. *)
Definition sample_foreign_backup : BackupData.t :=
  BackupData.mk "9.9" "1999-12-31T23:59:59.000Z" [sample_record "r1" "Incident at pickup"]
    (BackupSettings.mk JSUndefined JSUndefined JSUndefined JSUndefined JSUndefined).

(** A signed-in user and a server that accepts every row. *)
Definition sample_getCurrentUser : Async (option string) := mret (Some "user-1").
Definition sample_upsert (row : UserDataRow.t) : Async (option string) := mret None.

(* ================================================================== *)
(** * Three claims of the specification, as stated *)
(* ================================================================== *)

(** These are the readings of claims C2, C3, C4 and C10 that the code
    does not satisfy. *)

(** The claim C2 as the specification states it. *)
Definition restore_always_reports_incorrect_password (P : Platform) : Prop :=
  forall password records w w' envelope,
    @createBackup P password records w = (w', Returns envelope) ->
    (forall other, other <> password ->
       @restoreBackup P other envelope = Throws IncorrectPasswordOrCorrupted)
    /\ (forall i other, i < @data_bits P envelope ->
          @restoreBackup P other (@tamper_data P i envelope)
          = Throws IncorrectPasswordOrCorrupted).

(** How [restoreBackup] turns a restoration down: the promise is
    rejected, with 'Password is required' exactly when the password
    given is empty, and with one of the two errors of the [catch] clause
    otherwise. *)
Definition restore_rejected (password : string)
    (outcome : Completion BackupData.t) : Prop :=
  exists e,
    outcome = Throws e
    /\ (password = EmptyString -> e = PasswordRequired)
    /\ (password <> EmptyString ->
        e = IncorrectPasswordOrCorrupted \/ e = RestoreFailed).


(** The claim C4 as the specification states it: [verifyRecordIntegrity]
    accepts a record exactly when its stored hash is the hexadecimal
    SHA-256 digest of its content. *)
Definition verify_iff_sha256 (subtle : option (list byte -> list byte))
    (sha256 : list byte -> list byte) : Prop :=
  forall content : JSObject,
    js_has "hash" content = false ->
    forall stored : JSValue,
      verifyRecordIntegrity subtle (js_spread_set content "hash" stored) = true
      <-> stored = JSString (bytes_to_hex (sha256
                     (TextEncoder_encode (JSON_stringify_object content)))).

(** The last part of claim C10 as the specification states it: after
    [applyBackup] the 'records' store holds the records of the backup,
    whatever the backup and the state of the store. *)
Definition applyBackup_always_replaces_records : Prop :=
  forall (backupData : BackupData.t) (w : World),
    (map_to_list (idb_records (applyBackup backupData w).1)).*2
    ≡ₚ BackupData.records backupData.

(** A backup file whose two records carry the same id. *)
Definition sample_duplicate_backup : BackupData.t :=
  BackupData.mk BACKUP_VERSION "2025-01-01T00:00:00.000Z"
    [sample_record "r1" "first copy"; sample_record "r1" "second copy"]
    (BackupSettings.mk (JSString "1234") JSNull JSUndefined (JSString EmptyString)
       JSUndefined).

(** Solves [key ∉ [k1; ...; kn]] for literal keys. *)
Ltac solve_not_listed :=
  cbn; let Hin := fresh "Hin" in
  intros Hin;
  repeat (apply elem_of_cons in Hin as [?|Hin]; [done|]);
  by apply elem_of_nil in Hin.

(** Closes a goal about an in-band error result of the cloud transport. *)
Ltac in_band :=
  eexists _, _; split; [reflexivity|cbn; try done; try (by intros [? ?])].

(* ================================================================== *)
(** * Lemmas on the encodings *)
(* ================================================================== *)

Lemma base64_value_char (s : sextet) : base64_value (base64_char s) = Some s.
Proof. destruct s as [[[[[[] []] []] []] []] []]; reflexivity. Qed.

Lemma base64_char_not_pad (s : sextet) : Ascii.eqb (base64_char s) "="%char = false.
Proof. destruct s as [[[[[[] []] []] []] []] []]; reflexivity. Qed.

Lemma base64_unquad_quad (a b c : ascii) (rest : string) :
  exists c1 c2 c3 c4,
    base64_quad a b c = String c1 (String c2 (String c3 (String c4 EmptyString)))
    /\ Ascii.eqb c4 "="%char = false
    /\ base64_unquad c1 c2 c3 c4 = Some (String a (String b (String c EmptyString))).
Proof.
  destruct a as [a0 a1 a2 a3 a4 a5 a6 a7], b as [b0 b1 b2 b3 b4 b5 b6 b7],
           c as [c0 c1 c2 c3 c4 c5 c6 c7].
  do 4 eexists. split; [reflexivity|]. split; [apply base64_char_not_pad|].
  unfold base64_unquad. rewrite !base64_value_char. reflexivity.
Qed.

Lemma base64_untail2_tail2 (a b : ascii) :
  base64_decode (base64_tail2 a b) = Some (String a (String b EmptyString)).
Proof.
  destruct a as [a0 a1 a2 a3 a4 a5 a6 a7], b as [b0 b1 b2 b3 b4 b5 b6 b7].
  cbn -[base64_char base64_value].
  rewrite base64_char_not_pad. unfold base64_untail2.
  rewrite !base64_value_char. reflexivity.
Qed.

Lemma base64_untail1_tail1 (a : ascii) :
  base64_decode (base64_tail1 a) = Some (String a EmptyString).
Proof.
  destruct a as [a0 a1 a2 a3 a4 a5 a6 a7].
  cbn -[base64_char base64_value]. unfold base64_untail1.
  rewrite !base64_value_char. reflexivity.
Qed.

(** Induction on strings three characters at a time. *)
Lemma string_ind3 (P : string -> Prop) :
  P EmptyString ->
  (forall a, P (String a EmptyString)) ->
  (forall a b, P (String a (String b EmptyString))) ->
  (forall a b c rest, P rest -> P (String a (String b (String c rest)))) ->
  forall s, P s.
Proof.
  intros H0 H1 H2 H3.
  assert (forall s, P s /\ (forall a, P (String a s))
                    /\ (forall a b, P (String a (String b s)))) as Hall.
  { induction s as [|c s (IH0 & IH1 & IH2)]; [auto|].
    split; [apply IH1|]. split; [intros a; apply IH2|].
    intros a b. apply H3, IH0. }
  intros s. apply Hall.
Qed.

(** The strict decoder inverts [btoa]. *)
Lemma base64_decode_btoa (binary : string) :
  base64_decode (btoa binary) = Some binary.
Proof.
  induction binary as [|a|a b|a b c rest IH] using string_ind3.
  - reflexivity.
  - apply base64_untail1_tail1.
  - apply base64_untail2_tail2.
  - change (btoa (String a (String b (String c rest))))
      with (base64_quad a b c +:+ btoa rest).
    destruct (base64_unquad_quad a b c rest) as (c1 & c2 & c3 & c4 & -> & Hpad & Hquad).
    change (base64_decode (String c1 (String c2 (String c3 (String c4 (btoa rest)))))
            = Some (String a (String b (String c rest)))).
    cbn [base64_decode]. rewrite Hpad. cbn [andb].
    rewrite Hquad, IH. reflexivity.
Qed.

Lemma btoa_injective (s t : string) : btoa s = btoa t -> s = t.
Proof.
  intros Heq. apply (f_equal base64_decode) in Heq.
  rewrite !base64_decode_btoa in Heq. congruence.
Qed.

Lemma utf8_decode_encode (s : string) : utf8_decode (TextEncoder_encode s) = s.
Proof.
  induction s as [|c s IH]; [reflexivity|].
  destruct c as [b0 b1 b2 b3 b4 b5 b6 b7].
  destruct b7; cbn [TextEncoder_encode utf8_encode_char app utf8_decode];
    rewrite ?ascii_of_byte_of_ascii, IH; reflexivity.
Qed.

Lemma TextEncoder_encode_injective (s t : string) :
  TextEncoder_encode s = TextEncoder_encode t -> s = t.
Proof.
  intros Heq. apply (f_equal utf8_decode) in Heq.
  rewrite !utf8_decode_encode in Heq. exact Heq.
Qed.

Lemma string_to_positive_to_string (p : positive) :
  string_to_positive (positive_to_string p) = p.
Proof. induction p as [q IH|q IH|]; cbn; rewrite ?IH; reflexivity. Qed.

Lemma bytes_to_positive_to_bytes (p : positive) :
  bytes_to_positive (positive_to_bytes p) = Some p.
Proof. induction p as [q IH|q IH|]; cbn; rewrite ?IH; reflexivity. Qed.

Lemma flip_byte_bit_invalid (i : nat) (b : byte) :
  b = x00 \/ b = xff ->
  Byte.eqb (flip_byte_bit i b) x00 = false /\ Byte.eqb (flip_byte_bit i b) xff = false.
Proof.
  intros [-> | ->]; do 8 (destruct i as [|i]; [split; reflexivity|]);
    split; reflexivity.
Qed.

Lemma positive_to_bytes_valid (p : positive) :
  Forall (fun b => b = x00 \/ b = xff) (positive_to_bytes p).
Proof. induction p; cbn; constructor; auto. Qed.

(** No single-bit change of a valid numeral is a valid numeral. *)
Lemma bytes_to_positive_flip (bs : list byte) (i : nat) :
  Forall (fun b => b = x00 \/ b = xff) bs ->
  i < 8 * length bs ->
  bytes_to_positive (flip_bit i bs) = None.
Proof.
  intros Hvalid. revert i.
  induction Hvalid as [|b rest Hb _ IH]; intros i Hi; cbn in Hi; [lia|].
  cbn [flip_bit]. destruct (Nat.ltb_spec i 8) as [Hlt|Hge].
  - cbn [bytes_to_positive].
    destruct (flip_byte_bit_invalid i b Hb) as [-> ->]. reflexivity.
  - cbn [bytes_to_positive]. rewrite IH by lia.
    destruct Hb as [-> | ->]; reflexivity.
Qed.

Lemma length_flip_bit (i : nat) (bs : list byte) :
  length (flip_bit i bs) = length bs.
Proof.
  revert i. induction bs as [|b rest IH]; intros i; [reflexivity|].
  cbn [flip_bit]. destruct (i <? 8); cbn; [reflexivity|]. rewrite IH. reflexivity.
Qed.

Lemma flip_ascii_bit_changes (i : nat) (c : ascii) : flip_ascii_bit i c <> c.
Proof.
  destruct c as [b0 b1 b2 b3 b4 b5 b6 b7].
  do 7 (destruct i as [|i]; [cbn; intros [=]; by destruct b0, b1, b2, b3, b4, b5, b6, b7|]).
  cbn. intros [=]. by destruct b7.
Qed.

(** Inverting a bit within range changes the buffer. *)
Lemma flip_bit_changes (i : nat) (bs : list byte) :
  i < 8 * length bs -> flip_bit i bs <> bs.
Proof.
  revert i. induction bs as [|b rest IH]; intros i Hi; cbn in Hi; [lia|].
  cbn [flip_bit]. destruct (Nat.ltb_spec i 8) as [Hlt|Hge].
  - intros [= Heq]. unfold flip_byte_bit in Heq.
    apply (f_equal ascii_of_byte) in Heq. rewrite ascii_of_byte_of_ascii in Heq.
    by apply flip_ascii_bit_changes in Heq.
  - intros [= Heq]. apply (IH (i - 8)); [lia|exact Heq].
Qed.

(** The concrete encoders on known values (RFC 4648, section 10; the
    UTF-8 form of U+00E9; the JSON text of a small record). *)
Example btoa_rfc4648 :
  btoa EmptyString = EmptyString
  /\ btoa "f" = "Zg==" /\ btoa "fo" = "Zm8=" /\ btoa "foo" = "Zm9v"
  /\ btoa "foob" = "Zm9vYg==" /\ btoa "fooba" = "Zm9vYmE="
  /\ btoa "foobar" = "Zm9vYmFy".
Proof. repeat split; reflexivity. Qed.

Example base64_decode_rejects :
  base64_decode "Zm9v!mFy" = None /\ base64_decode "Zm9" = None.
Proof. split; reflexivity. Qed.

Example TextEncoder_encode_latin1 :
  TextEncoder_encode (String "233"%char "a") = [xc3; xa9; x61].
Proof. reflexivity. Qed.

Example bytes_to_hex_pads : bytes_to_hex [x00; x0a; xff] = "000aff".
Proof. reflexivity. Qed.

Example JSON_stringify_object_text :
  JSON_stringify_object
    [("id", JSNumber 7); ("note", JSUndefined); ("tags", JSString "a\b"); ("hash", JSNull)]
  = "{" +:+ json_quote "id" +:+ ":7," +:+ String dquote "tags" +:+ String dquote ":"
    +:+ String dquote "a\\b" +:+ String dquote "," +:+ json_quote "hash" +:+ ":null}".
Proof. reflexivity. Qed.

Example SHA256_abc :
  bytes_to_hex (SHA256 (TextEncoder_encode "abc"))
  = "ba7816bf8f01cfea414140de5dae2223b00361a396177a9cb410ff61f20015ad".
Proof. vm_compute. reflexivity. Qed.

Example SHA256_empty :
  bytes_to_hex (SHA256 [])
  = "e3b0c44298fc1c149afbf4c8996fb92427ae41e4649b934ca495991b7852b855".
Proof. vm_compute. reflexivity. Qed.

Example SHA256_two_blocks :
  bytes_to_hex (SHA256 (TextEncoder_encode
    "abcdbcdecdefdefgefghfghighijhijkijkljklmklmnlmnomnopnopq"))
  = "248d6a61d20638b8e5c026930c3e6039a33ce45964ff2167f6ecedd419db06c1".
Proof. vm_compute. reflexivity. Qed.

Example string_includes_name_not_message :
  string_includes "OperationError" browser_failure_message = false
  /\ string_includes "OperationError" "DOMException: OperationError" = true.
Proof. split; reflexivity. Qed.

(* ================================================================== *)
(** * The sample platform satisfies the laws *)
(* ================================================================== *)

Lemma sample_platform_laws (msg : string) : @PlatformLaws (sample_platform msg).
Proof.
  split.
  - intros d. cbn. rewrite string_to_positive_to_string, decode_encode. reflexivity.
  - exact utf8_decode_encode.
  - intros s. cbn. rewrite base64_decode_btoa. reflexivity.
  - intros k iv m. cbn. unfold sample_decrypt, sample_encrypt.
    rewrite bytes_to_positive_to_bytes. cbn. rewrite decode_encode.
    rewrite decide_True by done. reflexivity.
Qed.

Lemma sample_platform_ideal (msg : string) : @IdealCrypto (sample_platform msg).
Proof.
  split.
  - intros pw pw' salt salt' n [= -> ->]. done.
  - intros k iv m k' iv' m'. cbn. unfold sample_decrypt, sample_encrypt.
    rewrite bytes_to_positive_to_bytes. cbn. rewrite decode_encode.
    case_decide as Hd; [|discriminate]. destruct Hd as [-> ->]. done.
  - intros k iv m k' iv' i Hi. cbn in *. unfold sample_decrypt, sample_encrypt in *.
    rewrite bytes_to_positive_flip; [|apply positive_to_bytes_valid|exact Hi].
    cbn. eauto.
Qed.

(* ================================================================== *)
(** * Lemmas on the backup service *)
(* ================================================================== *)

Lemma string_append_cons (c : ascii) (s t : string) :
  String c s +:+ t = String c (s +:+ t).
Proof. reflexivity. Qed.

Lemma string_append_nil_l (t : string) : EmptyString +:+ t = t.
Proof. reflexivity. Qed.

Lemma string_append_nil_r (s : string) : s +:+ EmptyString = s.
Proof.
  induction s as [|c s IH]; [reflexivity|].
  rewrite string_append_cons, IH. reflexivity.
Qed.

Lemma string_append_assoc (s t u : string) : (s +:+ t) +:+ u = s +:+ (t +:+ u).
Proof.
  induction s as [|c s IH]; [reflexivity|].
  rewrite !string_append_cons, IH. reflexivity.
Qed.

Lemma binary_string_loop (buffer : list byte) (acc : string) :
  fold_left (fun binary b => binary +:+ String (ascii_of_byte b) EmptyString) buffer acc
  = acc +:+ string_of_list_byte buffer.
Proof.
  revert acc. induction buffer as [|b buffer IH]; intros acc.
  - symmetry. apply string_append_nil_r.
  - cbn [fold_left]. rewrite IH, string_append_assoc. reflexivity.
Qed.

Section BackupLemmas.
Context `{Platform}.

Lemma arrayBufferToBase64_btoa (buffer : list byte) :
  arrayBufferToBase64 buffer = btoa (string_of_list_byte buffer).
Proof. unfold arrayBufferToBase64. rewrite binary_string_loop. reflexivity. Qed.

Lemma arrayBufferToBase64_injective (b1 b2 : list byte) :
  arrayBufferToBase64 b1 = arrayBufferToBase64 b2 -> b1 = b2.
Proof.
  rewrite !arrayBufferToBase64_btoa. intros Heq%btoa_injective.
  apply (f_equal list_byte_of_string) in Heq.
  rewrite !list_byte_of_string_of_list_byte in Heq. exact Heq.
Qed.

Lemma password_guard_passes (password : string) :
  6 <= String.length password ->
  String.eqb password EmptyString || (String.length password <? 6) = false.
Proof.
  intros Hlen. destruct password as [|c rest]; [cbn in Hlen; lia|].
  cbn [String.eqb orb]. apply Nat.ltb_ge. exact Hlen.
Qed.

Lemma password_guard_fails (password : string) :
  String.length password < 6 ->
  String.eqb password EmptyString || (String.length password <? 6) = true.
Proof.
  intros Hlen. apply orb_true_iff. right. apply Nat.ltb_lt. exact Hlen.
Qed.

(** With an acceptable password [createBackup] fulfils its promise,
    with the envelope [sealed_backup], having drawn 28 random bytes. *)
Lemma createBackup_succeeds (password : string) (records : list RecordType.t)
    (w : World) :
  6 <= String.length password ->
  createBackup password records w
  = (advance_csprng 28 w, Returns (sealed_backup password records w)).
Proof.
  intros Hlen. unfold createBackup. rewrite password_guard_passes by exact Hlen.
  cbv beta iota zeta delta
    [try_catch_async mbind Async_bind mret Async_ret getSetting
     Date_now_toISOString getRandomValues sealed_backup backup_draws
     advance_csprng stored_settings backup_payload
     idb_records idb_settings idb_write_budget csprng_tape csprng_pos clock_iso].
  rewrite <- Nat.add_assoc. reflexivity.
Qed.

(** Conversely, an envelope is only ever returned for such a password. *)
Lemma createBackup_returns (password : string) (records : list RecordType.t)
    (w w' : World) (envelope : EncryptedBackup.t) :
  createBackup password records w = (w', Returns envelope) ->
  6 <= String.length password
  /\ w' = advance_csprng 28 w
  /\ envelope = sealed_backup password records w.
Proof.
  intros Hrun. destruct (Nat.lt_ge_cases (String.length password) 6) as [Hlt|Hge].
  - unfold createBackup in Hrun. rewrite password_guard_fails in Hrun by exact Hlt.
    discriminate.
  - rewrite createBackup_succeeds in Hrun by exact Hge.
    injection Hrun as <- <-. done.
Qed.

Context `{!PlatformLaws}.

Lemma base64ToArrayBuffer_arrayBufferToBase64 (buffer : list byte) :
  base64ToArrayBuffer (arrayBufferToBase64 buffer) = Returns buffer.
Proof.
  unfold base64ToArrayBuffer. rewrite arrayBufferToBase64_btoa, atob_btoa. cbn.
  rewrite list_byte_of_string_of_list_byte. reflexivity.
Qed.

(** What [restoreBackup] does on an envelope whose three fields are
    the transport encoding of [salt], [iv] and [data]. *)
Lemma restoreBackup_decoded (password version : string) (salt iv data : list byte) :
  password <> EmptyString ->
  restoreBackup password
    (EncryptedBackup.mk version (arrayBufferToBase64 salt)
       (arrayBufferToBase64 iv) (arrayBufferToBase64 data))
  = try_catch
      (decryptedBuffer ← subtle_decrypt (deriveKey password salt) iv data;
       JSON_parse (TextDecoder_decode decryptedBuffer))
      (fun error =>
         if exn_instanceof_Error error
            && string_includes "OperationError" (exn_message error)
         then Throws IncorrectPasswordOrCorrupted
         else Throws RestoreFailed).
Proof.
  intros Hpw. unfold restoreBackup.
  destruct (String.eqb_spec password EmptyString) as [?|_]; [done|].
  cbn [EncryptedBackup.salt EncryptedBackup.iv EncryptedBackup.data].
  rewrite !base64ToArrayBuffer_arrayBufferToBase64. cbn.
  destruct (subtle_decrypt _ _ _) as [plain|e]; cbn; [|reflexivity].
  destruct (JSON_parse _); reflexivity.
Qed.

(** A failed decryption never yields a backup: the promise is
    rejected with one of the two errors of the [catch] clause. *)
Lemma restoreBackup_decrypt_fails (password version : string)
    (salt iv data : list byte) (e : JSException) :
  password <> EmptyString ->
  subtle_decrypt (deriveKey password salt) iv data = Throws e ->
  restoreBackup password
    (EncryptedBackup.mk version (arrayBufferToBase64 salt)
       (arrayBufferToBase64 iv) (arrayBufferToBase64 data))
  = Throws (if exn_instanceof_Error e
               && string_includes "OperationError" (exn_message e)
            then IncorrectPasswordOrCorrupted else RestoreFailed).
Proof.
  intros Hpw Hdec. rewrite restoreBackup_decoded by exact Hpw.
  rewrite Hdec. cbn. destruct (_ && _); reflexivity.
Qed.
End BackupLemmas.

(* ================================================================== *)
(** * The encrypted backup: claims C5, C1, C9, C2 *)
(* ================================================================== *)

(** Claim C5.  For every password of fewer than 6 characters (the empty
    password included) and every record list, [createBackup] rejects with
    the error 'Password must be at least 6 characters'; no envelope is
    produced, and nothing was read, drawn or written. *)
Theorem createBackup_rejects_short_password `{Platform}
    (password : string) (records : list RecordType.t) (w : World) :
  String.length password < 6 ->
  createBackup password records w = (w, Throws PasswordTooWeak).
Proof.
  intros Hlen. unfold createBackup.
  rewrite password_guard_fails by exact Hlen. reflexivity.
Qed.

Lemma createBackup_rejects_short_password_witness :
  String.length "horse" < 6
  /\ @createBackup (sample_platform browser_failure_message) "horse"
       [sample_record "r1" "Incident at pickup"] sample_world
     = (sample_world, Throws PasswordTooWeak).
Proof.
  split; [cbn; lia|].
  apply createBackup_rejects_short_password. cbn. lia.
Defined.

(** Claim C1.  For every password of at least 6 characters and every
    snapshot (the record list handed to [createBackup] and the settings
    held by the store), [createBackup] returns an envelope, and
    [restoreBackup] with the same password returns from that envelope a
    backup whose records and settings equal the snapshot. *)
Theorem backup_restore_roundtrip `{PlatformLaws}
    (password : string) (records : list RecordType.t) (w : World) :
  6 <= String.length password ->
  exists w' envelope restored,
    createBackup password records w = (w', Returns envelope)
    /\ restoreBackup password envelope = Returns restored
    /\ BackupData.records restored = records
    /\ BackupData.settings restored = stored_settings w.
Proof.
  intros Hlen.
  exists (advance_csprng 28 w), (sealed_backup password records w),
         (backup_payload records w).
  split; [apply createBackup_succeeds; exact Hlen|].
  split; [|split; reflexivity].
  assert (password <> EmptyString) as Hpw.
  { intros ->. cbn in Hlen. lia. }
  unfold sealed_backup. destruct (backup_draws w) as [salt iv].
  rewrite restoreBackup_decoded by exact Hpw.
  rewrite subtle_decrypt_encrypt. cbn.
  rewrite TextDecoder_decode_encode, JSON_parse_stringify. reflexivity.
Qed.

Lemma backup_restore_roundtrip_witness :
  let P := sample_platform browser_failure_message in
  let records := [sample_record "r1" "Incident at pickup"] in
  6 <= String.length "correct-horse"
  /\ exists w' envelope restored,
       @createBackup P "correct-horse" records sample_world = (w', Returns envelope)
       /\ @restoreBackup P "correct-horse" envelope = Returns restored
       /\ BackupData.records restored = records
       /\ BackupData.settings restored = stored_settings sample_world.
Proof.
  intros P records. split; [cbn; lia|].
  apply (@backup_restore_roundtrip P (sample_platform_laws _)). cbn. lia.
Defined.

(** Claim C9.  Two successive [createBackup] calls with the same
    password and the same records, the second starting in the world the
    first one left, return envelopes with different [salt], different
    [iv] and different [data], provided the random source delivered a
    different salt and a different nonce to the second call. *)
Theorem successive_backups_differ `{PlatformLaws} `{!IdealCrypto}
    (password : string) (records : list RecordType.t)
    (w w1 w2 : World) (e1 e2 : EncryptedBackup.t) :
  createBackup password records w = (w1, Returns e1) ->
  createBackup password records w1 = (w2, Returns e2) ->
  (backup_draws w).1 <> (backup_draws w1).1 ->
  (backup_draws w).2 <> (backup_draws w1).2 ->
  EncryptedBackup.salt e1 <> EncryptedBackup.salt e2
  /\ EncryptedBackup.iv e1 <> EncryptedBackup.iv e2
  /\ EncryptedBackup.data e1 <> EncryptedBackup.data e2.
Proof.
  intros (_ & -> & ->)%createBackup_returns (_ & -> & ->)%createBackup_returns.
  unfold sealed_backup.
  destruct (backup_draws w) as [salt1 iv1], (backup_draws (advance_csprng 28 w)) as [salt2 iv2].
  cbn. intros Hsalt Hiv. repeat split.
  - intros Heq%arrayBufferToBase64_injective. done.
  - intros Heq%arrayBufferToBase64_injective. done.
  - intros Heq%arrayBufferToBase64_injective.
    pose proof (subtle_decrypt_encrypt (deriveKey password salt2) iv2
      (TextEncoder_encode (JSON_stringify (backup_payload records (advance_csprng 28 w)))))
      as Hopen.
    rewrite <- Heq in Hopen.
    apply subtle_decrypt_authentic in Hopen as [_ Hiv']. congruence.
Qed.

Lemma successive_backups_differ_witness :
  let P := sample_platform browser_failure_message in
  let records := [sample_record "r1" "Incident at pickup"] in
  let w1 := advance_csprng 28 sample_world in
  let e1 := @sealed_backup P "correct-horse" records sample_world in
  let e2 := @sealed_backup P "correct-horse" records w1 in
  ((backup_draws sample_world).1 <> (backup_draws w1).1
   /\ (backup_draws sample_world).2 <> (backup_draws w1).2)
  /\ EncryptedBackup.salt e1 <> EncryptedBackup.salt e2
  /\ EncryptedBackup.iv e1 <> EncryptedBackup.iv e2
  /\ EncryptedBackup.data e1 <> EncryptedBackup.data e2.
Proof.
  intros P records w1 e1 e2.
  assert ((backup_draws sample_world).1 <> (backup_draws w1).1) as Hsalt
    by (vm_compute; discriminate).
  assert ((backup_draws sample_world).2 <> (backup_draws w1).2) as Hiv
    by (vm_compute; discriminate).
  split; [done|].
  pose proof (@createBackup_succeeds P "correct-horse" records sample_world
                ltac:(cbn; lia)) as Hfirst.
  pose proof (@createBackup_succeeds P "correct-horse" records w1
                ltac:(cbn; lia)) as Hsecond.
  exact (@successive_backups_differ P (sample_platform_laws _) (sample_platform_ideal _)
           _ _ _ _ _ _ _ Hfirst Hsecond Hsalt Hiv).
Defined.

(** The guard in front of the [try] block: the empty password, which
    differs from every password that [createBackup] accepts, is turned
    down with 'Password is required' before anything is decoded.  So the
    error of a restoration with a different password is not always
    'Incorrect password or corrupted backup file'. *)
Lemma empty_password_rejected_by_guard :
  let P := sample_platform browser_failure_message in
  let records := [sample_record "r1" "Incident at pickup"] in
  let envelope := @sealed_backup P "correct-horse" records sample_world in
  @createBackup P "correct-horse" records sample_world
    = (advance_csprng 28 sample_world, Returns envelope)
  /\ EmptyString <> "correct-horse"
  /\ @restoreBackup P EmptyString envelope = Throws PasswordRequired
  /\ PasswordRequired <> IncorrectPasswordOrCorrupted
  /\ ~ restore_always_reports_incorrect_password P.
Proof.
  intros P records envelope.
  pose proof (@createBackup_succeeds P "correct-horse" records sample_world
                ltac:(cbn; lia)) as Hcreate.
  split; [exact Hcreate|]. split; [discriminate|].
  split; [reflexivity|]. split; [discriminate|].
  intros Hclaim.
  destruct (Hclaim _ _ _ _ _ Hcreate) as [Hwrong _].
  specialize (Hwrong EmptyString ltac:(discriminate)).
  discriminate Hwrong.
Qed.

Section RestoreRejects.
Context `{PlatformLaws} `{!IdealCrypto}.

(** What a wrong password and a flipped bit come to: the decryption
    fails, and [restoreBackup] maps the failure through its [catch]
    clause. *)
Lemma restoreBackup_wrong_password (password other : string)
    (records : list RecordType.t) (w : World) :
  other <> password -> other <> EmptyString ->
  exists e,
    subtle_decrypt (deriveKey other (backup_draws w).1) (backup_draws w).2
      (subtle_encrypt (deriveKey password (backup_draws w).1) (backup_draws w).2
         (TextEncoder_encode (JSON_stringify (backup_payload records w)))) = Throws e
    /\ restoreBackup other (sealed_backup password records w)
       = Throws (if exn_instanceof_Error e
                    && string_includes "OperationError" (exn_message e)
                 then IncorrectPasswordOrCorrupted else RestoreFailed).
Proof.
  intros Hother Hne. unfold sealed_backup.
  destruct (backup_draws w) as [salt iv]. cbn [fst snd].
  destruct (subtle_decrypt (deriveKey other salt) iv _) as [m|e] eqn:Hdec.
  - exfalso. apply subtle_decrypt_authentic in Hdec as [Hkey _].
    apply subtle_deriveKey_injective in Hkey as [Hpw _].
    apply TextEncoder_encode_injective in Hpw. done.
  - exists e. split; [reflexivity|].
    by rewrite (restoreBackup_decrypt_fails _ _ _ _ _ e Hne Hdec).
Qed.

Lemma restoreBackup_tampered (password other : string)
    (records : list RecordType.t) (w : World) (i : nat) :
  i < data_bits (sealed_backup password records w) -> other <> EmptyString ->
  exists e,
    subtle_decrypt (deriveKey other (backup_draws w).1) (backup_draws w).2
      (flip_bit i
         (subtle_encrypt (deriveKey password (backup_draws w).1) (backup_draws w).2
            (TextEncoder_encode (JSON_stringify (backup_payload records w))))) = Throws e
    /\ restoreBackup other (tamper_data i (sealed_backup password records w))
       = Throws (if exn_instanceof_Error e
                    && string_includes "OperationError" (exn_message e)
                 then IncorrectPasswordOrCorrupted else RestoreFailed).
Proof.
  unfold sealed_backup, tamper_data, data_bits.
  destruct (backup_draws w) as [salt iv].
  cbn [fst snd EncryptedBackup.data EncryptedBackup.salt EncryptedBackup.iv
       EncryptedBackup.version].
  rewrite base64ToArrayBuffer_arrayBufferToBase64. intros Hi Hne.
  destruct (subtle_decrypt_tampered (deriveKey password salt) iv
              (TextEncoder_encode (JSON_stringify (backup_payload records w)))
              (deriveKey other salt) iv i Hi) as [e Hdec].
  exists e. split; [exact Hdec|].
  by rewrite (restoreBackup_decrypt_fails _ _ _ _ _ e Hne Hdec).
Qed.

(** X31.  A wrong password and a flipped bit are always turned down.
    Let an envelope be created with a password.  Restoring it with any
    other password is rejected, and so is restoring, with any password
    at all, the envelope in which one bit of the [data] bytes was
    inverted: no backup is returned.  The error is 'Password is
    required' exactly when the password given is empty, and one of the
    two errors of the [catch] clause otherwise. *)
Theorem restore_rejects_wrong_password_and_tampering
    (password : string) (records : list RecordType.t)
    (w w' : World) (envelope : EncryptedBackup.t) :
  createBackup password records w = (w', Returns envelope) ->
  (forall other, other <> password ->
     restore_rejected other (restoreBackup other envelope))
  /\ (forall i other, i < data_bits envelope ->
        restore_rejected other (restoreBackup other (tamper_data i envelope))).
Proof.
  intros (Hlen & -> & ->)%createBackup_returns. split.
  - intros other Hother.
    destruct (decide (other = EmptyString)) as [->|Hne].
    { exists PasswordRequired. split; [reflexivity|]. split; done. }
    destruct (restoreBackup_wrong_password password other records w Hother Hne)
      as (e & _ & ->).
    eexists. split; [reflexivity|]. split; [done|]. intros _.
    destruct (_ && _); [by left|by right].
  - intros i other Hi.
    destruct (decide (other = EmptyString)) as [->|Hne].
    { exists PasswordRequired. split; [reflexivity|]. split; done. }
    destruct (restoreBackup_tampered password other records w i Hi Hne)
      as (e & _ & ->).
    eexists. split; [reflexivity|]. split; [done|]. intros _.
    destruct (_ && _); [by left|by right].
Qed.

(** Claim C2, the defect.  [restoreBackup] has a branch that reports a
    failed decryption as 'Incorrect password or corrupted backup file',
    which is what the claim says.  The branch is taken when
    [error.message.includes('OperationError')] holds; but OperationError
    is the [name] of the DOMException that a failed decryption raises,
    and its [message] is the browser's own text.  On every platform
    whose failed decryptions carry a message without that word, a wrong
    password that is not empty and a flipped bit are both reported as
    'Failed to restore backup', never as the error of the claim. *)
Theorem restore_misreports_failed_decryption
    (password : string) (records : list RecordType.t)
    (w w' : World) (envelope : EncryptedBackup.t) :
  createBackup password records w = (w', Returns envelope) ->
  (forall key iv data e,
     subtle_decrypt key iv data = Throws e ->
     string_includes "OperationError" (exn_message e) = false) ->
  (forall other, other <> password -> other <> EmptyString ->
     restoreBackup other envelope = Throws RestoreFailed)
  /\ (forall i other, i < data_bits envelope -> other <> EmptyString ->
        restoreBackup other (tamper_data i envelope) = Throws RestoreFailed)
  /\ RestoreFailed <> IncorrectPasswordOrCorrupted.
Proof.
  intros (Hlen & -> & ->)%createBackup_returns Hmessage. split_and!.
  - intros other Hother Hne.
    destruct (restoreBackup_wrong_password password other records w Hother Hne)
      as (e & Hdec & ->).
    by rewrite (Hmessage _ _ _ _ Hdec), andb_false_r.
  - intros i other Hi Hne.
    destruct (restoreBackup_tampered password other records w i Hi Hne)
      as (e & Hdec & ->).
    by rewrite (Hmessage _ _ _ _ Hdec), andb_false_r.
  - discriminate.
Qed.
End RestoreRejects.

Lemma restore_rejects_wrong_password_and_tampering_witness :
  let P := sample_platform browser_failure_message in
  let records := [sample_record "r1" "Incident at pickup"] in
  let envelope := @sealed_backup P "correct-horse" records sample_world in
  @createBackup P "correct-horse" records sample_world
    = (advance_csprng 28 sample_world, Returns envelope)
  /\ (forall other, other <> "correct-horse" ->
        restore_rejected other (@restoreBackup P other envelope))
  /\ (forall i other, i < @data_bits P envelope ->
        restore_rejected other (@restoreBackup P other (@tamper_data P i envelope))).
Proof.
  intros P records envelope.
  pose proof (@createBackup_succeeds P "correct-horse" records sample_world
                ltac:(cbn; lia)) as Hcreate.
  split; [exact Hcreate|].
  exact (@restore_rejects_wrong_password_and_tampering P (sample_platform_laws _)
           (sample_platform_ideal _) _ _ _ _ _ Hcreate).
Defined.

(** The sample platform raises the OperationError of the browser for
    every failed decryption. *)
Lemma sample_decrypt_throws (msg : string) (k : sample_key) (iv data : list byte)
    (e : JSException) :
  sample_decrypt msg k iv data = Throws e -> e = OperationError msg.
Proof.
  unfold sample_decrypt.
  destruct (bytes_to_positive data ≫= decode) as [[[k' iv'] plain]|];
    [case_decide|]; by intros [=].
Qed.

(** The failing input of claim C2: the envelope that 'correct-horse'
    seals, restored with 'wrong-password' where the message of the
    OperationError is that of Firefox and Node.js. *)
Lemma restore_misreports_failed_decryption_witness :
  let P := sample_platform browser_failure_message in
  let records := [sample_record "r1" "Incident at pickup"] in
  let envelope := @sealed_backup P "correct-horse" records sample_world in
  (@createBackup P "correct-horse" records sample_world
     = (advance_csprng 28 sample_world, Returns envelope)
   /\ (forall key iv data e,
         @subtle_decrypt P key iv data = Throws e ->
         string_includes "OperationError" (exn_message e) = false))
  /\ @restoreBackup P "wrong-password" envelope = Throws RestoreFailed
  /\ (forall i, i < @data_bits P envelope ->
        @restoreBackup P "correct-horse" (@tamper_data P i envelope)
        = Throws RestoreFailed)
  /\ RestoreFailed <> IncorrectPasswordOrCorrupted.
Proof.
  intros P records envelope.
  pose proof (@createBackup_succeeds P "correct-horse" records sample_world
                ltac:(cbn; lia)) as Hcreate.
  assert (forall key iv data e,
            @subtle_decrypt P key iv data = Throws e ->
            string_includes "OperationError" (exn_message e) = false) as Hmessage.
  { intros key iv data e Hdec. apply sample_decrypt_throws in Hdec as ->.
    reflexivity. }
  split; [exact (conj Hcreate Hmessage)|].
  destruct (@restore_misreports_failed_decryption P (sample_platform_laws _)
              (sample_platform_ideal _) _ _ _ _ _ Hcreate Hmessage)
    as (Hwrong & Htampered & Hdiffer).
  split; [apply Hwrong; discriminate|].
  split; [intros i Hi; apply Htampered; [exact Hi|discriminate]|].
  exact Hdiffer.
Defined.

(** Which of the two errors of the [catch] clause a wrong password
    gets depends on the [message] of the browser's DOMException, not on
    its [name]: the clause tests [error.message.includes('OperationError')]. *)
Lemma sample_decrypt_other_key (msg : string) (k k' : sample_key)
    (iv m : list byte) :
  k' <> k ->
  sample_decrypt msg k' iv (sample_encrypt k iv m) = Throws (OperationError msg).
Proof.
  intros Hkey. unfold sample_decrypt, sample_encrypt.
  rewrite bytes_to_positive_to_bytes. cbn. rewrite decode_encode.
  rewrite decide_False; [reflexivity|]. intros [Heq _]. congruence.
Qed.

Lemma wrong_password_error_follows_message (msg password other : string)
    (records : list RecordType.t) (w : World) :
  other <> EmptyString ->
  other <> password ->
  @restoreBackup (sample_platform msg) other
    (@sealed_backup (sample_platform msg) password records w)
  = Throws (if string_includes "OperationError" msg
            then IncorrectPasswordOrCorrupted else RestoreFailed).
Proof.
  intros Hne Hother. unfold sealed_backup. destruct (backup_draws w) as [salt iv].
  rewrite (@restoreBackup_decrypt_fails (sample_platform msg) (sample_platform_laws msg)
             _ _ _ _ _ (OperationError msg) Hne).
  - reflexivity.
  - apply sample_decrypt_other_key. intros [= Heq%TextEncoder_encode_injective]. done.
Qed.

(** With the message of Firefox and Node.js, and with the empty
    message of Chromium, a wrong password is reported as 'Failed to
    restore backup'; it would be reported as 'Incorrect password or
    corrupted backup file' by a browser that repeated the name of the
    exception in its message. *)
Example wrong_password_in_browsers :
  let records := [sample_record "r1" "Incident at pickup"] in
  let sealed msg := @sealed_backup (sample_platform msg) "correct-horse" records sample_world in
  @restoreBackup (sample_platform browser_failure_message) "wrong-password"
    (sealed browser_failure_message) = Throws RestoreFailed
  /\ @restoreBackup (sample_platform EmptyString) "wrong-password"
       (sealed EmptyString) = Throws RestoreFailed
  /\ @restoreBackup (sample_platform "OperationError") "wrong-password"
       (sealed "OperationError") = Throws IncorrectPasswordOrCorrupted.
Proof.
  intros records sealed. unfold sealed.
  rewrite !wrong_password_error_follows_message by discriminate. done.
Qed.

(* ================================================================== *)
(** * The record store: claims C8 and C10 *)
(* ================================================================== *)

Lemma budget_pred_None : budget_pred None = None.
Proof. reflexivity. Qed.

(** A run of [add] requests that completes has inserted every record
    under a key that was free. *)
Lemma run_adds_completed (records : list RecordType.t) (budget budget' : option nat)
    (staged final : gmap string RecordType.t) :
  run_requests (map store_add records) budget staged = (budget', Returns final) ->
  map_to_list final ≡ₚ keyed records ++ map_to_list staged.
Proof.
  revert budget staged.
  induction records as [|r records IH]; intros budget staged Hrun; cbn in Hrun.
  - injection Hrun as _ <-. reflexivity.
  - destruct (budget_spent budget); [discriminate|].
    destruct (staged !! RecordType.id r) as [?|] eqn:Hfree; [discriminate|].
    apply IH in Hrun. rewrite Hrun, map_to_list_insert by exact Hfree.
    cbn. rewrite <- Permutation_middle. reflexivity.
Qed.

(** With an unfailing back end, [add] requests for records with
    pairwise distinct, free keys all succeed. *)
Lemma run_adds_succeed (records : list RecordType.t)
    (staged : gmap string RecordType.t) :
  NoDup (RecordType.id <$> records) ->
  (forall r, r ∈ records -> staged !! RecordType.id r = None) ->
  exists final, run_requests (map store_add records) None staged = (None, Returns final).
Proof.
  revert staged. induction records as [|r records IH]; intros staged Hnodup Hfree; cbn.
  - eauto.
  - rewrite Hfree by left. apply NoDup_cons in Hnodup as [Hr Hnodup].
    apply IH; [exact Hnodup|]. intros r' Hr'.
    rewrite lookup_insert_ne; [apply Hfree; by right|].
    intros Heq. apply Hr. rewrite Heq. apply list_elem_of_fmap. eauto.
Qed.

Lemma saveRecords_unfold (records : list RecordType.t) (w : World) :
  saveRecords records w
  = if budget_spent (idb_write_budget w)
    then (w, Throws BackendError)
    else match run_requests (map store_add records)
                 (budget_pred (idb_write_budget w)) ∅ with
         | (budget', Returns staged) =>
             (mkWorld staged (idb_settings w) budget'
                (csprng_tape w) (csprng_pos w) (clock_iso w), Returns tt)
         | (budget', Throws e) =>
             (mkWorld (idb_records w) (idb_settings w) budget'
                (csprng_tape w) (csprng_pos w) (clock_iso w), Throws e)
         end.
Proof.
  unfold saveRecords, records_transaction. cbn [map run_requests exec_request].
  destruct (budget_spent (idb_write_budget w)) eqn:Hspent; [|reflexivity].
  destruct w as [? ? [[|?]|] ? ? ?]; try discriminate. reflexivity.
Qed.

(** The outcome of [saveRecords], case by case. *)
Lemma saveRecords_cases (records : list RecordType.t) (w : World) :
  (exists w' e, saveRecords records w = (w', Throws e)
                /\ idb_records w' = idb_records w
                /\ idb_settings w' = idb_settings w)
  \/ (exists w', saveRecords records w = (w', Returns tt)
                 /\ map_to_list (idb_records w') ≡ₚ keyed records
                 /\ idb_settings w' = idb_settings w
                 /\ (idb_write_budget w = None -> idb_write_budget w' = None)).
Proof.
  rewrite saveRecords_unfold.
  destruct (budget_spent (idb_write_budget w)) eqn:Hspent.
  { left. eauto. }
  destruct (run_requests _ _ _) as [budget' [final|e]] eqn:Hrun.
  - right. eexists. split; [reflexivity|]. cbn.
    split; [|split; [reflexivity|]].
    + apply run_adds_completed in Hrun. rewrite Hrun, map_to_list_empty.
      by rewrite app_nil_r.
    + intros Hnone. rewrite Hnone in Hrun. cbn in Hrun.
      clear -Hrun. revert Hrun. generalize (∅ : gmap string RecordType.t).
      induction records as [|r records IH]; intros staged Hrun; cbn in Hrun.
      * by injection Hrun as <- _.
      * destruct (staged !! RecordType.id r); [discriminate|]. eapply IH, Hrun.
  - left. do 2 eexists. split; [reflexivity|]. done.
Qed.

(** Claim C8.  [saveRecords] is all-or-nothing, wherever the write
    fails: if its promise is rejected, a following [getRecords] returns
    what it would have returned before the call (the complete old set);
    if its promise is fulfilled, a following [getRecords] returns a
    permutation of the records handed in (the complete new set).  The
    settings store is untouched either way. *)
Theorem saveRecords_all_or_nothing (records : list RecordType.t) (w : World) :
  let w' := (saveRecords records w).1 in
  idb_settings w' = idb_settings w
  /\ match (saveRecords records w).2 with
     | Throws _ => (getRecords w').2 = (getRecords w).2
     | Returns _ =>
         exists stored, (getRecords w').2 = Returns stored /\ stored ≡ₚ records
     end.
Proof.
  destruct (saveRecords_cases records w)
    as [(w' & e & -> & Hrec & Hset)|(w' & -> & Hrec & Hset & _)]; cbn.
  - split; [exact Hset|]. unfold getRecords. cbn. rewrite Hrec. reflexivity.
  - split; [exact Hset|]. eexists. split; [reflexivity|].
    rewrite Hrec. unfold keyed. rewrite <- list_fmap_compose.
    cbn. by rewrite list_fmap_id.
Qed.

Lemma saveRecords_succeeds (records : list RecordType.t) (w : World) :
  idb_write_budget w = None ->
  NoDup (RecordType.id <$> records) ->
  exists w', saveRecords records w = (w', Returns tt).
Proof.
  intros Hbudget Hnodup. rewrite saveRecords_unfold, Hbudget. cbn.
  destruct (run_adds_succeed records ∅ Hnodup) as [final ->]; [|eauto].
  intros r _. apply lookup_empty.
Qed.

(** A write of records that share an id is refused. *)
Lemma saveRecords_duplicate_ids (records : list RecordType.t) (w : World) :
  ~ NoDup (RecordType.id <$> records) ->
  exists w' e, saveRecords records w = (w', Throws e)
               /\ idb_records w' = idb_records w
               /\ idb_settings w' = idb_settings w.
Proof.
  intros Hdup.
  destruct (saveRecords_cases records w)
    as [(w' & e & Hsave & Hrec & Hset)|(w' & Hsave & Hrec & _)]; [by eauto 6|].
  exfalso. apply Hdup.
  assert (RecordType.id <$> records = (keyed records).*1) as ->.
  { unfold keyed. rewrite <- list_fmap_compose. reflexivity. }
  rewrite <- Hrec. apply NoDup_fst_map_to_list.
Qed.

Section StoreLemmas.

Lemma applyBackup_unfold (backupData : BackupData.t) :
  applyBackup backupData
  = try_catch_async
      (saveRecords (BackupData.records backupData);;
       restoreSettings (backup_entries backupData))
      (fun error => throw ApplyFailed).
Proof. reflexivity. Qed.

Lemma restoreSetting_cases (key : string) (value : JSValue) (w : World) :
  (js_truthy value = false /\ restoreSetting key value w = (w, Returns tt))
  \/ (js_truthy value = true /\ restoreSetting key value w = (w, Throws BackendError))
  \/ (js_truthy value = true
      /\ restoreSetting key value w
         = (mkWorld (idb_records w) (<[key := value]> (idb_settings w))
              (budget_pred (idb_write_budget w))
              (csprng_tape w) (csprng_pos w) (clock_iso w), Returns tt)).
Proof.
  unfold restoreSetting, saveSetting.
  destruct (js_truthy value); [|by left].
  right. destruct (budget_spent _); [left|right]; done.
Qed.

(** Whatever the outcome, [restoreSettings] leaves the records alone
    and changes a setting only by writing a truthy entry to it. *)
Lemma restoreSettings_frame (entries : list (string * JSValue)) (w : World) :
  idb_records (restoreSettings entries w).1 = idb_records w
  /\ forall key,
       idb_settings (restoreSettings entries w).1 !! key = idb_settings w !! key
       \/ exists value, (key, value) ∈ entries /\ js_truthy value = true
                        /\ idb_settings (restoreSettings entries w).1 !! key = Some value.
Proof.
  revert w. induction entries as [|[k v] entries IH]; intros w.
  { split; [reflexivity|]. intros key. by left. }
  cbn [restoreSettings]. unfold mbind, Async_bind.
  destruct (restoreSetting_cases k v w) as [[Hv ->]|[[Hv ->]|[Hv ->]]].
  - destruct (IH w) as [Hrec Hset]. split; [exact Hrec|].
    intros key. destruct (Hset key) as [?|(value & ? & ? & ?)]; [by left|].
    right. exists value. split; [by right|]. done.
  - split; [reflexivity|]. intros key. by left.
  - match goal with |- context [restoreSettings entries ?w1] => destruct (IH w1) as [Hrec Hset] end.
    split; [exact Hrec|].
    intros key. destruct (Hset key) as [Hsame|(value & ? & ? & ?)].
    + cbn in Hsame. destruct (decide (k = key)) as [->|Hne].
      * right. exists v. rewrite lookup_insert_eq in Hsame. split; [by left|]. done.
      * left. rewrite lookup_insert_ne in Hsame by exact Hne. exact Hsame.
    + right. exists value. split; [by right|]. done.
Qed.

(** When [restoreSettings] returns, exactly the truthy entries were
    written. *)
Lemma restoreSettings_returns (entries : list (string * JSValue)) (w w' : World) :
  restoreSettings entries w = (w', Returns tt) ->
  idb_settings w' = write_truthy entries (idb_settings w).
Proof.
  revert w. induction entries as [|[k v] entries IH]; intros w Hrun.
  { injection Hrun as <-. reflexivity. }
  cbn [restoreSettings] in Hrun. unfold mbind, Async_bind in Hrun.
  unfold write_truthy. cbn [fold_left fst snd].
  destruct (restoreSetting_cases k v w) as [[Hv Hstep]|[[Hv Hstep]|[Hv Hstep]]];
    rewrite Hstep in Hrun; rewrite Hv.
  - apply IH, Hrun.
  - discriminate.
  - apply IH in Hrun. exact Hrun.
Qed.

Lemma restoreSettings_succeed (entries : list (string * JSValue)) (w : World) :
  idb_write_budget w = None ->
  exists w', restoreSettings entries w = (w', Returns tt).
Proof.
  revert w. induction entries as [|[k v] entries IH]; intros w Hbudget.
  { eexists. reflexivity. }
  cbn [restoreSettings]. unfold mbind, Async_bind.
  destruct (restoreSetting_cases k v w) as [[Hv ->]|[[Hv Hstep]|[Hv ->]]].
  - apply IH, Hbudget.
  - unfold restoreSetting, saveSetting in Hstep.
    rewrite Hv, Hbudget in Hstep. discriminate.
  - apply IH. cbn. rewrite Hbudget. reflexivity.
Qed.

Lemma lookup_write_truthy (entries : list (string * JSValue))
    (settings : gmap string JSValue) (key : string) :
  key ∉ entries.*1 -> write_truthy entries settings !! key = settings !! key.
Proof.
  revert settings. induction entries as [|[k v] entries IH]; intros settings Hkey.
  { reflexivity. }
  unfold write_truthy. cbn [fold_left fst snd].
  apply not_elem_of_cons in Hkey as [Hne Hkey]. cbn in Hne.
  fold (write_truthy entries (if js_truthy v then <[k:=v]> settings else settings)).
  rewrite IH by exact Hkey.
  destruct (js_truthy v); [|reflexivity]. by rewrite lookup_insert_ne.
Qed.

Lemma lookup_write_truthy_entry (before after : list (string * JSValue))
    (key : string) (value : JSValue) (settings : gmap string JSValue) :
  key ∉ after.*1 ->
  write_truthy (before ++ (key, value) :: after) settings !! key
  = if js_truthy value then Some value
    else write_truthy before settings !! key.
Proof.
  intros Hafter. unfold write_truthy. rewrite fold_left_app. cbn [fold_left fst snd].
  fold (write_truthy before settings).
  match goal with |- fold_left _ after ?m !! _ = _ =>
    fold (write_truthy after m) end.
  rewrite lookup_write_truthy by exact Hafter.
  destruct (js_truthy value); [|reflexivity]. by rewrite lookup_insert_eq.
Qed.

(** The settings store after all entries of a backup were offered. *)
Lemma lookup_write_backup_entries (backupData : BackupData.t)
    (settings : gmap string JSValue) (key : string) :
  write_truthy (backup_entries backupData) settings !! key
  = if js_truthy (backup_setting backupData key)
    then Some (backup_setting backupData key)
    else settings !! key.
Proof.
  unfold backup_setting, backup_entries.
  set (s := BackupData.settings backupData).
  repeat case_decide; subst.
  - match goal with |- write_truthy (?e1 :: ?rest) _ !! _ = _ =>
      change (e1 :: rest) with ([] ++ e1 :: rest) end.
    rewrite lookup_write_truthy_entry by solve_not_listed. reflexivity.
  - match goal with |- write_truthy (?e1 :: ?e2 :: ?rest) _ !! _ = _ =>
      change (e1 :: e2 :: rest) with ([e1] ++ e2 :: rest) end.
    rewrite lookup_write_truthy_entry by solve_not_listed.
    rewrite lookup_write_truthy by solve_not_listed. reflexivity.
  - match goal with |- write_truthy (?e1 :: ?e2 :: ?e3 :: ?rest) _ !! _ = _ =>
      change (e1 :: e2 :: e3 :: rest) with ([e1; e2] ++ e3 :: rest) end.
    rewrite lookup_write_truthy_entry by solve_not_listed.
    rewrite lookup_write_truthy by solve_not_listed. reflexivity.
  - match goal with |- write_truthy (?e1 :: ?e2 :: ?e3 :: ?e4 :: ?rest) _ !! _ = _ =>
      change (e1 :: e2 :: e3 :: e4 :: rest) with ([e1; e2; e3] ++ e4 :: rest) end.
    rewrite lookup_write_truthy_entry by solve_not_listed.
    rewrite lookup_write_truthy by solve_not_listed. reflexivity.
  - match goal with
    |- write_truthy (?e1 :: ?e2 :: ?e3 :: ?e4 :: ?e5 :: ?rest) _ !! _ = _ =>
      change (e1 :: e2 :: e3 :: e4 :: e5 :: rest)
        with ([e1; e2; e3; e4] ++ e5 :: rest) end.
    rewrite lookup_write_truthy_entry by solve_not_listed.
    rewrite lookup_write_truthy by solve_not_listed. reflexivity.
  - cbn [js_truthy]. apply lookup_write_truthy. solve_not_listed.
Qed.

Lemma backup_entries_setting (backupData : BackupData.t) (key : string) (value : JSValue) :
  (key, value) ∈ backup_entries backupData -> value = backup_setting backupData key.
Proof.
  unfold backup_entries. rewrite !elem_of_cons, elem_of_nil.
  intros [[= -> ->]|[[= -> ->]|[[= -> ->]|[[= -> ->]|[[= -> ->]|[]]]]]];
    reflexivity.
Qed.
End StoreLemmas.

(** Claim C10, counterexample.  A backup whose two records carry the
    same id is applied to a store that holds one older record.  The
    second [add] of the write is refused, the transaction is rolled
    back, [applyBackup] rejects, and the store still holds the older
    record and none of the backup's: the record set was not replaced. *)
Lemma applyBackup_duplicate_ids_counterexample :
  let run := applyBackup sample_duplicate_backup sample_old_world in
  run.2 = Throws ApplyFailed
  /\ (getRecords run.1).2 = Returns [sample_record "r0" "Older entry"]
  /\ ~ ((map_to_list (idb_records run.1)).*2
        ≡ₚ BackupData.records sample_duplicate_backup)
  /\ ~ applyBackup_always_replaces_records.
Proof.
  intros run.
  assert ((getRecords run.1).2 = Returns [sample_record "r0" "Older entry"]) as Hkept
    by (by vm_compute).
  assert (~ ((map_to_list (idb_records run.1)).*2
             ≡ₚ BackupData.records sample_duplicate_backup)) as Hnot.
  { assert ((map_to_list (idb_records run.1)).*2 = [sample_record "r0" "Older entry"])
      as Hlist by (by vm_compute).
    rewrite Hlist. intros Hperm%Permutation_length. discriminate Hperm. }
  split; [by vm_compute|]. split; [exact Hkept|]. split; [exact Hnot|].
  intros Hclaim. exact (Hnot (Hclaim sample_duplicate_backup sample_old_world)).
Qed.

(** Claim C10, as amended.  When a restored backup is applied to
    storage,

    - a settings key whose value in the backup is not truthy (absent,
      [null], the empty string), and any key that a backup does not
      carry, keeps its stored value, whatever the outcome of the call;
    - if the call succeeds, the 'records' store holds exactly the
      backup's records, and each settings key holds the backup's value
      if that value is truthy and its previous value otherwise;
    - the call succeeds whenever the back end does not fail and the
      backup's records have pairwise distinct ids;
    - the record set is replaced exactly when the write of the records
      succeeds: if it does, the store holds the backup's records also
      when a later write of a setting fails; if it is refused, which it
      is when two records of the backup share an id, the records and
      every setting are as before and the call rejects with 'Failed to
      apply backup data'. *)
Theorem applyBackup_effect (backupData : BackupData.t) (w : World) :
  let w' := (applyBackup backupData w).1 in
  (forall key, js_truthy (backup_setting backupData key) = false ->
     idb_settings w' !! key = idb_settings w !! key)
  /\ ((applyBackup backupData w).2 = Returns tt ->
        (map_to_list (idb_records w')).*2 ≡ₚ BackupData.records backupData
        /\ forall key,
             idb_settings w' !! key
             = if js_truthy (backup_setting backupData key)
               then Some (backup_setting backupData key)
               else idb_settings w !! key)
  /\ (idb_write_budget w = None ->
      NoDup (RecordType.id <$> BackupData.records backupData) ->
      (applyBackup backupData w).2 = Returns tt)
  /\ ((saveRecords (BackupData.records backupData) w).2 = Returns tt ->
      (map_to_list (idb_records w')).*2 ≡ₚ BackupData.records backupData)
  /\ ((saveRecords (BackupData.records backupData) w).2 <> Returns tt ->
      idb_records w' = idb_records w
      /\ idb_settings w' = idb_settings w
      /\ (applyBackup backupData w).2 = Throws ApplyFailed)
  /\ (~ NoDup (RecordType.id <$> BackupData.records backupData) ->
      (saveRecords (BackupData.records backupData) w).2 <> Returns tt).
Proof.
  assert (~ NoDup (RecordType.id <$> BackupData.records backupData) ->
          (saveRecords (BackupData.records backupData) w).2 <> Returns tt) as Hrefused.
  { intros Hdup. destruct (saveRecords_duplicate_ids _ w Hdup) as (w1 & e & -> & _).
    discriminate. }
  rewrite applyBackup_unfold. unfold try_catch_async, mbind, Async_bind.
  destruct (saveRecords_cases (BackupData.records backupData) w)
    as [(w1 & e & Hsave & Hrec & Hset)|(w1 & Hsave & Hrec & Hset & Hbudget)];
    rewrite Hsave in *.
  { cbn. split; [intros; by rewrite Hset|]. split; [discriminate|].
    split.
    { intros Hnone Hnodup.
      destruct (saveRecords_succeeds _ w Hnone Hnodup) as [w2 Hok]. congruence. }
    split; [discriminate|]. split; [done|]. exact Hrefused. }
  destruct (restoreSettings_frame (backup_entries backupData) w1) as [Hrec2 Hframe].
  assert (forall key w2, w2 = (restoreSettings (backup_entries backupData) w1).1 ->
            js_truthy (backup_setting backupData key) = false ->
            idb_settings w2 !! key = idb_settings w !! key) as Hfalsy.
  { intros key w2 -> Hkey. rewrite <- Hset.
    destruct (Hframe key) as [Hsame|(value & Hin & Hvalue & _)]; [exact Hsame|].
    apply backup_entries_setting in Hin. congruence. }
  assert (forall w2, w2 = (restoreSettings (backup_entries backupData) w1).1 ->
            (map_to_list (idb_records w2)).*2 ≡ₚ BackupData.records backupData)
    as Hreplaced.
  { intros w2 ->. rewrite Hrec2, Hrec. unfold keyed. rewrite <- list_fmap_compose.
    cbn. by rewrite list_fmap_id. }
  destruct (restoreSettings (backup_entries backupData) w1) as [w2 [[]|e]] eqn:Hrun;
    cbn [fst snd] in *.
  - split; [intros key; by apply Hfalsy|]. split; [|split; [done|]].
    + intros _. split; [by apply Hreplaced|].
      intros key. rewrite (restoreSettings_returns _ _ _ Hrun).
      rewrite lookup_write_backup_entries, Hset. reflexivity.
    + split; [intros _; by apply Hreplaced|]. split; [done|]. exact Hrefused.
  - split; [intros key; by apply Hfalsy|]. split; [discriminate|].
    split.
    { intros Hnone _.
      destruct (restoreSettings_succeed (backup_entries backupData) w1 (Hbudget Hnone))
        as [w3 Hok].
      congruence. }
    split; [intros _; by apply Hreplaced|]. split; [done|]. exact Hrefused.
Qed.

Lemma applyBackup_effect_witness :
  let w' := (applyBackup sample_backup sample_old_world).1 in
  (idb_write_budget sample_old_world = None
   /\ NoDup (RecordType.id <$> BackupData.records sample_backup))
  /\ (applyBackup sample_backup sample_old_world).2 = Returns tt
  /\ (map_to_list (idb_records w')).*2 ≡ₚ BackupData.records sample_backup
  /\ idb_settings w' !! "recordKeeper_pin" = Some (JSString "1234")
  /\ idb_settings w' !! "recordKeeper_userName" = Some (JSString "Ada")
  /\ idb_settings w' !! "recordKeeper_decoyPin" = None.
Proof.
  intros w'.
  assert (idb_write_budget sample_old_world = None) as Hbudget by reflexivity.
  assert (NoDup (RecordType.id <$> BackupData.records sample_backup)) as Hnodup.
  { cbn. apply NoDup_cons. split; [solve_not_listed|]. apply NoDup_singleton. }
  split; [done|].
  destruct (applyBackup_effect sample_backup sample_old_world)
    as (Hfalsy & Hdone & Hsucceeds & _).
  specialize (Hsucceeds Hbudget Hnodup). specialize (Hdone Hsucceeds) as [Hrecords Hsettings].
  split; [exact Hsucceeds|]. split; [exact Hrecords|].
  split; [exact (Hsettings "recordKeeper_pin")|].
  split; [exact (Hfalsy "recordKeeper_userName" eq_refl)|].
  exact (Hfalsy "recordKeeper_decoyPin" eq_refl).
Defined.

(** [saveRecords] does fail in the middle of a write, and then the old
    record is what a reader finds: the back end gives out after the
    [clear] and one [add]. *)
Example saveRecords_fails_midway :
  let w := mkWorld (idb_records sample_old_world) (idb_settings sample_old_world)
             (Some 2) (csprng_tape sample_world) 0 (clock_iso sample_world) in
  let result := saveRecords (BackupData.records sample_backup) w in
  result.2 = Throws BackendError
  /\ (getRecords result.1).2 = Returns [sample_record "r0" "Older entry"].
Proof. vm_compute. done. Qed.

(** Two records with one id: the second [add] fails with
    ConstraintError and the old record is what a reader finds. *)
Example saveRecords_fails_on_duplicate_id :
  let result := saveRecords [sample_record "r1" "first"; sample_record "r1" "second"]
                  sample_old_world in
  result.2 = Throws ConstraintError
  /\ (getRecords result.1).2 = Returns [sample_record "r0" "Older entry"].
Proof. vm_compute. done. Qed.

(* ================================================================== *)
(** * The sync merge: claims C6 and C7 *)
(* ================================================================== *)

Lemma merge_loop (localIds : gset string) (cloudRecords merged : list RecordType.t) :
  fold_left
    (fun mergedRecords cloudRecord =>
       if decide (RecordType.id cloudRecord ∈ localIds)
       then mergedRecords
       else mergedRecords ++ [cloudRecord])
    cloudRecords merged
  = merged ++ filter (fun r => RecordType.id r ∉ localIds) cloudRecords.
Proof.
  revert merged. induction cloudRecords as [|r cloudRecords IH]; intros merged;
    cbn [fold_left].
  - by rewrite filter_nil, app_nil_r.
  - rewrite IH, filter_cons. destruct (decide (RecordType.id r ∈ localIds)) as [Hin|Hout].
    + rewrite decide_False by (intros Hnot; by apply Hnot). reflexivity.
    + rewrite decide_True by exact Hout. by rewrite <- app_assoc.
Qed.

(** The loop of [sync] in closed form: the local records, followed by
    the cloud records whose id is not a local id, in cloud order. *)
Lemma mergeRecords_closed_form (localRecords cloudRecords : list RecordType.t) :
  mergeRecords localRecords cloudRecords
  = localRecords
    ++ filter (fun r => RecordType.id r ∉ RecordType.id <$> localRecords) cloudRecords.
Proof.
  unfold mergeRecords. rewrite merge_loop. f_equal.
  apply list_filter_iff. intros r. by rewrite elem_of_list_to_set.
Qed.

Lemma filter_none {A} (P : A -> Prop) `{forall x, Decision (P x)} (l : list A) :
  (forall x, x ∈ l -> ~ P x) -> filter P l = [].
Proof.
  induction l as [|x l IH]; intros Hnone; [reflexivity|].
  rewrite filter_cons, decide_False by (apply Hnone; left).
  apply IH. intros y Hy. apply Hnone. by right.
Qed.

(** Claim C6.  Merging a snapshot with itself changes nothing: when the
    cloud holds the very records that are held locally, the merge loop
    returns the local list, and so does [sync] as the list to store and
    upload (also when that list is empty and the merge is skipped). *)
Theorem merge_idempotent (records : list RecordType.t)
    (version lastSynced : string) (settings : SyncSettings.t) :
  mergeRecords records records = records
  /\ recordsToUpload records
       (Some (SyncData.mk version lastSynced records settings)) = records.
Proof.
  assert (mergeRecords records records = records) as Hmerge.
  { rewrite mergeRecords_closed_form, filter_none; [apply app_nil_r|].
    intros r Hr Hnot. apply Hnot. apply list_elem_of_fmap. eauto. }
  split; [exact Hmerge|].
  unfold recordsToUpload. cbn [SyncData.records].
  destruct (0 <? length records); [exact Hmerge|reflexivity].
Qed.

(** Claim C7.  Let the local list hold a record X and the cloud list a
    different record Y with the id of X.  Then the merged list keeps X;
    its records with that id are exactly the local records with that id,
    so Y was not taken from the cloud (Y occurs in the result only if it
    was local already); and every cloud record whose id is no local id
    is in the merged list. *)
Theorem merge_local_wins (localRecords : list RecordType.t)
    (cloudData : SyncData.t) (X Y : RecordType.t) :
  X ∈ localRecords ->
  Y ∈ SyncData.records cloudData ->
  RecordType.id X = RecordType.id Y ->
  X <> Y ->
  let merged := recordsToUpload localRecords (Some cloudData) in
  X ∈ merged
  /\ filter (fun r => RecordType.id r = RecordType.id X) merged
     = filter (fun r => RecordType.id r = RecordType.id X) localRecords
  /\ (Y ∈ merged -> Y ∈ localRecords)
  /\ (forall r, r ∈ SyncData.records cloudData ->
        RecordType.id r ∉ RecordType.id <$> localRecords -> r ∈ merged).
Proof.
  intros HX HY Hid Hne merged.
  assert (merged = localRecords
            ++ filter (fun r => RecordType.id r ∉ RecordType.id <$> localRecords)
                 (SyncData.records cloudData)) as ->.
  { unfold merged, recordsToUpload.
    destruct (SyncData.records cloudData) as [|r rest] eqn:Hcloud.
    - by apply elem_of_nil in HY.
    - cbn [length Nat.ltb Nat.leb]. apply mergeRecords_closed_form. }
  assert (RecordType.id X ∈ RecordType.id <$> localRecords) as HidX.
  { apply list_elem_of_fmap. eauto. }
  repeat split.
  - apply elem_of_app. by left.
  - rewrite filter_app. rewrite (filter_none _ (filter _ _)); [apply app_nil_r|].
    intros r [Hr _]%list_elem_of_filter Hr'. apply Hr. by rewrite Hr'.
  - intros [Hlocal|[Hcloud _]%list_elem_of_filter]%elem_of_app; [exact Hlocal|].
    exfalso. apply Hcloud. by rewrite <- Hid.
  - intros r Hr Hfresh. apply elem_of_app. right.
    apply list_elem_of_filter. done.
Qed.

Lemma merge_local_wins_witness :
  let X := sample_record "A" "content X" in
  let Y := sample_record "A" "content Y" in
  let Z := sample_record "B" "cloud only" in
  let cloudData :=
    SyncData.mk "1.0" "2025-01-02T00:00:00.000Z" [Y; Z]
      (SyncSettings.mk JSUndefined JSUndefined JSUndefined JSUndefined) in
  (X ∈ [X] /\ Y ∈ SyncData.records cloudData
   /\ RecordType.id X = RecordType.id Y /\ X <> Y)
  /\ recordsToUpload [X] (Some cloudData) = [X; Z]
  /\ X ∈ recordsToUpload [X] (Some cloudData)
  /\ (Y ∈ recordsToUpload [X] (Some cloudData) -> Y ∈ [X]).
Proof.
  intros X Y Z cloudData.
  assert (X ∈ [X]) as HX by (by left).
  assert (Y ∈ SyncData.records cloudData) as HY by (by left).
  assert (RecordType.id X = RecordType.id Y) as Hid by reflexivity.
  assert (X <> Y) as Hne by discriminate.
  split; [done|]. split; [by vm_compute|].
  destruct (merge_local_wins [X] cloudData X Y HX HY Hid Hne) as (Hkeep & _ & Hdrop & _).
  done.
Defined.

(** [sync] stores and uploads exactly [recordsToUpload]: when the
    download succeeds and the cloud holds records, the merged list is
    written with [saveRecords] and then handed to [uploadToCloud]. *)
Lemma sync_stores_and_uploads_merge
    (downloadFromCloud : Async (option SyncData.t * option string))
    (uploadToCloud : list RecordType.t -> Async (bool * option string))
    (localRecords : list RecordType.t) (cloudData : SyncData.t) (w w1 w2 : World) :
  downloadFromCloud w = (w1, Returns (Some cloudData, None)) ->
  SyncData.records cloudData <> [] ->
  let merged := mergeRecords localRecords (SyncData.records cloudData) in
  saveRecords merged w1 = (w2, Returns tt) ->
  sync downloadFromCloud uploadToCloud localRecords w
  = match uploadToCloud merged w2 with
    | (w3, Returns (true, _)) => (w3, Returns (true, None))
    | (w3, Returns (false, uploadError)) => (w3, Returns (false, uploadError))
    | (w3, Throws _) => (w3, Returns (false, Some "Sync failed"))
    end.
Proof.
  intros Hdownload Hcloud merged Hsave.
  assert (recordsToUpload localRecords (Some cloudData) = merged) as Hmerged.
  { unfold recordsToUpload. destruct (SyncData.records cloudData); done. }
  assert (cloud_has_data (Some cloudData) = true) as Hhas.
  { unfold cloud_has_data. destruct (SyncData.records cloudData); done. }
  unfold sync, try_catch_async, mbind, Async_bind.
  rewrite Hdownload. cbn [error_present]. rewrite Hhas, Hmerged, Hsave.
  destruct (uploadToCloud merged w2) as [w3 [[[] ?]|?]]; reflexivity.
Qed.

(* ================================================================== *)
(** * The integrity hash: claims C3 and C4 *)
(* ================================================================== *)

Lemma hex_pair_to_byte_to_hex (b : byte) :
  exists hi lo, byte_to_hex b = String hi (String lo EmptyString)
                /\ hex_pair_to_byte hi lo = Some b.
Proof. do 2 eexists. split; [reflexivity|]. destruct b; reflexivity. Qed.

Lemma bytes_to_hex_injective (bs1 bs2 : list byte) :
  bytes_to_hex bs1 = bytes_to_hex bs2 -> bs1 = bs2.
Proof.
  revert bs2. induction bs1 as [|b1 bs1 IH]; intros [|b2 bs2]; cbn [bytes_to_hex fold_right].
  - done.
  - destruct (hex_pair_to_byte_to_hex b2) as (? & ? & -> & _). discriminate.
  - destruct (hex_pair_to_byte_to_hex b1) as (? & ? & -> & _). discriminate.
  - destruct (hex_pair_to_byte_to_hex b1) as (h1 & l1 & -> & Hb1).
    destruct (hex_pair_to_byte_to_hex b2) as (h2 & l2 & -> & Hb2).
    rewrite !string_append_cons, !string_append_nil_l.
    intros [= -> -> Htail]. f_equal; [congruence|]. apply IH, Htail.
Qed.

(** With Web Crypto, two records have the same hash only if the digest
    of their JSON texts is the same. *)
Lemma generateHash_subtle_eq (digest : list byte -> list byte) (r1 r2 : JSObject) :
  generateHash (Some digest) r1 = generateHash (Some digest) r2 ->
  digest (TextEncoder_encode (JSON_stringify_object r1))
  = digest (TextEncoder_encode (JSON_stringify_object r2)).
Proof. apply bytes_to_hex_injective. Qed.

Lemma js_has_false (key : string) (object : JSObject) :
  js_has key object = false -> key ∉ object.*1.
Proof. unfold js_has. intros Hhas Hin. by rewrite bool_decide_eq_true_2 in Hhas. Qed.

Lemma js_rest_without_absent (key : string) (object : JSObject) :
  key ∉ object.*1 -> js_rest_without key object = object.
Proof.
  unfold js_rest_without. induction object as [|[k v] object IH]; intros Hkey; [done|].
  apply not_elem_of_cons in Hkey as [Hne Hkey]. cbn in Hne.
  rewrite filter_cons, decide_True by (cbn; congruence). by rewrite IH.
Qed.

Lemma js_get_absent (key : string) (object : JSObject) :
  key ∉ object.*1 -> js_get key object = JSUndefined.
Proof.
  unfold js_get. intros Hkey.
  destruct (list_find _ object) as [[i [k v]]|] eqn:Hfind; [|reflexivity].
  apply list_find_Some in Hfind as (Hi & Hk & _). cbn in Hk. subst k.
  exfalso. apply Hkey. apply list_elem_of_fmap. exists (key, v). split; [done|].
  by eapply list_elem_of_lookup_2.
Qed.

Lemma js_get_app_absent (key : string) (object extra : JSObject) :
  key ∉ object.*1 -> js_get key (object ++ extra) = js_get key extra.
Proof.
  unfold js_get. induction object as [|[k v] object IH]; intros Hkey; [done|].
  apply not_elem_of_cons in Hkey as [Hne Hkey]. cbn in Hne.
  cbn [app list_find]. rewrite decide_False by (cbn; congruence).
  specialize (IH Hkey). destruct (list_find _ (object ++ extra)) as [[? [? ?]]|],
    (list_find _ extra) as [[? [? ?]]|]; cbn; congruence.
Qed.

(** [{ ...content, key: value }] when [content] has no such key, and
    what reading and removing that key gives back. *)
Lemma js_spread_set_fresh (key : string) (value : JSValue) (content : JSObject) :
  js_has key content = false ->
  js_spread_set content key value = content ++ [(key, value)]
  /\ js_get key (js_spread_set content key value) = value
  /\ js_rest_without key (js_spread_set content key value) = content.
Proof.
  intros Hhas. unfold js_spread_set. rewrite Hhas.
  apply js_has_false in Hhas. split; [reflexivity|]. split.
  - rewrite js_get_app_absent by exact Hhas. unfold js_get. cbn.
    by rewrite decide_True.
  - unfold js_rest_without. rewrite filter_app.
    fold (js_rest_without key content). rewrite js_rest_without_absent by exact Hhas.
    rewrite filter_cons, decide_False by (cbn; intros Hne; by apply Hne).
    by rewrite filter_nil, app_nil_r.
Qed.

(** What [saveRecord] appends to the stored records: the record it was
    given, then the hash of exactly that record, then the new id. *)
Lemma saveRecord_appends (subtle : option (list byte -> list byte))
    (record : JSObject) (records : list JSObject) :
  js_has "hash" record = false ->
  js_has "id" record = false ->
  saveRecord subtle record records
  = (map js_json_clone records
     ++ [js_json_clone
           (record ++ [("hash", JSString (generateHash subtle record));
                       ("id", JSNumber (saveRecord subtle record records).2)])],
     (saveRecord subtle record records).2).
Proof.
  intros Hhash Hid. unfold saveRecord, saveToLocalStorage. cbn [fst snd].
  rewrite map_app. cbn [map]. do 3 f_equal.
  destruct (js_spread_set_fresh "hash" (JSString (generateHash subtle record)) record Hhash)
    as (-> & _ & _).
  unfold js_spread_set at 1.
  replace (js_has "id" (record ++ _)) with false.
  - by rewrite <- app_assoc.
  - symmetry. apply bool_decide_eq_false. rewrite fmap_app, elem_of_app.
    intros [Hin|Hin]; [by apply js_has_false in Hid|].
    cbn in Hin. apply list_elem_of_singleton in Hin. discriminate.
Qed.

Lemma evidence_record_keys (timestamp : Z) (type content tags : string)
    (attachments : option string) :
  js_has "hash" (evidence_record timestamp type content tags attachments) = false
  /\ js_has "id" (evidence_record timestamp type content tags attachments) = false.
Proof. destruct attachments; split; reflexivity. Qed.



(** The same record saved into an empty store and into a store that
    holds a record: the ids differ, the stored hashes do not. *)
Example saved_hash_same_under_different_ids :
  let record := evidence_record 17 "Incident" "Incident at pickup" "#Harassment" None in
  let first := saveRecord (Some SHA256) record [] in
  let second := saveRecord (Some SHA256) record first.1 in
  first.2 = 1%Z /\ second.2 = 2%Z
  /\ (js_get "hash" <$> second.1)
     = [JSString "66538341c128a311f84f8278c2d1492318f9a36f70580b0c0e7fb4505c3e93eb";
        JSString "66538341c128a311f84f8278c2d1492318f9a36f70580b0c0e7fb4505c3e93eb"].
Proof. vm_compute. done. Qed.

(** Claim C4, counterexample.  Where Web Crypto is missing, a record
    whose stored hash is the first 64 characters of the base64 text of
    its JSON is accepted, and that hash is not the hexadecimal form of
    any digest, SHA-256 or other. *)
Lemma verify_without_webcrypto_counterexample :
  let content := evidence_record 1700000000000 "Incident" "Incident at pickup" "#Harassment" None in
  let stored := JSString "eyJ0aW1lc3RhbXAiOjE3MDAwMDAwMDAwMDAsInR5cGUiOiJJbmNpZGVudCIsImNv" in
  let record := js_spread_set content "hash" stored in
  verifyRecordIntegrity None record = true
  /\ (forall digest_bytes, stored <> JSString (bytes_to_hex digest_bytes))
  /\ (forall sha256, ~ verify_iff_sha256 None sha256).
Proof.
  intros content stored record.
  assert (verifyRecordIntegrity None record = true) as Hverify by (vm_compute; reflexivity).
  assert (forall digest_bytes, stored <> JSString (bytes_to_hex digest_bytes)) as Hnothex.
  { intros [|b rest]; [discriminate|]. cbn [bytes_to_hex fold_right].
    destruct (hex_pair_to_byte_to_hex b) as (hi & lo & -> & Hbyte).
    rewrite !string_append_cons. intros [= Hhi Hlo _]. subst hi lo.
    vm_compute in Hbyte. discriminate Hbyte. }
  split; [exact Hverify|]. split; [exact Hnothex|].
  intros sha256 Hclaim.
  apply (Hclaim content eq_refl stored) in Hverify. by apply Hnothex in Hverify.
Qed.

(** Claim C4, as amended.  Where Web Crypto is available, take a
    record made of content properties (none named [hash] or [id]) and a
    stored hash.  Without the hash property it is rejected.  With it, it
    is accepted if and only if the stored value is a string that
    equals, character for character, the lowercase hexadecimal form of
    the digest of the UTF-8 JSON text of the content properties. *)
Theorem verifyRecordIntegrity_spec (digest : list byte -> list byte)
    (content : JSObject) (stored : JSValue) :
  js_has "hash" content = false ->
  js_has "id" content = false ->
  verifyRecordIntegrity (Some digest) content = false
  /\ (verifyRecordIntegrity (Some digest) (js_spread_set content "hash" stored) = true
      <-> stored
          = JSString (bytes_to_hex
                        (digest (TextEncoder_encode (JSON_stringify_object content))))).
Proof.
  intros Hhash _. unfold verifyRecordIntegrity, js_strict_equal.
  destruct (js_spread_set_fresh "hash" stored content Hhash) as (_ & -> & ->).
  split.
  - rewrite js_get_absent by (by apply js_has_false). by apply bool_decide_eq_false.
  - apply bool_decide_eq_true.
Qed.

Lemma verifyRecordIntegrity_spec_witness :
  let content := evidence_record 17 "Incident" "Incident at pickup" "#Harassment" None in
  let stored := JSString (generateHash (Some SHA256) content) in
  (js_has "hash" content = false /\ js_has "id" content = false)
  /\ verifyRecordIntegrity (Some SHA256) content = false
  /\ verifyRecordIntegrity (Some SHA256) (js_spread_set content "hash" stored) = true.
Proof.
  intros content stored.
  assert (js_has "hash" content = false) as Hhash by reflexivity.
  assert (js_has "id" content = false) as Hid by reflexivity.
  split; [done|].
  destruct (verifyRecordIntegrity_spec SHA256 content stored Hhash Hid)
    as (Habsent & Hiff).
  split; [exact Habsent|]. apply Hiff. reflexivity.
Defined.

(** What the store hands back does not pass where Web Crypto exists: a
    record saved by [saveRecord] and read back carries the id that the
    store assigned, [verifyRecordIntegrity] hashes that id along with
    the content, and the hash stored at save time was computed without
    it.  The check can only pass if the digest collides on the two
    different JSON texts. *)
Lemma saved_record_fails_verification (digest : list byte -> list byte)
    (stored : JSObject) (id : Z) :
  let content := evidence_record 17 "Incident" "Incident at pickup" "#Harassment" None in
  let with_id := JSON_stringify_object (content ++ [("id", JSNumber 1)]) in
  saveRecord (Some digest) content [] = ([stored], id) ->
  verifyRecordIntegrity (Some digest) stored = true ->
  with_id <> JSON_stringify_object content
  /\ digest (TextEncoder_encode with_id)
     = digest (TextEncoder_encode (JSON_stringify_object content)).
Proof.
  intros content with_id [= <- _] Hverify. split; [vm_compute; discriminate|].
  unfold verifyRecordIntegrity, js_strict_equal in Hverify.
  apply bool_decide_eq_true in Hverify.
  change (js_get "hash" _) with (JSString (generateHash (Some digest) content)) in Hverify.
  injection Hverify as Hverify. symmetry in Hverify.
  apply bytes_to_hex_injective in Hverify. exact Hverify.
Qed.

(** With SHA-256 itself: the record that [saveRecord] stored and a
    reader gets back is rejected, although nothing has altered it; the
    same content with the same hash and no id is accepted. *)
Example saved_record_rejected_with_webcrypto :
  let content := evidence_record 17 "Incident" "Incident at pickup" "#Harassment" None in
  let hash := JSString (generateHash (Some SHA256) content) in
  let stored := (saveRecord (Some SHA256) content []).1 in
  stored = [content ++ [("hash", hash); ("id", JSNumber 1)]]
  /\ (verifyRecordIntegrity (Some SHA256) <$> stored) = [false]
  /\ verifyRecordIntegrity (Some SHA256) (content ++ [("hash", hash)]) = true.
Proof. vm_compute. done. Qed.

(** Where Web Crypto is missing the hash is a prefix of a reversible
    encoding: it covers the first 48 bytes of the JSON text only.  A
    record whose content was rewritten after it was saved is still
    accepted. *)
Example fallback_hash_misses_content :
  let saved := evidence_record 1700000000000 "Incident" "Incident at pickup" "#Harassment" None in
  let altered := evidence_record 1700000000000 "Incident" "Nothing happened" "#Harassment" None in
  let hash := JSString (generateHash None saved) in
  verifyRecordIntegrity None (js_spread_set saved "hash" hash) = true
  /\ verifyRecordIntegrity None (js_spread_set altered "hash" hash) = true.
Proof. vm_compute. done. Qed.

(* ================================================================== *)
(** * The record store: single-record methods, settings, invariant *)
(* ================================================================== *)

Lemma run_requests_keyed (reqs : list IDBRequest) (budget budget' : option nat)
    (staged final : gmap string RecordType.t) :
  map_Forall (fun key record => RecordType.id record = key) staged ->
  run_requests reqs budget staged = (budget', Returns final) ->
  map_Forall (fun key record => RecordType.id record = key) final.
Proof.
  revert budget staged. induction reqs as [|rq reqs IH]; intros budget staged Hkeyed Hrun;
    cbn in Hrun.
  - by injection Hrun as _ <-.
  - destruct (budget_spent budget); [discriminate|].
    destruct rq as [|record]; cbn in Hrun.
    + eapply IH, Hrun. apply map_Forall_empty.
    + destruct (staged !! RecordType.id record) eqn:Hfree; [discriminate|].
      eapply IH, Hrun. by apply map_Forall_insert_2.
Qed.

Lemma records_transaction_keyed (reqs : list IDBRequest) (w : World) :
  records_keyed w -> records_keyed (records_transaction reqs w).1.
Proof.
  intros Hkeyed. unfold records_transaction.
  destruct (run_requests _ _ _) as [budget' [final|e]] eqn:Hrun; cbn.
  - eapply run_requests_keyed, Hrun. exact Hkeyed.
  - exact Hkeyed.
Qed.

Lemma records_write_keyed change (w : World) :
  (forall m, map_Forall (fun key record => RecordType.id record = key) m ->
             map_Forall (fun key record => RecordType.id record = key) (change m)) ->
  records_keyed w -> records_keyed (records_write change w).1.
Proof.
  intros Hchange Hkeyed. unfold records_write.
  destruct (budget_spent _); [exact Hkeyed|]. cbn. by apply Hchange.
Qed.

Lemma run_call_keyed (call : StorageCall) (w : World) :
  records_keyed w -> records_keyed (run_call call w).1.
Proof.
  intros Hkeyed. destruct call as [records|record|record|id| |key value]; cbn [run_call].
  - by apply records_transaction_keyed.
  - by apply records_transaction_keyed.
  - apply records_write_keyed; [|exact Hkeyed].
    intros m Hm. by apply map_Forall_insert_2.
  - apply records_write_keyed; [|exact Hkeyed].
    intros m Hm. by apply map_Forall_delete.
  - by apply records_transaction_keyed.
  - unfold saveSetting. destruct (budget_spent _); exact Hkeyed.
Qed.

(** The ids of what [getRecords] returns, under the invariant. *)
Lemma getRecords_keyed (w : World) :
  records_keyed w ->
  RecordType.id <$> (map_to_list (idb_records w)).*2 = (map_to_list (idb_records w)).*1.
Proof.
  intros Hkeyed. rewrite <- list_fmap_compose. apply list_fmap_ext.
  intros i [k r] Hi. cbn. apply (Hkeyed k r).
  apply elem_of_map_to_list. by eapply list_elem_of_lookup_2.
Qed.

Lemma addRecord_unfold (record : RecordType.t) (w : World) :
  addRecord record w
  = if budget_spent (idb_write_budget w) then (w, Throws BackendError)
    else match idb_records w !! RecordType.id record with
         | Some _ =>
             (mkWorld (idb_records w) (idb_settings w) (budget_pred (idb_write_budget w))
                (csprng_tape w) (csprng_pos w) (clock_iso w), Throws ConstraintError)
         | None =>
             (mkWorld (<[RecordType.id record := record]> (idb_records w))
                (idb_settings w) (budget_pred (idb_write_budget w))
                (csprng_tape w) (csprng_pos w) (clock_iso w), Returns tt)
         end.
Proof.
  unfold addRecord, records_transaction. cbn [run_requests exec_request].
  destruct (budget_spent (idb_write_budget w)) eqn:Hspent.
  - destruct w as [? ? [[|?]|] ? ? ?]; try discriminate. reflexivity.
  - destruct (idb_records w !! RecordType.id record); reflexivity.
Qed.

Lemma clearRecords_unfold (w : World) :
  clearRecords w
  = if budget_spent (idb_write_budget w) then (w, Throws BackendError)
    else (mkWorld ∅ (idb_settings w) (budget_pred (idb_write_budget w))
            (csprng_tape w) (csprng_pos w) (clock_iso w), Returns tt).
Proof.
  unfold clearRecords, records_transaction. cbn [run_requests exec_request].
  destruct (budget_spent (idb_write_budget w)) eqn:Hspent; [|reflexivity].
  destruct w as [? ? [[|?]|] ? ? ?]; try discriminate. reflexivity.
Qed.

(** The outcome of a [put] or [delete] transaction. *)
Lemma records_write_cases change (w : World) :
  (budget_spent (idb_write_budget w) = true
   /\ records_write change w = (w, Throws BackendError))
  \/ (budget_spent (idb_write_budget w) = false
      /\ (records_write change w).2 = Returns tt
      /\ idb_records (records_write change w).1 = change (idb_records w)
      /\ idb_settings (records_write change w).1 = idb_settings w).
Proof.
  unfold records_write. destruct (budget_spent _); [left|right]; done.
Qed.

Lemma saveSetting_cases (key : string) (value : JSValue) (w : World) :
  (budget_spent (idb_write_budget w) = true
   /\ saveSetting key value w = (w, Throws BackendError))
  \/ (budget_spent (idb_write_budget w) = false
      /\ saveSetting key value w
         = (mkWorld (idb_records w) (<[key := value]> (idb_settings w))
              (budget_pred (idb_write_budget w))
              (csprng_tape w) (csprng_pos w) (clock_iso w), Returns tt)).
Proof. unfold saveSetting. destruct (budget_spent _); [left|right]; done. Qed.

(** X1.  [addRecord] never overwrites.  It succeeds exactly when the
    back end works and the id of the record is free, and then the record
    is stored under its id and [getRecords] returns it along with the
    records it returned before.  In every other case the records store
    is as before; with a working back end and a taken id the rejection
    is the ConstraintError of [add].  Records under other ids and the
    settings are never touched. *)
Theorem addRecord_spec (record : RecordType.t) (w : World) :
  let w' := (addRecord record w).1 in
  let outcome := (addRecord record w).2 in
  (forall id, id <> RecordType.id record ->
     idb_records w' !! id = idb_records w !! id)
  /\ idb_settings w' = idb_settings w
  /\ (outcome = Returns tt
      <-> budget_spent (idb_write_budget w) = false
          /\ idb_records w !! RecordType.id record = None)
  /\ (outcome = Returns tt ->
      idb_records w' !! RecordType.id record = Some record
      /\ exists before after,
           (getRecords w).2 = Returns before
           /\ (getRecords w').2 = Returns after
           /\ after ≡ₚ record :: before)
  /\ (outcome <> Returns tt -> idb_records w' = idb_records w)
  /\ (budget_spent (idb_write_budget w) = false ->
      is_Some (idb_records w !! RecordType.id record) ->
      outcome = Throws ConstraintError).
Proof.
  intros w' outcome. unfold w', outcome. rewrite addRecord_unfold.
  destruct (budget_spent (idb_write_budget w)) eqn:Hspent.
  { cbn. split_and!; try done. split; [done|]. by intros []. }
  destruct (idb_records w !! RecordType.id record) as [old|] eqn:Hold; cbn.
  - split_and!; try done. split; [done|]. by intros [].
  - split_and!; try done.
    + intros id Hid. by rewrite lookup_insert_ne.
    + intros _. split; [by rewrite lookup_insert_eq|].
      do 2 eexists. split; [reflexivity|]. split; [reflexivity|].
      by rewrite map_to_list_insert.
Qed.

(** X2.  [updateRecord] is an upsert.  It fails only with the back
    end, and then changes nothing; otherwise the record is stored under
    its id, replacing what was there, and records under other ids stay.
    On a free id it does what [addRecord] does.  Updating a second time
    with the same record changes nothing any more. *)
Theorem updateRecord_spec (record : RecordType.t) (w : World) :
  let w' := (updateRecord record w).1 in
  let outcome := (updateRecord record w).2 in
  (outcome = Returns tt <-> budget_spent (idb_write_budget w) = false)
  /\ (outcome = Returns tt ->
      idb_records w' = <[RecordType.id record := record]> (idb_records w))
  /\ (outcome <> Returns tt -> w' = w /\ outcome = Throws BackendError)
  /\ idb_settings w' = idb_settings w
  /\ (idb_records w !! RecordType.id record = None ->
      updateRecord record w = addRecord record w)
  /\ (outcome = Returns tt ->
      idb_records (updateRecord record w').1 = idb_records w').
Proof.
  intros w' outcome. unfold w', outcome, updateRecord.
  destruct (records_write_cases (insert (RecordType.id record) record) w)
    as [[Hspent Hrun]|(Hspent & Hout & Hrec & Hset)].
  - rewrite Hrun. cbn. repeat split; try done; try congruence.
    intros Hfree. by rewrite addRecord_unfold, Hspent.
  - rewrite Hout, Hrec, Hset. repeat split; try done.
    + intros Hfree. rewrite addRecord_unfold, Hspent, Hfree.
      unfold records_write. by rewrite Hspent.
    + intros _.
      match goal with |- idb_records (records_write ?c ?w1).1 = _ =>
        destruct (records_write_cases c w1) as [[_ ->]|(_ & _ & -> & _)] end.
      * cbn. exact Hrec.
      * rewrite Hrec. apply insert_insert_eq.
Qed.

(** X3.  [deleteRecord] fails only with the back end, and then
    changes nothing; otherwise the id is free afterwards and records
    under other ids stay.  Deleting an id that is not stored succeeds
    and leaves the store as it was.  Deleting the record that a
    successful [addRecord] has just stored gives back the records store
    from before the [addRecord]. *)
Theorem deleteRecord_spec (id : string) (w : World) :
  let w' := (deleteRecord id w).1 in
  let outcome := (deleteRecord id w).2 in
  (outcome = Returns tt <-> budget_spent (idb_write_budget w) = false)
  /\ (outcome = Returns tt ->
      idb_records w' !! id = None
      /\ forall other, other <> id -> idb_records w' !! other = idb_records w !! other)
  /\ (outcome <> Returns tt -> w' = w /\ outcome = Throws BackendError)
  /\ idb_settings w' = idb_settings w
  /\ (idb_records w !! id = None -> idb_records w' = idb_records w)
  /\ (forall record w0,
        RecordType.id record = id ->
        addRecord record w0 = (w, Returns tt) ->
        outcome = Returns tt ->
        idb_records w' = idb_records w0).
Proof.
  intros w' outcome. unfold w', outcome, deleteRecord.
  destruct (records_write_cases (delete id) w)
    as [[Hspent Hrun]|(Hspent & Hout & Hrec & Hset)].
  - rewrite Hrun. cbn. repeat split; try done; congruence.
  - rewrite Hout, Hrec, Hset. repeat split; try done.
    + apply lookup_delete_eq.
    + intros other Hother. by rewrite lookup_delete_ne.
    + intros Hfree. by apply delete_id.
    + intros record w0 Hid Hadd _. rewrite addRecord_unfold in Hadd.
      destruct (budget_spent (idb_write_budget w0)); [discriminate|].
      destruct (idb_records w0 !! RecordType.id record) eqn:Hfree; [discriminate|].
      injection Hadd as <-. cbn. rewrite <- Hid. rewrite delete_insert_eq.
      by apply delete_id.
Qed.

(** X4.  Every stored record sits under its own id, and no sequence
    of calls of the write methods of [IndexedDBStorage] ([saveRecords],
    [addRecord], [updateRecord], [deleteRecord], [clearRecords],
    [saveSetting]) changes that, whichever of the calls fail.  So
    [getRecords] returns records with pairwise distinct ids, and returns
    a record exactly when the store holds it under its id. *)
Theorem storage_calls_keep_records_keyed (calls : list StorageCall) (w : World) :
  records_keyed w ->
  let w' := run_calls calls w in
  records_keyed w'
  /\ exists stored,
       getRecords w' = (w', Returns stored)
       /\ NoDup (RecordType.id <$> stored)
       /\ forall r, r ∈ stored <-> idb_records w' !! RecordType.id r = Some r.
Proof.
  intros Hkeyed w'.
  assert (records_keyed w') as Hkeyed'.
  { unfold w', run_calls. clear w'. revert w Hkeyed.
    induction calls as [|call calls IH]; intros w Hkeyed; [exact Hkeyed|].
    cbn [fold_left]. apply IH. by apply run_call_keyed. }
  split; [exact Hkeyed'|]. eexists. split; [reflexivity|]. split.
  - rewrite getRecords_keyed by exact Hkeyed'. apply NoDup_fst_map_to_list.
  - intros r. split.
    + intros ([k r'] & -> & Hin)%list_elem_of_fmap. cbn.
      apply elem_of_map_to_list in Hin. by rewrite (Hkeyed' k r' Hin).
    + intros Hin. apply list_elem_of_fmap. exists (RecordType.id r, r).
      split; [reflexivity|]. by apply elem_of_map_to_list.
Qed.

Lemma storage_calls_keep_records_keyed_witness :
  let calls := [call_addRecord (sample_record "r1" "first");
                call_addRecord (sample_record "r1" "second");
                call_updateRecord (sample_record "r0" "edited");
                call_deleteRecord "r7";
                call_saveSetting "recordKeeper_pin" JSNull] in
  records_keyed sample_old_world
  /\ records_keyed (run_calls calls sample_old_world)
  /\ idb_records (run_calls calls sample_old_world) !! "r1"
     = Some (sample_record "r1" "first")
  /\ idb_records (run_calls calls sample_old_world) !! "r0"
     = Some (sample_record "r0" "edited").
Proof.
  intros calls.
  assert (records_keyed sample_old_world) as Hkeyed.
  { unfold records_keyed. cbn. by apply map_Forall_singleton. }
  split; [exact Hkeyed|].
  destruct (storage_calls_keep_records_keyed calls sample_old_world Hkeyed) as [Hafter _].
  split; [exact Hafter|]. split; by vm_compute.
Defined.

(** X5.  A setting that [saveSetting] has stored is what [getSetting]
    returns for its key, also when the value is [null]; the other keys
    read as before and the records store is untouched.  [saveSetting]
    fails only with the back end, and then changes nothing.  A key that
    was never stored reads as [undefined]. *)
Theorem saveSetting_getSetting (key : string) (value : JSValue) (w : World) :
  let w' := (saveSetting key value w).1 in
  let outcome := (saveSetting key value w).2 in
  (outcome = Returns tt <-> budget_spent (idb_write_budget w) = false)
  /\ (outcome = Returns tt ->
      getSetting key w' = (w', Returns value)
      /\ forall other, other <> key -> (getSetting other w').2 = (getSetting other w).2)
  /\ (outcome <> Returns tt -> w' = w /\ outcome = Throws BackendError)
  /\ idb_records w' = idb_records w
  /\ (idb_settings w !! key = None -> getSetting key w = (w, Returns JSUndefined)).
Proof.
  intros w' outcome. unfold w', outcome, saveSetting, getSetting.
  destruct (budget_spent (idb_write_budget w)); cbn.
  - split_and!; try done. by intros ->.
  - split_and!; try done.
    + intros _. split; [by rewrite lookup_insert_eq|].
      intros other Hother. by rewrite lookup_insert_ne.
    + by intros ->.
Qed.

(* ================================================================== *)
(** * The migration from [localStorage] *)
(* ================================================================== *)

Lemma migrated_setting_step (localStorage : gmap string string) (k : string)
    (keys : list string) (value : string) (settings : gmap string JSValue)
    (key : string) :
  localStorage !! k = Some value ->
  migrated_setting localStorage keys (<[k := JSString value]> settings) key
  = migrated_setting localStorage (k :: keys) settings key.
Proof.
  intros Hitem. unfold migrated_setting.
  destruct (decide (key = k)) as [->|Hne].
  - rewrite (decide_True (P := k ∈ k :: keys)) by left. rewrite Hitem.
    case_decide; [reflexivity|]. by rewrite lookup_insert_eq.
  - rewrite lookup_insert_ne by done.
    destruct (decide (key ∈ keys)) as [Hin|Hout].
    + rewrite decide_True by (by right). reflexivity.
    + rewrite decide_False; [reflexivity|]. intros [?|?]%elem_of_cons; done.
Qed.

Lemma migrateSettings_cases (localStorage : gmap string string) (keys : list string)
    (w : World) :
  idb_records (migrateSettings localStorage keys w).1 = idb_records w
  /\ ((migrateSettings localStorage keys w).2 = Returns tt ->
      forall key, idb_settings (migrateSettings localStorage keys w).1 !! key
                  = migrated_setting localStorage keys (idb_settings w) key)
  /\ (idb_write_budget w = None ->
      (migrateSettings localStorage keys w).2 = Returns tt
      /\ idb_write_budget (migrateSettings localStorage keys w).1 = None).
Proof.
  revert w. induction keys as [|k keys IH]; intros w.
  { cbn. split_and!; try done. }
  cbn [migrateSettings]. unfold mbind, Async_bind.
  destruct (localStorage !! k) as [value|] eqn:Hitem.
  - destruct (saveSetting_cases k (JSString value) w) as [[Hspent ->]|[Hspent ->]].
    + cbn. split_and!; try done. intros Hnone. by rewrite Hnone in Hspent.
    + match goal with |- context [migrateSettings localStorage keys ?w1] =>
        destruct (IH w1) as (Hrec & Hset & Hok) end.
      split_and!.
      * exact Hrec.
      * intros Hdone key. rewrite (Hset Hdone). cbn. by apply migrated_setting_step.
      * intros Hnone. apply Hok. cbn. by rewrite Hnone.
  - cbn. destruct (IH w) as (Hrec & Hset & Hok). split_and!; try done.
    intros Hdone key. rewrite (Hset Hdone). unfold migrated_setting.
    destruct (decide (key ∈ keys)) as [Hin|Hout].
    + rewrite decide_True by (by right). reflexivity.
    + destruct (decide (key = k)) as [->|Hne].
      * rewrite Hitem. by case_decide.
      * rewrite decide_False; [reflexivity|]. intros [?|?]%elem_of_cons; done.
Qed.

Lemma try_catch_rethrow {A} (body : Async A) (w : World) :
  try_catch_async body (fun error => throw error) w = body w.
Proof. unfold try_catch_async, throw. by destruct (body w) as [w' [a|e]]. Qed.

Lemma length_pos_nonempty {A} (l : list A) : l <> [] -> (0 <? length l)%nat = true.
Proof. destruct l; [done|reflexivity]. Qed.

Lemma sample_parse_stringify_records (records : list RecordType.t) :
  sample_parse_records (sample_stringify_records records) = Returns records.
Proof.
  unfold sample_parse_records, sample_stringify_records.
  by rewrite string_to_positive_to_string, decode_encode.
Qed.

Section LocalStorageLemmas.
Variable JSON_parse_records : string -> Completion (list RecordType.t).
Variable JSON_stringify_records : list RecordType.t -> string.
Variable randomUUID : Async string.

Local Abbreviation loadData := (App.loadData JSON_parse_records).
Local Abbreviation saveEffect := (App.saveEffect JSON_stringify_records).
Local Abbreviation migrate := (migrateFromLocalStorage JSON_parse_records).

(** X6.  [migrateFromLocalStorage].  When it succeeds, each of the
    five settings that [localStorage] holds (the empty string included)
    is stored as that string and every other setting is as before; the
    records store holds exactly the records of the item
    'recordKeeper_records' if that item is a non-empty text, and is as
    before otherwise.  A text that does not parse makes the method
    reject with the parser's own error, nothing having been written.
    With a working back end the method succeeds if the item is absent or
    empty, or parses to records with pairwise distinct ids. *)
Theorem migrateFromLocalStorage_effect (localStorage : gmap string string) (w : World) :
  let savedRecords := localStorage !! "recordKeeper_records" in
  let parsed := JSON_parse_records (default EmptyString savedRecords) in
  let run := migrate localStorage w in
  (run.2 = Returns tt ->
     (forall key,
        idb_settings run.1 !! key
        = migrated_setting localStorage settingsToMigrate (idb_settings w) key)
     /\ if item_truthy savedRecords
        then exists records,
               parsed = Returns records
               /\ (map_to_list (idb_records run.1)).*2 ≡ₚ records
        else idb_records run.1 = idb_records w)
  /\ (forall e, item_truthy savedRecords = true -> parsed = Throws e ->
        run = (w, Throws e))
  /\ (idb_write_budget w = None ->
      (item_truthy savedRecords = true ->
         exists records, parsed = Returns records
                         /\ NoDup (RecordType.id <$> records)) ->
      run.2 = Returns tt).
Proof.
  intros savedRecords parsed run. unfold run, migrateFromLocalStorage.
  rewrite try_catch_rethrow. fold savedRecords. fold parsed.
  unfold mbind, Async_bind, Async_lift.
  destruct (item_truthy savedRecords) eqn:Hitem.
  - destruct parsed as [records|e] eqn:Hparsed.
    + destruct (saveRecords_cases records w)
        as [(w1 & e & Hsave0 & Hrec & Hset)|(w1 & -> & Hrec & Hset & Hbudget)].
      * rewrite Hsave0. cbn. split_and!; try done.
        intros Hnone Hok. destruct (Hok eq_refl) as (records' & [= <-] & Hnodup).
        destruct (saveRecords_succeeds records w Hnone Hnodup) as [w2 Hsave].
        congruence.
      * destruct (migrateSettings_cases localStorage settingsToMigrate w1)
          as (Hrec' & Hset' & Hok').
        destruct (migrateSettings localStorage settingsToMigrate w1) as [w2 outcome].
        cbn [fst snd] in *. split_and!.
        -- intros Hdone. split.
           ++ intros key. rewrite (Hset' Hdone). by rewrite Hset.
           ++ exists records. split; [reflexivity|]. rewrite Hrec', Hrec.
              unfold keyed. rewrite <- list_fmap_compose. cbn. by rewrite list_fmap_id.
        -- intros e _ [=].
        -- intros Hnone _. apply Hok'. by apply Hbudget.
    + cbn. split_and!; try done.
      * by intros e' _ [= ->].
      * intros _ Hok. by destruct (Hok eq_refl) as (? & [=] & _).
  - destruct (migrateSettings_cases localStorage settingsToMigrate w)
      as (Hrec' & Hset' & Hok').
    unfold mret, Async_ret.
    destruct (migrateSettings localStorage settingsToMigrate w) as [w2 outcome].
    cbn [fst snd] in *. destruct outcome as [[]|e]; split_and!; try done.
    + intros Hdone. split; [by apply Hset'|done].
    + intros Hnone _. by apply Hok'.
Qed.

(** The migration of a well-formed snapshot with a working back end. *)
Lemma migrateFromLocalStorage_succeeds (localStorage : gmap string string) (w : World)
    (text : string) (legacy : list RecordType.t) :
  localStorage !! "recordKeeper_records" = Some text ->
  text <> EmptyString ->
  JSON_parse_records text = Returns legacy ->
  NoDup (RecordType.id <$> legacy) ->
  idb_write_budget w = None ->
  exists w1, migrate localStorage w = (w1, Returns tt)
             /\ (map_to_list (idb_records w1)).*2 ≡ₚ legacy.
Proof.
  intros Hitem Htext Hparse Hnodup Hbudget.
  unfold migrateFromLocalStorage. rewrite try_catch_rethrow, Hitem.
  cbn [item_truthy from_option id default].
  destruct (String.eqb_spec text EmptyString) as [?|_]; [done|]. cbn [negb].
  rewrite Hparse. unfold mbind, Async_bind, Async_lift.
  destruct (saveRecords_succeeds legacy w Hbudget Hnodup) as [w1 Hsave].
  destruct (saveRecords_cases legacy w)
    as [(w3 & e & Hsave' & _)|(w3 & Hsave' & Hrec & _ & Hkeeps)]; [congruence|].
  assert (w3 = w1) as -> by congruence. rewrite Hsave.
  destruct (migrateSettings_cases localStorage settingsToMigrate w1)
    as (Hrec' & _ & Hok).
  destruct (Hok (Hkeeps Hbudget)) as [Hdone _].
  destruct (migrateSettings localStorage settingsToMigrate w1) as [w2 outcome].
  cbn [fst snd] in *. subst outcome. exists w2. split; [reflexivity|].
  rewrite Hrec', Hrec. unfold keyed. rewrite <- list_fmap_compose. cbn.
  by rewrite list_fmap_id.
Qed.

(* ================================================================== *)
(** * The [App] component: loading, saving, adding, deleting *)
(* ================================================================== *)

(** The part of [loadData] behind the migration. *)
Lemma loadData_after_migration (localStorage : gmap string string) (s : App.State)
    (w w1 : World) :
  (if item_truthy (localStorage !! "recordKeeper_records")
   then migrate localStorage w = (w1, Returns tt)
   else w1 = w) ->
  exists s',
    loadData localStorage s w = (w1, Returns s')
    /\ App.records s'
       = if (0 <? length (map_to_list (idb_records w1)).*2)%nat
         then (map_to_list (idb_records w1)).*2
         else App.records s.
Proof.
  intros Hmigrate. unfold App.loadData, try_catch_async, mbind, Async_bind.
  assert ((if item_truthy (localStorage !! "recordKeeper_records")
           then migrate localStorage else mret tt) w = (w1, Returns tt)) as ->.
  { destruct (item_truthy _); [exact Hmigrate|by subst]. }
  unfold getRecords, getSetting, mret, Async_ret. cbn [fst snd].
  eexists. split; [reflexivity|].
  repeat match goal with
         | |- context [if ?b then _ else _] => destruct b
         end; reflexivity.
Qed.

(** X7.  A snapshot left in [localStorage] replaces the database at
    every start.  If the item 'recordKeeper_records' holds a non-empty
    text that parses to records with pairwise distinct ids, and the back
    end works, then [loadData] succeeds and leaves in the records store
    exactly the records of that text, whatever the store held before:
    a record that is stored afterwards is one of the snapshot.  If the
    snapshot is not empty, its records are what the component shows.
    ([migrateFromLocalStorage] and [loadData] only read [localStorage],
    so the same happens at the next start.) *)
Theorem loadData_restores_legacy_snapshot (localStorage : gmap string string)
    (s : App.State) (w : World) (text : string) (legacy : list RecordType.t) :
  localStorage !! "recordKeeper_records" = Some text ->
  text <> EmptyString ->
  JSON_parse_records text = Returns legacy ->
  NoDup (RecordType.id <$> legacy) ->
  idb_write_budget w = None ->
  exists w' s',
    loadData localStorage s w = (w', Returns s')
    /\ (map_to_list (idb_records w')).*2 ≡ₚ legacy
    /\ (legacy <> [] -> App.records s' ≡ₚ legacy)
    /\ (forall r, idb_records w' !! RecordType.id r = Some r -> r ∈ legacy).
Proof.
  intros Hitem Htext Hparse Hnodup Hbudget.
  assert (item_truthy (localStorage !! "recordKeeper_records") = true) as Htruthy.
  { rewrite Hitem. cbn. by destruct (String.eqb_spec text EmptyString). }
  destruct (migrateFromLocalStorage_succeeds localStorage w text legacy
              Hitem Htext Hparse Hnodup Hbudget) as (w1 & Hmigrate & Hstored).
  destruct (loadData_after_migration localStorage s w w1) as (s' & Hload & Hrecords).
  { rewrite Htruthy. exact Hmigrate. }
  exists w1, s'. split; [exact Hload|]. split; [exact Hstored|]. split.
  - intros Hne. rewrite Hrecords, length_pos_nonempty; [exact Hstored|].
    intros Hnil. rewrite Hnil in Hstored. apply Hne.
    by apply Permutation_nil_l in Hstored.
  - intros r Hr. rewrite <- Hstored. apply list_elem_of_fmap.
    exists (RecordType.id r, r). split; [reflexivity|]. by apply elem_of_map_to_list.
Qed.

(** X8.  Deleting the last records is not persisted.  Let the
    database hold exactly the records that the component holds, let
    [localStorage] hold no legacy snapshot (the item
    'recordKeeper_records' is absent or empty), and let every held
    record have the id that is deleted.  Then [deleteRecord] leaves the
    component with no records; the save effect skips the write
    ([records.length > 0] fails), so the database and [localStorage] are
    as before; and the next [loadData] brings the deleted records
    back. *)
Theorem deleting_every_record_is_not_persisted (id : string) (s : App.State)
    (w : World) (localStorage : gmap string string) :
  App.records s <> [] ->
  (forall r, r ∈ App.records s -> RecordType.id r = id) ->
  (map_to_list (idb_records w)).*2 ≡ₚ App.records s ->
  item_truthy (localStorage !! "recordKeeper_records") = false ->
  let s1 := App.deleteRecord id s in
  App.records s1 = []
  /\ saveEffect (App.records s1) w localStorage = (w, localStorage)
  /\ forall s0, exists s2,
       loadData localStorage s0 w = (w, Returns s2)
       /\ App.records s2 ≡ₚ App.records s.
Proof.
  intros Hne Hid Hstored Hitem s1.
  assert (App.records s1 = []) as Hempty.
  { unfold s1, App.deleteRecord. cbn. apply filter_none.
    intros r Hr Hnot. apply Hnot. by apply Hid. }
  split; [exact Hempty|]. split; [by rewrite Hempty|].
  intros s0. destruct (loadData_after_migration localStorage s0 w w) as (s2 & Hload & Hrecords).
  { by rewrite Hitem. }
  exists s2. split; [exact Hload|].
  rewrite Hrecords, length_pos_nonempty; [exact Hstored|].
  intros Hnil. rewrite Hnil in Hstored. apply Hne.
  by apply Permutation_nil_l in Hstored.
Qed.

(** X9.  A record that is added is found again after a reload.  Let
    [localStorage] hold no legacy snapshot (the item
    'recordKeeper_records' is absent or empty), let [crypto.randomUUID]
    deliver an id that no held record has, let the held records have
    pairwise distinct ids and let the back end work.  Then [addRecord]
    puts in front of the list a record with that id, the current time as
    [createdAt] and the one-entry event log 'created', and shows the
    home tab; the save effect writes the list to the database without
    touching [localStorage]; and the next [loadData] returns the same
    records, up to their order. *)
Theorem added_record_survives_reload (record : App.Draft) (s : App.State)
    (w w1 : World) (id : string) (localStorage : gmap string string) :
  randomUUID w = (w1, Returns id) ->
  NoDup (id :: (RecordType.id <$> App.records s)) ->
  idb_write_budget w1 = None ->
  item_truthy (localStorage !! "recordKeeper_records") = false ->
  let newRecord :=
    RecordType.mk id (App.draft_dateTime record) (App.draft_description record)
      (App.draft_tags record) (App.draft_people record) (App.draft_location record)
      (App.draft_severity record) (App.draft_files record)
      (clock_iso w) None None (Some [LogEntry.mk (clock_iso w) "created"]) in
  exists s1 w2,
    App.addRecord randomUUID record s w = (w1, Returns s1)
    /\ App.records s1 = newRecord :: App.records s
    /\ App.activeTab s1 = App.tab_home
    /\ saveEffect (App.records s1) w1 localStorage = (w2, localStorage)
    /\ (map_to_list (idb_records w2)).*2 ≡ₚ App.records s1
    /\ forall s0, exists s2,
         loadData localStorage s0 w2 = (w2, Returns s2)
         /\ App.records s2 ≡ₚ App.records s1.
Proof.
  intros Huuid Hnodup Hbudget Hitem newRecord.
  unfold App.addRecord, mbind, Async_bind, Date_now_toISOString. rewrite Huuid.
  exists (App.setActiveTab App.tab_home (App.setRecords (newRecord :: App.records s) s)).
  unfold mret, Async_ret. cbn [App.records App.setRecords App.setActiveTab App.activeTab].
  destruct (saveRecords_succeeds (newRecord :: App.records s) w1 Hbudget Hnodup)
    as [w2 Hsave].
  destruct (saveRecords_cases (newRecord :: App.records s) w1)
    as [(w3 & e & Hsave' & _)|(w3 & Hsave' & Hrec & _)]; [congruence|].
  assert (w3 = w2) as -> by congruence.
  assert ((map_to_list (idb_records w2)).*2 ≡ₚ newRecord :: App.records s) as Hstored.
  { rewrite Hrec. unfold keyed. rewrite <- list_fmap_compose. cbn. by rewrite list_fmap_id. }
  exists w2. split; [reflexivity|]. split; [reflexivity|]. split; [reflexivity|].
  split; [unfold App.saveEffect; cbn [length Nat.ltb Nat.leb]; by rewrite Hsave|].
  split; [exact Hstored|].
  intros s0. destruct (loadData_after_migration localStorage s0 w2 w2) as (s2 & Hload & Hrecords).
  { by rewrite Hitem. }
  exists s2. split; [exact Hload|].
  rewrite Hrecords, length_pos_nonempty; [exact Hstored|].
  intros Hnil. rewrite Hnil in Hstored. by apply Permutation_nil_l in Hstored.
Qed.
End LocalStorageLemmas.

Lemma loadData_restores_legacy_snapshot_witness :
  let legacy := [sample_record "r1" "legacy entry"] in
  let text := sample_stringify_records legacy in
  let localStorage : gmap string string := {[ "recordKeeper_records" := text ]} in
  (localStorage !! "recordKeeper_records" = Some text
   /\ text <> EmptyString
   /\ sample_parse_records text = Returns legacy
   /\ NoDup (RecordType.id <$> legacy)
   /\ idb_write_budget sample_old_world = None)
  /\ idb_records sample_old_world !! "r0" = Some (sample_record "r0" "Older entry")
  /\ exists w' s',
       App.loadData sample_parse_records localStorage (App.initial localStorage)
         sample_old_world = (w', Returns s')
       /\ (map_to_list (idb_records w')).*2 ≡ₚ legacy
       /\ (legacy <> [] -> App.records s' ≡ₚ legacy)
       /\ (forall r, idb_records w' !! RecordType.id r = Some r -> r ∈ legacy).
Proof.
  intros legacy text localStorage.
  assert (localStorage !! "recordKeeper_records" = Some text) as Hitem
    by apply lookup_singleton_eq.
  assert (text <> EmptyString) as Htext by discriminate.
  assert (sample_parse_records text = Returns legacy) as Hparse
    by apply sample_parse_stringify_records.
  assert (NoDup (RecordType.id <$> legacy)) as Hnodup by apply NoDup_singleton.
  assert (idb_write_budget sample_old_world = None) as Hbudget by reflexivity.
  split; [exact (conj Hitem (conj Htext (conj Hparse (conj Hnodup Hbudget))))|].
  split; [reflexivity|].
  exact (loadData_restores_legacy_snapshot sample_parse_records localStorage
           (App.initial localStorage) sample_old_world text legacy
           Hitem Htext Hparse Hnodup Hbudget).
Defined.

Lemma deleting_every_record_is_not_persisted_witness :
  let s := App.setRecords [sample_record "r0" "Older entry"] (App.initial ∅) in
  (App.records s <> []
   /\ (forall r, r ∈ App.records s -> RecordType.id r = "r0")
   /\ (map_to_list (idb_records sample_old_world)).*2 ≡ₚ App.records s
   /\ item_truthy ((∅ : gmap string string) !! "recordKeeper_records") = false)
  /\ App.records (App.deleteRecord "r0" s) = []
  /\ App.saveEffect sample_stringify_records (App.records (App.deleteRecord "r0" s))
       sample_old_world ∅ = (sample_old_world, ∅)
  /\ exists s2,
       App.loadData sample_parse_records ∅ (App.initial ∅) sample_old_world
       = (sample_old_world, Returns s2)
       /\ App.records s2 ≡ₚ [sample_record "r0" "Older entry"].
Proof.
  intros s.
  assert (App.records s <> []) as Hne by discriminate.
  assert (forall r, r ∈ App.records s -> RecordType.id r = "r0") as Hid.
  { intros r Hr. cbn in Hr. apply list_elem_of_singleton in Hr. by subst. }
  assert ((map_to_list (idb_records sample_old_world)).*2 ≡ₚ App.records s) as Hstored.
  { cbn. by rewrite map_to_list_singleton. }
  assert (item_truthy ((∅ : gmap string string) !! "recordKeeper_records") = false)
    as Hitem by reflexivity.
  split; [exact (conj Hne (conj Hid (conj Hstored Hitem)))|].
  destruct (deleting_every_record_is_not_persisted sample_parse_records
              sample_stringify_records "r0" s sample_old_world ∅
              Hne Hid Hstored Hitem) as (Hempty & Heffect & Hreload).
  split; [exact Hempty|]. split; [exact Heffect|]. exact (Hreload (App.initial ∅)).
Defined.

Lemma added_record_survives_reload_witness :
  let record := App.mkDraft "2025-01-02T10:00" "Missed exchange" ["MissedVisitation"]
                  None None (Some 3%Z) None in
  let s := App.setRecords [sample_record "r0" "Older entry"] (App.initial ∅) in
  let id := "000102030405060708090a0b0c0d0e0f" in
  (sample_randomUUID sample_old_world = (advance_csprng 16 sample_old_world, Returns id)
   /\ NoDup (id :: (RecordType.id <$> App.records s))
   /\ idb_write_budget (advance_csprng 16 sample_old_world) = None
   /\ item_truthy ((∅ : gmap string string) !! "recordKeeper_records") = false)
  /\ exists s1 w2,
       App.addRecord sample_randomUUID record s sample_old_world
       = (advance_csprng 16 sample_old_world, Returns s1)
       /\ (RecordType.id <$> App.records s1) = [id; "r0"]
       /\ App.saveEffect sample_stringify_records (App.records s1)
            (advance_csprng 16 sample_old_world) ∅ = (w2, ∅)
       /\ exists s2,
            App.loadData sample_parse_records ∅ (App.initial ∅) w2 = (w2, Returns s2)
            /\ App.records s2 ≡ₚ App.records s1.
Proof.
  intros record s id.
  assert (sample_randomUUID sample_old_world
          = (advance_csprng 16 sample_old_world, Returns id)) as Huuid by reflexivity.
  assert (NoDup (id :: (RecordType.id <$> App.records s))) as Hnodup.
  { apply NoDup_cons. split; [solve_not_listed|]. apply NoDup_singleton. }
  assert (idb_write_budget (advance_csprng 16 sample_old_world) = None) as Hbudget
    by reflexivity.
  assert (item_truthy ((∅ : gmap string string) !! "recordKeeper_records") = false)
    as Hitem by reflexivity.
  split; [exact (conj Huuid (conj Hnodup (conj Hbudget Hitem)))|].
  destruct (added_record_survives_reload sample_parse_records sample_stringify_records
              sample_randomUUID record s sample_old_world _ id ∅
              Huuid Hnodup Hbudget Hitem)
    as (s1 & w2 & Hadd & Hrecords & _ & Heffect & _ & Hreload).
  exists s1, w2. split; [exact Hadd|]. split; [by rewrite Hrecords|].
  split; [exact Heffect|]. exact (Hreload (App.initial ∅)).
Defined.

(** X10.  What "Clear All Data" clears.  Whatever the outcome,
    [handleClearData] removes the items 'recordKeeper_records',
    'recordKeeper_pin' and 'recordKeeper_lockEnabled' from
    [localStorage] and no other item, and leaves every setting of the
    database other than the pin and the lock flag as it was: the decoy
    pin, the user name and the welcome flag survive.  With a working
    back end the records store is empty afterwards, the pin is [null]
    and the lock flag is 'false'; with a back end that fails at once the
    database is untouched. *)
Theorem handleClearData_effect (w : World) (localStorage : gmap string string) :
  let w' := (SettingsScreen.handleClearData w localStorage).1 in
  let localStorage' := (SettingsScreen.handleClearData w localStorage).2 in
  (forall key, key <> "recordKeeper_pin" -> key <> "recordKeeper_lockEnabled" ->
     idb_settings w' !! key = idb_settings w !! key)
  /\ (forall key,
        localStorage' !! key
        = if decide (key ∈ ["recordKeeper_records"; "recordKeeper_pin";
                            "recordKeeper_lockEnabled"])
          then None else localStorage !! key)
  /\ (idb_write_budget w = None ->
      idb_records w' = ∅
      /\ idb_settings w' !! "recordKeeper_pin" = Some JSNull
      /\ idb_settings w' !! "recordKeeper_lockEnabled" = Some (JSString "false"))
  /\ (budget_spent (idb_write_budget w) = true -> w' = w).
Proof.
  intros w' localStorage'.
  assert (forall key,
            localStorage' !! key
            = if decide (key ∈ ["recordKeeper_records"; "recordKeeper_pin";
                                "recordKeeper_lockEnabled"])
              then None else localStorage !! key) as Hlocal.
  { intros key. unfold localStorage', SettingsScreen.handleClearData.
    match goal with |- context [let '(_, _) := ?run in _] => destruct run as [w1 outcome] end.
    cbn [snd]. case_decide as Hkey.
    - apply lookup_delete_None.
      destruct (decide ("recordKeeper_lockEnabled" = key)); [by left|right].
      apply lookup_delete_None.
      destruct (decide ("recordKeeper_pin" = key)); [by left|right].
      apply lookup_delete_None. left.
      repeat (apply elem_of_cons in Hkey as [->|Hkey]); try done.
      by apply elem_of_nil in Hkey.
    - rewrite !lookup_delete_ne; [reflexivity|..];
        intros <-; apply Hkey; repeat constructor. }
  unfold w', SettingsScreen.handleClearData, mbind, Async_bind.
  rewrite clearRecords_unfold. unfold saveSetting.
  destruct w as [recs sets budget tape pos clock].
  destruct budget as [[|[|[|n]]]|]; cbn; (split_and!; [|exact Hlocal|..]); try done;
    try (intros key Hpin Hlock; by rewrite ?lookup_insert_ne).
  intros _. split_and!; [done| |by rewrite lookup_insert_eq].
  rewrite lookup_insert_ne by done. by rewrite lookup_insert_eq.
Qed.

(* ================================================================== *)
(** * Lengths of the encodings *)
(* ================================================================== *)

Lemma string_length_append (s t : string) :
  String.length (s +:+ t) = String.length s + String.length t.
Proof.
  induction s as [|c s IH]; [reflexivity|].
  rewrite string_append_cons. cbn [String.length]. by rewrite IH.
Qed.

Lemma length_string_of_list_byte (bs : list byte) :
  String.length (string_of_list_byte bs) = length bs.
Proof. induction bs as [|b bs IH]; [reflexivity|]. cbn in *. f_equal. exact IH. Qed.

(** [btoa] writes four characters for every three, the last group
    padded. *)
Lemma length_btoa (binary : string) :
  String.length (btoa binary) = 4 * ((String.length binary + 2) / 3).
Proof.
  induction binary as [|a|a b|a b c rest IH] using string_ind3.
  - reflexivity.
  - by destruct a.
  - by destruct a, b.
  - change (btoa (String a (String b (String c rest))))
      with (base64_quad a b c +:+ btoa rest).
    rewrite string_length_append, IH.
    replace (String.length (base64_quad a b c)) with 4 by (by destruct a, b, c).
    cbn [String.length].
    replace (S (S (S (String.length rest))) + 2) with (String.length rest + 2 + 1 * 3) by lia.
    rewrite Nat.div_add by done. lia.
Qed.

Lemma length_arrayBufferToBase64 (buffer : list byte) :
  String.length (arrayBufferToBase64 buffer) = 4 * ((length buffer + 2) / 3).
Proof.
  by rewrite arrayBufferToBase64_btoa, length_btoa, length_string_of_list_byte.
Qed.

(* ================================================================== *)
(** * The JSON reader inverts the printer *)
(* ================================================================== *)

Lemma json_expect_append (expected text : string) :
  json_expect expected (expected +:+ text) = Some text.
Proof.
  induction expected as [|c expected IH]; [reflexivity|].
  rewrite string_append_cons. cbn [json_expect]. by rewrite Ascii.eqb_refl.
Qed.

(** The reader inverts the quoting of [JSON.stringify]. *)
Lemma json_read_string_escape (s after : string) :
  json_read_string (json_escape s +:+ String dquote after) = Some (s, after).
Proof.
  induction s as [|c s IH]; [reflexivity|].
  cbn [json_escape]. rewrite string_append_assoc.
  destruct c as [[] [] [] [] [] [] [] []];
    match goal with
    | |- context [json_escape_char ?c] =>
        let e := eval vm_compute in (json_escape_char c) in
        change (json_escape_char c) with e
    end;
    rewrite ?string_append_cons, ?string_append_nil_l;
    cbn; rewrite IH; reflexivity.
Qed.

Lemma json_read_number_stop (after : string) :
  starts_number after = false -> json_read_number after = (EmptyString, after).
Proof. destruct after as [|c after]; [done|]. cbn. by intros ->. Qed.

Lemma json_read_number_uint (d : Decimal.uint) (after : string) :
  starts_number after = false ->
  json_read_number (NilEmpty.string_of_uint d +:+ after)
  = (NilEmpty.string_of_uint d, after).
Proof.
  intros Hafter. induction d as [|d IH|d IH|d IH|d IH|d IH|d IH|d IH|d IH|d IH|d IH];
    cbn [NilEmpty.string_of_uint];
    [by apply json_read_number_stop|..];
    rewrite string_append_cons; cbn [json_read_number]; rewrite IH; reflexivity.
Qed.

Lemma json_read_number_int (n : Z) (after : string) :
  starts_number after = false ->
  json_read_number (NilZero.string_of_int (Z.to_int n) +:+ after)
  = (NilZero.string_of_int (Z.to_int n), after).
Proof.
  intros Hafter.
  assert (forall p, NilZero.string_of_uint (Pos.to_uint p)
                    = NilEmpty.string_of_uint (Pos.to_uint p)) as Huint.
  { intros p. pose proof (Unsigned.to_uint_nonnil p). by destruct (Pos.to_uint p). }
  destruct n as [|p|p]; cbn [Z.to_int NilZero.string_of_int].
  - change (NilZero.string_of_uint (Decimal.D0 Decimal.Nil))
      with (NilEmpty.string_of_uint (Decimal.D0 Decimal.Nil)).
    by rewrite json_read_number_uint.
  - by rewrite Huint, json_read_number_uint.
  - rewrite Huint, string_append_cons. cbn [json_read_number].
    by rewrite json_read_number_uint.
Qed.

Lemma json_number_value_int (n : Z) :
  json_number_value (NilZero.string_of_int (Z.to_int n)) = Some n.
Proof.
  unfold json_number_value. rewrite NilZero.isi.
  - cbn. by rewrite DecimalZ.of_to.
  - destruct n as [|p|p]; cbn; try discriminate.
    intros [= Hnil]. by apply Unsigned.to_uint_nonnil in Hnil.
  - destruct n as [|p|p]; cbn; try discriminate.
    intros [= Hnil]. by apply Unsigned.to_uint_nonnil in Hnil.
Qed.

(** The JSON text of an evidence record, member by member. *)
Lemma JSON_stringify_evidence_record (timestamp : Z) (type content tags : string)
    (attachments : option string) :
  JSON_stringify_object (evidence_record timestamp type content tags attachments)
  = evidence_open
    +:+ (NilZero.string_of_int (Z.to_int timestamp)
    +:+ (member_open "type"
    +:+ (json_escape type +:+ String dquote
    (member_open "content"
    +:+ (json_escape content +:+ String dquote
    (member_open "tags"
    +:+ (json_escape tags +:+ String dquote
    match attachments with
    | Some a => member_open "attachments" +:+ (json_escape a +:+ String dquote "}")
    | None => "}"
    end))))))).
Proof.
  unfold JSON_stringify_object, evidence_record, json_members, member_open, evidence_open.
  destruct attachments as [a|]; cbn [app omap json_of_value fmap option_fmap option_map
    fst snd string_join list_omap]; unfold json_quote;
    repeat first [rewrite string_append_assoc | rewrite string_append_cons
                 | rewrite string_append_nil_l];
    reflexivity.
Qed.

(** The reader inverts the printer on evidence records. *)
Lemma parse_evidence_record_stringify (timestamp : Z) (type content tags : string)
    (attachments : option string) :
  parse_evidence_record
    (JSON_stringify_object (evidence_record timestamp type content tags attachments))
  = Some (timestamp, type, content, tags, attachments).
Proof.
  rewrite JSON_stringify_evidence_record. unfold parse_evidence_record.
  rewrite json_expect_append. cbn [mbind option_bind].
  rewrite json_read_number_int by reflexivity.
  rewrite json_number_value_int. cbn [mbind option_bind].
  rewrite json_expect_append. cbn [mbind option_bind].
  rewrite json_read_string_escape. cbn [mbind option_bind].
  rewrite json_expect_append. cbn [mbind option_bind].
  rewrite json_read_string_escape. cbn [mbind option_bind].
  rewrite json_expect_append. cbn [mbind option_bind].
  rewrite json_read_string_escape. cbn [mbind option_bind].
  destruct attachments as [a|]; [|reflexivity].
  replace (String.eqb (member_open "attachments" +:+ _) "}") with false by reflexivity.
  rewrite json_expect_append. cbn [mbind option_bind].
  rewrite json_read_string_escape. reflexivity.
Qed.

Lemma JSON_stringify_envelope_members (e : EncryptedBackup.t) :
  JSON_stringify_envelope e
  = envelope_member_open true "version"
    +:+ (json_escape (EncryptedBackup.version e) +:+ String dquote
    (envelope_member_open false "salt"
    +:+ (json_escape (EncryptedBackup.salt e) +:+ String dquote
    (envelope_member_open false "iv"
    +:+ (json_escape (EncryptedBackup.iv e) +:+ String dquote
    (envelope_member_open false "data"
    +:+ (json_escape (EncryptedBackup.data e) +:+ String dquote
    (newline +:+ "}")))))))).
Proof.
  unfold JSON_stringify_envelope, envelope_member_open, json_quote, newline.
  repeat first [rewrite string_append_assoc | rewrite string_append_cons
               | rewrite string_append_nil_l];
  reflexivity.
Qed.

Lemma parse_envelope_stringify (e : EncryptedBackup.t) :
  parse_envelope (JSON_stringify_envelope e) = Some e.
Proof.
  rewrite JSON_stringify_envelope_members. unfold parse_envelope.
  rewrite json_expect_append. cbn [mbind option_bind].
  rewrite json_read_string_escape. cbn [mbind option_bind].
  rewrite json_expect_append. cbn [mbind option_bind].
  rewrite json_read_string_escape. cbn [mbind option_bind].
  rewrite json_expect_append. cbn [mbind option_bind].
  rewrite json_read_string_escape. cbn [mbind option_bind].
  rewrite json_expect_append. cbn [mbind option_bind].
  rewrite json_read_string_escape. cbn [mbind option_bind].
  rewrite String.eqb_refl. by destruct e.
Qed.

Lemma sample_parse_envelope_stringify (e : EncryptedBackup.t) :
  sample_parse_envelope (JSON_stringify_envelope e) = Returns e.
Proof. unfold sample_parse_envelope. by rewrite parse_envelope_stringify. Qed.

(* ================================================================== *)
(** * Backups: envelopes and files *)
(* ================================================================== *)

Section BackupExtras.
Context `{Platform}.

(** X11.  The envelope of [createBackup].  Whenever [createBackup]
    returns an envelope, the password has at least six characters, the
    envelope has version '1.0', a salt field of 24 characters that
    decodes to the 16 bytes drawn first, an iv field of 16 characters
    and a data field whose length is a multiple of four; the call has
    consumed 28 bytes of randomness and has left the database as it
    was. *)
Theorem createBackup_envelope_shape (password : string) (records : list RecordType.t)
    (w w' : World) (envelope : EncryptedBackup.t) :
  createBackup password records w = (w', Returns envelope) ->
  6 <= String.length password
  /\ EncryptedBackup.version envelope = "1.0"
  /\ String.length (EncryptedBackup.salt envelope) = 24
  /\ String.length (EncryptedBackup.iv envelope) = 16
  /\ String.length (EncryptedBackup.data envelope) mod 4 = 0
  /\ base64_decode (EncryptedBackup.salt envelope)
     = Some (string_of_list_byte (map (csprng_tape w) (seq (csprng_pos w) 16)))
  /\ idb_records w' = idb_records w
  /\ idb_settings w' = idb_settings w
  /\ idb_write_budget w' = idb_write_budget w
  /\ csprng_pos w' = csprng_pos w + 28.
Proof.
  intros (Hlen & -> & ->)%createBackup_returns.
  unfold sealed_backup, backup_draws. cbn [EncryptedBackup.version EncryptedBackup.salt
    EncryptedBackup.iv EncryptedBackup.data advance_csprng idb_records idb_settings
    idb_write_budget csprng_pos].
  rewrite !length_arrayBufferToBase64, !length_map, !length_seq.
  split_and!; try done.
  - by rewrite Nat.mul_comm, Nat.Div0.mod_mul.
  - by rewrite arrayBufferToBase64_btoa, base64_decode_btoa.
Qed.

(** X12.  The outcomes of [restoreBackup].  With the empty password
    it throws 'Password is required'.  With any other password it either
    returns what [JSON.parse] makes of the decrypted text (the three
    fields decode and the decryption succeeds), or throws one of the two
    errors of the catch clause: malformed base64 and malformed JSON are
    reported by the same two errors as a wrong password.  The version
    field of the envelope is never read. *)
Theorem restoreBackup_outcomes (password : string) (encryptedBackup : EncryptedBackup.t) :
  (password = EmptyString -> restoreBackup password encryptedBackup = Throws PasswordRequired)
  /\ (password <> EmptyString ->
      match restoreBackup password encryptedBackup with
      | Returns backupData =>
          exists salt iv encryptedData decryptedBuffer,
            base64ToArrayBuffer (EncryptedBackup.salt encryptedBackup) = Returns salt
            /\ base64ToArrayBuffer (EncryptedBackup.iv encryptedBackup) = Returns iv
            /\ base64ToArrayBuffer (EncryptedBackup.data encryptedBackup)
               = Returns encryptedData
            /\ subtle_decrypt (deriveKey password salt) iv encryptedData
               = Returns decryptedBuffer
            /\ JSON_parse (TextDecoder_decode decryptedBuffer) = Returns backupData
      | Throws error =>
          error = IncorrectPasswordOrCorrupted \/ error = RestoreFailed
      end)
  /\ (forall version,
        restoreBackup password (with_version version encryptedBackup)
        = restoreBackup password encryptedBackup).
Proof.
  split_and!.
  - intros ->. reflexivity.
  - intros Hpw. unfold restoreBackup.
    destruct (String.eqb_spec password EmptyString) as [?|_]; [done|].
    unfold try_catch.
    destruct (base64ToArrayBuffer (EncryptedBackup.salt encryptedBackup)) as [salt|e];
      cbn; [|destruct (_ && _); eauto].
    destruct (base64ToArrayBuffer (EncryptedBackup.iv encryptedBackup)) as [iv|e];
      cbn; [|destruct (_ && _); eauto].
    destruct (base64ToArrayBuffer (EncryptedBackup.data encryptedBackup)) as [data|e];
      cbn; [|destruct (_ && _); eauto].
    destruct (subtle_decrypt (deriveKey password salt) iv data) as [plain|e] eqn:Hdec;
      cbn; [|destruct (_ && _); eauto].
    destruct (JSON_parse (TextDecoder_decode plain)) as [d|e] eqn:Hparse;
      cbn; [|destruct (_ && _); eauto].
    exists salt, iv, data, plain. done.
  - reflexivity.
Qed.

Context `{!PlatformLaws}.

(** X13.  [restoreBackup] checks neither the version of the envelope
    nor the length of the password: a payload sealed under any non-empty
    password (one of a single character included), with any salt, nonce
    and version string, is opened by that password. *)
Theorem restoreBackup_opens_any_sealed_payload (password version : string)
    (salt iv : list byte) (backupData : BackupData.t) :
  password <> EmptyString ->
  restoreBackup password
    (EncryptedBackup.mk version (arrayBufferToBase64 salt) (arrayBufferToBase64 iv)
       (arrayBufferToBase64
          (subtle_encrypt (deriveKey password salt) iv
             (TextEncoder_encode (JSON_stringify backupData)))))
  = Returns backupData.
Proof.
  intros Hpw. rewrite restoreBackup_decoded by exact Hpw.
  rewrite subtle_decrypt_encrypt. cbn.
  by rewrite TextDecoder_decode_encode, JSON_parse_stringify.
Qed.

Variable JSON_parse_envelope : string -> Completion EncryptedBackup.t.

(** X14.  Backup files round-trip.  With a password of at least six
    characters [downloadBackup] writes the JSON text of the envelope
    that [createBackup] seals, under the file name passed in when that
    is a non-empty name; and [restoreFromFile] with the same password on
    that text returns the payload that was sealed.  ([JSON.parse] is
    assumed to read this text back.) *)
Theorem backup_file_roundtrip (password : string) (records : list RecordType.t)
    (filename : option string) (today : Z * Z * Z) (w : World) :
  6 <= String.length password ->
  JSON_parse_envelope (JSON_stringify_envelope (sealed_backup password records w))
  = Returns (sealed_backup password records w) ->
  exists download,
    downloadBackup password records filename today w
    = (advance_csprng 28 w,
       Returns (download, JSON_stringify_envelope (sealed_backup password records w)))
    /\ (forall name, filename = Some name -> name <> EmptyString -> download = name)
    /\ restoreFromFile JSON_parse_envelope password
         (Some (JSON_stringify_envelope (sealed_backup password records w)))
       = Returns (backup_payload records w).
Proof.
  intros Hlen Hparse. unfold downloadBackup, mbind, Async_bind.
  rewrite createBackup_succeeds by exact Hlen. destruct today as [[fullYear month] date].
  eexists. split; [reflexivity|]. split.
  - intros name -> Hname. cbn. by destruct (String.eqb_spec name EmptyString).
  - unfold restoreFromFile. rewrite Hparse. cbn [mbind Completion_bind].
    unfold sealed_backup, backup_draws.
    rewrite restoreBackup_decoded by (intros ->; cbn in Hlen; lia).
    rewrite subtle_decrypt_encrypt. cbn.
    by rewrite TextDecoder_decode_encode, JSON_parse_stringify.
Qed.
End BackupExtras.

Lemma createBackup_envelope_shape_witness :
  let P := sample_platform browser_failure_message in
  let records := [sample_record "r1" "Incident at pickup"] in
  let envelope := @sealed_backup P "correct-horse" records sample_world in
  @createBackup P "correct-horse" records sample_world
    = (advance_csprng 28 sample_world, Returns envelope)
  /\ EncryptedBackup.version envelope = "1.0"
  /\ EncryptedBackup.salt envelope = "AAECAwQFBgcICQoLDA0ODw=="
  /\ EncryptedBackup.iv envelope = "EBESExQVFhcYGRob"
  /\ String.length (EncryptedBackup.data envelope) mod 4 = 0.
Proof.
  intros P records envelope.
  pose proof (@createBackup_succeeds P "correct-horse" records sample_world
                ltac:(cbn; lia)) as Hcreate.
  split; [exact Hcreate|].
  destruct (@createBackup_envelope_shape P "correct-horse" records sample_world _ _
              Hcreate) as (_ & Hversion & _ & _ & Hdata & _).
  split; [exact Hversion|]. split; [reflexivity|]. split; [reflexivity|]. exact Hdata.
Defined.

Lemma restoreBackup_opens_any_sealed_payload_witness :
  let P := sample_platform browser_failure_message in
  "x" <> EmptyString
  /\ @restoreBackup P "x"
       (EncryptedBackup.mk "0.1" (arrayBufferToBase64 []) (arrayBufferToBase64 [])
          (arrayBufferToBase64
             (@subtle_encrypt P (@deriveKey P "x" []) []
                (TextEncoder_encode (@JSON_stringify P sample_foreign_backup)))))
     = Returns sample_foreign_backup.
Proof.
  intros P.
  assert ("x" <> EmptyString) as Hpw by discriminate.
  split; [exact Hpw|].
  exact (@restoreBackup_opens_any_sealed_payload P (sample_platform_laws _)
           "x" "0.1" [] [] sample_foreign_backup Hpw).
Defined.

Lemma backup_file_roundtrip_witness :
  let P := sample_platform browser_failure_message in
  let records := [sample_record "r1" "Incident at pickup"] in
  let envelope := @sealed_backup P "correct-horse" records sample_world in
  (6 <= String.length "correct-horse"
   /\ sample_parse_envelope (JSON_stringify_envelope envelope) = Returns envelope)
  /\ exists download,
       @downloadBackup P "correct-horse" records None (2025, 0, 7)%Z sample_world
       = (advance_csprng 28 sample_world,
          Returns (download, JSON_stringify_envelope envelope))
       /\ @restoreFromFile P sample_parse_envelope "correct-horse"
            (Some (JSON_stringify_envelope envelope))
          = Returns (backup_payload records sample_world).
Proof.
  intros P records envelope.
  assert (6 <= String.length "correct-horse") as Hlen by (cbn; lia).
  pose proof (sample_parse_envelope_stringify envelope) as Hparse.
  split; [exact (conj Hlen Hparse)|].
  destruct (@backup_file_roundtrip P (sample_platform_laws _) sample_parse_envelope
              "correct-horse" records None (2025, 0, 7)%Z sample_world Hlen Hparse)
    as (download & Hdownload & _ & Hrestore).
  exists download. exact (conj Hdownload Hrestore).
Defined.

(* ================================================================== *)
(** * The cloud copy: encryption and transport *)
(* ================================================================== *)

Lemma sample_parse_stringify_sync (data : SyncData.t) :
  sample_parse_sync (sample_stringify_sync data) = Returns data.
Proof.
  unfold sample_parse_sync, sample_stringify_sync.
  by rewrite string_to_positive_to_string, decode_encode.
Qed.

Section CloudSyncCryptoLemmas.
Context `{Platform} `{!PlatformLaws}.
Variable JSON_stringify_sync : SyncData.t -> string.
Variable JSON_parse_sync : string -> Completion SyncData.t.

Lemma decryptData_combined (salt iv data : list byte) (userId : string) :
  length salt = 16 -> length iv = 12 ->
  decryptData JSON_parse_sync (arrayBufferToBase64 (salt ++ iv ++ data)) userId
  = (decryptedBuffer ← subtle_decrypt
         (subtle_deriveKey (TextEncoder_encode userId) salt 100000) iv data;
     JSON_parse_sync (TextDecoder_decode decryptedBuffer)).
Proof.
  intros Hsalt Hiv. unfold decryptData.
  rewrite base64ToArrayBuffer_arrayBufferToBase64. cbn [mbind Completion_bind].
  replace (take 16 (salt ++ iv ++ data)) with salt
    by (by rewrite take_app_length').
  replace (drop 16 (salt ++ iv ++ data)) with (iv ++ data)
    by (by rewrite drop_app_length').
  replace (take 12 (iv ++ data)) with iv by (by rewrite take_app_length').
  replace (drop 28 (salt ++ iv ++ data)) with data; [reflexivity|].
  rewrite app_assoc. rewrite drop_app_length'; [reflexivity|].
  rewrite length_app. lia.
Qed.

Lemma encryptData_draws (data : SyncData.t) (userId : string) (w : World) :
  encryptData JSON_stringify_sync data userId w
  = (advance_csprng 28 w,
     Returns (arrayBufferToBase64
                ((backup_draws w).1 ++ (backup_draws w).2
                 ++ subtle_encrypt
                      (subtle_deriveKey (TextEncoder_encode userId) (backup_draws w).1 100000)
                      (backup_draws w).2
                      (TextEncoder_encode (JSON_stringify_sync data))))).
Proof.
  unfold encryptData, mbind, Async_bind, getRandomValues, mret, Async_ret, advance_csprng,
    backup_draws.
  cbn [idb_records idb_settings idb_write_budget csprng_tape csprng_pos clock_iso fst snd].
  rewrite <- Nat.add_assoc. reflexivity.
Qed.

Lemma backup_draws_lengths (w : World) :
  length (backup_draws w).1 = 16 /\ length (backup_draws w).2 = 12.
Proof. unfold backup_draws. cbn [fst snd]. by rewrite !length_map, !length_seq. Qed.

(** A blob sealed under a user id is opened by that user id. *)
Lemma decryptData_sealed (data : SyncData.t) (userId : string) (salt iv : list byte) :
  length salt = 16 -> length iv = 12 ->
  JSON_parse_sync (JSON_stringify_sync data) = Returns data ->
  decryptData JSON_parse_sync
    (arrayBufferToBase64
       (salt ++ iv
        ++ subtle_encrypt (subtle_deriveKey (TextEncoder_encode userId) salt 100000) iv
             (TextEncoder_encode (JSON_stringify_sync data)))) userId
  = Returns data.
Proof.
  intros Hsalt Hiv Hjson. rewrite decryptData_combined by done.
  rewrite subtle_decrypt_encrypt. cbn [mbind Completion_bind].
  by rewrite TextDecoder_decode_encode.
Qed.

(** X16.  The blob of the cloud copy round-trips under the user id.
    [encryptData] never fails and consumes 28 bytes of randomness (the
    salt, then the nonce); [decryptData] with the same user id returns
    the data that was encrypted.  ([JSON.parse] is assumed to read back
    the text that [JSON.stringify] wrote for this data.) *)
Theorem cloud_blob_roundtrip (data : SyncData.t) (userId : string) (w : World) :
  JSON_parse_sync (JSON_stringify_sync data) = Returns data ->
  exists blob,
    encryptData JSON_stringify_sync data userId w = (advance_csprng 28 w, Returns blob)
    /\ decryptData JSON_parse_sync blob userId = Returns data.
Proof.
  intros Hjson. rewrite encryptData_draws. eexists. split; [reflexivity|].
  destruct (backup_draws_lengths w) as [Hsalt Hiv]. by apply decryptData_sealed.
Qed.

(** X17.  The user id is the only key material of the cloud blob:
    [decryptData] with any other user id rejects (under idealised PBKDF2
    and AES-GCM). *)
Theorem cloud_blob_needs_user_id `{!IdealCrypto} (data : SyncData.t)
    (userId other : string) (w w' : World) (blob : string) :
  encryptData JSON_stringify_sync data userId w = (w', Returns blob) ->
  other <> userId ->
  exists e, decryptData JSON_parse_sync blob other = Throws e.
Proof.
  destruct (backup_draws_lengths w) as [Hsalt Hiv].
  rewrite encryptData_draws. remember (backup_draws w) as draws eqn:Hdraws.
  intros [= _ Hblob] Hother. subst blob.
  rewrite decryptData_combined by done.
  destruct (subtle_decrypt _ _ (subtle_encrypt _ _ _)) as [plain|e] eqn:Hdec;
    [|by eexists].
  apply subtle_decrypt_authentic in Hdec as [Hkey _].
  apply subtle_deriveKey_injective in Hkey as [Hid _].
  by apply TextEncoder_encode_injective in Hid.
Qed.
End CloudSyncCryptoLemmas.

Lemma cloud_blob_roundtrip_witness :
  let P := sample_platform browser_failure_message in
  sample_parse_sync (sample_stringify_sync sample_sync_data) = Returns sample_sync_data
  /\ exists blob,
       @encryptData P sample_stringify_sync sample_sync_data "user-1" sample_world
       = (advance_csprng 28 sample_world, Returns blob)
       /\ @decryptData P sample_parse_sync blob "user-1" = Returns sample_sync_data.
Proof.
  intros P.
  pose proof (sample_parse_stringify_sync sample_sync_data) as Hjson.
  split; [exact Hjson|].
  exact (@cloud_blob_roundtrip P (sample_platform_laws _) sample_stringify_sync
           sample_parse_sync sample_sync_data "user-1" sample_world Hjson).
Defined.

Lemma cloud_blob_needs_user_id_witness :
  let P := sample_platform browser_failure_message in
  let run := @encryptData P sample_stringify_sync sample_sync_data "user-1" sample_world in
  (exists blob, run = (advance_csprng 28 sample_world, Returns blob)
                /\ "user-2" <> "user-1"
                /\ exists e, @decryptData P sample_parse_sync blob "user-2" = Throws e).
Proof.
  intros P run.
  pose proof (@encryptData_draws P sample_stringify_sync sample_sync_data "user-1"
                sample_world) as Hrun.
  eexists. split; [exact Hrun|].
  assert ("user-2" <> "user-1") as Hother by discriminate.
  split; [exact Hother|].
  exact (@cloud_blob_needs_user_id P (sample_platform_laws _) sample_stringify_sync
           sample_parse_sync (sample_platform_ideal _) sample_sync_data
           "user-1" "user-2" sample_world _ _ Hrun Hother).
Defined.

Lemma Returns_inj {A} (a b : A) : Returns a = Returns b -> a = b.
Proof. by intros [=]. Qed.

Section CloudTransportLemmas.
Context `{Platform} `{!PlatformLaws}.
Variable JSON_stringify_sync : SyncData.t -> string.
Variable JSON_parse_sync : string -> Completion SyncData.t.
Variable supabaseConfigured : bool.
Variable getCurrentUser : Async (option string).
Variable upsert : UserDataRow.t -> Async (option string).
Variable select_single : string -> Async (option string * option (string * string)).

Local Abbreviation upload :=
  (uploadToCloud JSON_stringify_sync supabaseConfigured getCurrentUser upsert).
Local Abbreviation download :=
  (downloadFromCloud JSON_parse_sync supabaseConfigured getCurrentUser select_single).

(** X19.  Neither [uploadToCloud] nor [downloadFromCloud] rejects:
    every failure, a thrown one included, comes back in the [error]
    field of the result.  A successful upload carries no error, and a
    download that carries data carries no error.  Without a configured
    client both return 'Cloud sync not configured' and touch nothing. *)
Theorem cloud_transport_reports_errors_in_band (records : list RecordType.t) (w : World) :
  (exists w' result, upload records w = (w', Returns result)
                     /\ (result.1 = true -> result.2 = None))
  /\ (exists w' result, download w = (w', Returns result)
                        /\ (is_Some result.1 -> result.2 = None))
  /\ (supabaseConfigured = false ->
      upload records w = (w, Returns (false, Some "Cloud sync not configured"))
      /\ download w = (w, Returns (None, Some "Cloud sync not configured"))).
Proof.
  split_and!.
  - unfold uploadToCloud. destruct supabaseConfigured; cbn [negb]; [|in_band].
    unfold try_catch_async, mbind, Async_bind.
    destruct (getCurrentUser w) as [w1 [[userId|]|e]]; try in_band.
    unfold getSetting, Date_now_toISOString.
    rewrite encryptData_draws.
    destruct (upsert _ _) as [w3 [[message|]|e]]; in_band.
  - unfold downloadFromCloud. destruct supabaseConfigured; cbn [negb]; [|in_band].
    unfold try_catch_async, mbind, Async_bind.
    destruct (getCurrentUser w) as [w1 [[userId|]|e]]; try in_band.
    destruct (select_single userId w1) as [w2 [[data [[code message]|]]|e]];
      try in_band.
    + destruct (String.eqb code "PGRST116"); in_band.
    + destruct (negb (item_truthy data)); [in_band|].
      unfold Async_lift. destruct (decryptData _ _ _); in_band.
  - intros Hoff. unfold uploadToCloud, downloadFromCloud. by rewrite Hoff.
Qed.

(** X20.  The uploaded row is opened by its own [user_id] column.
    With a signed-in user [uploadToCloud] hands to [upsert] a row that
    holds the user id in clear beside the blob, and [decryptData] of the
    blob under that column returns the snapshot: the records passed in,
    the four stored settings and the time of the call.  The upload
    reports success exactly when the server reports no error.  A later
    [downloadFromCloud] of the same user that is served this blob
    returns the same snapshot. *)
Theorem uploaded_row_opens_with_its_user_id (records : list RecordType.t)
    (userId : string) (w w1 : World) :
  supabaseConfigured = true ->
  getCurrentUser w = (w1, Returns (Some userId)) ->
  let syncData :=
    SyncData.mk SYNC_VERSION (clock_iso w1) records (stored_sync_settings w1) in
  JSON_parse_sync (JSON_stringify_sync syncData) = Returns syncData ->
  exists row,
    upload records w
    = match upsert row (advance_csprng 28 w1) with
      | (w2, Returns None) => (w2, Returns (true, None))
      | (w2, Returns (Some message)) => (w2, Returns (false, Some message))
      | (w2, Throws _) => (w2, Returns (false, Some "Failed to upload to cloud"))
      end
    /\ UserDataRow.user_id row = userId
    /\ decryptData JSON_parse_sync (UserDataRow.encrypted_data row)
         (UserDataRow.user_id row) = Returns syncData
    /\ (forall v v1 v2,
          getCurrentUser v = (v1, Returns (Some userId)) ->
          select_single userId v1
          = (v2, Returns (Some (UserDataRow.encrypted_data row), None)) ->
          download v = (v2, Returns (Some syncData, None))).
Proof.
  intros Hon Huser syncData Hjson.
  assert (exists blob,
            encryptData JSON_stringify_sync syncData userId w1
            = (advance_csprng 28 w1, Returns blob)
            /\ decryptData JSON_parse_sync blob userId = Returns syncData)
    as (blob & Hencrypt & Hdecrypt).
  { rewrite encryptData_draws. eexists. split; [reflexivity|].
    destruct (backup_draws_lengths w1) as [Hsalt Hiv]. by apply decryptData_sealed. }
  exists (UserDataRow.mk userId blob (clock_iso w1) (clock_iso w1)).
  split_and!; [|reflexivity|exact Hdecrypt|].
  - unfold uploadToCloud. rewrite Hon. cbn [negb].
    unfold try_catch_async, mbind, Async_bind. rewrite Huser.
    unfold getSetting, Date_now_toISOString.
    fold (stored_sync_settings w1). fold syncData. rewrite Hencrypt.
    cbn [clock_iso advance_csprng].
    by destruct (upsert _ _) as [w3 [[message|]|e]].
  - intros v v1 v2 Hsigned Hselect. cbn [UserDataRow.encrypted_data] in *.
    assert (String.eqb blob EmptyString = false) as Hblob.
    { rewrite encryptData_draws in Hencrypt.
      destruct (backup_draws_lengths w1) as [Hsalt _].
      remember (backup_draws w1) as draws eqn:Hdraws.
      apply (f_equal snd) in Hencrypt. cbn [snd] in Hencrypt.
      apply Returns_inj in Hencrypt. subst blob.
      apply String.eqb_neq. intros Hempty.
      apply (f_equal String.length) in Hempty.
      rewrite length_arrayBufferToBase64, !length_app, Hsalt in Hempty.
      cbn [String.length] in Hempty.
      assert (1 <= (16 + (length draws.2 + length
                (subtle_encrypt
                   (subtle_deriveKey (TextEncoder_encode userId) draws.1 100000)
                   draws.2 (TextEncoder_encode (JSON_stringify_sync syncData)))) + 2) / 3);
        [|lia].
      apply Nat.div_le_lower_bound; lia. }
    unfold downloadFromCloud. rewrite Hon. cbn [negb].
    unfold try_catch_async, mbind, Async_bind. rewrite Hsigned, Hselect.
    cbn [item_truthy default from_option id]. rewrite Hblob. cbn [negb].
    unfold Async_lift. by rewrite Hdecrypt.
Qed.
End CloudTransportLemmas.

Lemma uploaded_row_opens_with_its_user_id_witness :
  let P := sample_platform browser_failure_message in
  let records := [sample_record "r1" "Incident at pickup"] in
  let select_single (userId : string)
        : Async (option string * option (string * string)) := mret (None, None) in
  let syncData :=
    SyncData.mk SYNC_VERSION (clock_iso sample_old_world) records
      (stored_sync_settings sample_old_world) in
  (true = true
   /\ sample_getCurrentUser sample_old_world = (sample_old_world, Returns (Some "user-1"))
   /\ sample_parse_sync (sample_stringify_sync syncData) = Returns syncData)
  /\ exists row,
       @uploadToCloud P sample_stringify_sync true sample_getCurrentUser sample_upsert
         records sample_old_world
       = (advance_csprng 28 sample_old_world, Returns (true, None))
       /\ UserDataRow.user_id row = "user-1"
       /\ @decryptData P sample_parse_sync (UserDataRow.encrypted_data row)
            (UserDataRow.user_id row) = Returns syncData.
Proof.
  intros P records select_single syncData.
  assert (sample_getCurrentUser sample_old_world
          = (sample_old_world, Returns (Some "user-1"))) as Huser by reflexivity.
  pose proof (sample_parse_stringify_sync syncData) as Hjson.
  split; [exact (conj eq_refl (conj Huser Hjson))|].
  destruct (@uploaded_row_opens_with_its_user_id P (sample_platform_laws _)
              sample_stringify_sync sample_parse_sync true sample_getCurrentUser
              sample_upsert select_single records "user-1" sample_old_world
              sample_old_world eq_refl Huser Hjson)
    as (row & Hupload & Hid & Hopens & _).
  exists row. split; [exact Hupload|]. exact (conj Hid Hopens).
Defined.

(* ================================================================== *)
(** * [applySyncData] and [sync] *)
(* ================================================================== *)

Lemma applySyncData_body (syncData : SyncData.t) (w : World) :
  (saveRecords (SyncData.records syncData);;
   restoreSettings (backup_entries (backup_of_sync syncData))) w
  = (let settings := SyncData.settings syncData in
     saveRecords (SyncData.records syncData);;
     restoreSetting "recordKeeper_pin" (SyncSettings.pin settings);;
     restoreSetting "recordKeeper_decoyPin" (SyncSettings.decoyPin settings);;
     restoreSetting "recordKeeper_lockEnabled" (SyncSettings.lockEnabled settings);;
     restoreSetting "recordKeeper_userName" (SyncSettings.userName settings);;
     mret tt) w.
Proof.
  unfold backup_entries, backup_of_sync.
  cbn [restoreSettings BackupData.settings BackupSettings.pin BackupSettings.decoyPin
       BackupSettings.lockEnabled BackupSettings.userName BackupSettings.welcomeCompleted].
  unfold mbind, Async_bind.
  destruct (saveRecords _ w) as [w1 [[]|e]]; [|reflexivity].
  destruct (restoreSetting _ _ w1) as [w2 [[]|e]]; [|reflexivity].
  destruct (restoreSetting _ _ w2) as [w3 [[]|e]]; [|reflexivity].
  destruct (restoreSetting _ _ w3) as [w4 [[]|e]]; [|reflexivity].
  destruct (restoreSetting _ _ w4) as [w5 [[]|e]]; reflexivity.
Qed.

(** X18.  [applySyncData] does what [applyBackup] does with the same
    records and the four settings of the snapshot, except that every
    failure is reported as 'Failed to apply sync data'.  So a falsy
    setting of the snapshot leaves the stored one unchanged, and the
    welcome flag is never written. *)
Theorem applySyncData_as_applyBackup (syncData : SyncData.t) (w : World) :
  applySyncData syncData w
  = match applyBackup (backup_of_sync syncData) w with
    | (w', Returns _) => (w', Returns tt)
    | (w', Throws _) => (w', Throws SyncApplyFailed)
    end
  /\ (forall key,
        js_truthy (backup_setting (backup_of_sync syncData) key) = false ->
        idb_settings (applySyncData syncData w).1 !! key = idb_settings w !! key)
  /\ idb_settings (applySyncData syncData w).1 !! "recordKeeper_welcomeCompleted"
     = idb_settings w !! "recordKeeper_welcomeCompleted".
Proof.
  assert (applySyncData syncData w
          = match applyBackup (backup_of_sync syncData) w with
            | (w', Returns _) => (w', Returns tt)
            | (w', Throws _) => (w', Throws SyncApplyFailed)
            end) as Heq.
  { rewrite applyBackup_unfold. unfold applySyncData, try_catch_async.
    rewrite <- applySyncData_body.
    change (BackupData.records (backup_of_sync syncData))
      with (SyncData.records syncData).
    by destruct ((saveRecords (SyncData.records syncData)
                  ≫= fun _ => restoreSettings (backup_entries (backup_of_sync syncData))) w)
      as [w' [[]|e]]. }
  assert (forall key,
            js_truthy (backup_setting (backup_of_sync syncData) key) = false ->
            idb_settings (applySyncData syncData w).1 !! key = idb_settings w !! key)
    as Hframe.
  { intros key Hfalsy.
    assert ((applySyncData syncData w).1
            = ((saveRecords (SyncData.records syncData);;
                restoreSettings (backup_entries (backup_of_sync syncData))) w).1) as ->.
    { rewrite Heq, applyBackup_unfold. unfold try_catch_async.
      change (BackupData.records (backup_of_sync syncData))
        with (SyncData.records syncData).
      by destruct ((saveRecords (SyncData.records syncData)
                    ≫= fun _ => restoreSettings (backup_entries (backup_of_sync syncData))) w)
        as [w' [[]|e]]. }
    unfold mbind, Async_bind.
    destruct (saveRecords_cases (SyncData.records syncData) w)
      as [(w1 & e & -> & _ & Hset)|(w1 & -> & _ & Hset & _)]; cbn [fst].
    - by rewrite Hset.
    - destruct (restoreSettings_frame (backup_entries (backup_of_sync syncData)) w1)
        as [_ Hkeys].
      destruct (restoreSettings _ w1) as [w2 [[]|e]]; cbn [fst] in *;
        (destruct (Hkeys key) as [Hsame|(value & Hin & Hvalue & _)];
         [by rewrite Hsame, Hset|];
         apply backup_entries_setting in Hin; congruence). }
  split; [exact Heq|]. split; [exact Hframe|]. by apply Hframe.
Qed.

(** X21.  What the merged list of [sync] holds.  Its ids are exactly
    the ids of the local and of the cloud records; each of its records
    is a local or a cloud record; it starts with the local records in
    their order, and is no longer than both lists together.  Merging
    into no local records gives the cloud records, and merging no cloud
    records gives the local ones. *)
Theorem mergeRecords_covers_both_sides (localRecords cloudRecords : list RecordType.t) :
  let merged := mergeRecords localRecords cloudRecords in
  (forall id, id ∈ RecordType.id <$> merged
              <-> id ∈ RecordType.id <$> localRecords
                  \/ id ∈ RecordType.id <$> cloudRecords)
  /\ (forall r, r ∈ merged -> r ∈ localRecords \/ r ∈ cloudRecords)
  /\ take (length localRecords) merged = localRecords
  /\ length localRecords <= length merged <= length localRecords + length cloudRecords
  /\ mergeRecords [] cloudRecords = cloudRecords
  /\ mergeRecords localRecords [] = localRecords.
Proof.
  intros merged. unfold merged. rewrite !mergeRecords_closed_form.
  split_and!.
  - intros id. rewrite fmap_app, elem_of_app. split.
    + intros [Hlocal|Hcloud]; [by left|right].
      apply list_elem_of_fmap in Hcloud as (r & -> & [_ Hr]%list_elem_of_filter).
      apply list_elem_of_fmap. eauto.
    + intros [Hlocal|Hcloud]; [by left|].
      destruct (decide (id ∈ RecordType.id <$> localRecords)) as [Hin|Hout]; [by left|].
      right. apply list_elem_of_fmap in Hcloud as (r & -> & Hr).
      apply list_elem_of_fmap. exists r. split; [reflexivity|].
      by apply list_elem_of_filter.
  - intros r [Hlocal|[_ Hcloud]%list_elem_of_filter]%elem_of_app; [by left|by right].
  - by rewrite take_app_length.
  - rewrite length_app. lia.
  - rewrite length_app. pose proof (length_filter
      (fun r => RecordType.id r ∉ RecordType.id <$> localRecords) cloudRecords). lia.
  - cbn. induction cloudRecords as [|r rest IH]; [reflexivity|].
    rewrite filter_cons, decide_True by (cbn; apply not_elem_of_nil). by rewrite IH.
  - by rewrite filter_nil, app_nil_r.
Qed.

Lemma mergeRecords_NoDup (localRecords cloudRecords : list RecordType.t) :
  NoDup (RecordType.id <$> localRecords) ->
  NoDup (RecordType.id <$> cloudRecords) ->
  NoDup (RecordType.id <$> mergeRecords localRecords cloudRecords).
Proof.
  intros Hlocal Hcloud. rewrite mergeRecords_closed_form, fmap_app.
  apply NoDup_app. split; [exact Hlocal|]. split.
  - intros id Hin (r & -> & [Hr _]%list_elem_of_filter)%list_elem_of_fmap. done.
  - clear Hlocal. induction cloudRecords as [|r rest IH]; [constructor|].
    apply NoDup_cons in Hcloud as [Hr Hrest]. rewrite filter_cons.
    case_decide; [|by apply IH]. cbn. apply NoDup_cons. split; [|by apply IH].
    intros (r' & Hid & [_ Hr']%list_elem_of_filter)%list_elem_of_fmap.
    apply Hr. rewrite Hid. apply list_elem_of_fmap. eauto.
Qed.

Section SyncLemmas.
Variable downloadFromCloud : Async (option SyncData.t * option string).
Variable uploadToCloud : list RecordType.t -> Async (bool * option string).

(** X22.  [sync] never rejects: every run delivers a result, and a
    result that reports success carries no error.  A download that
    throws gives 'Sync failed'; a download that reports an error gives
    that error, nothing being stored or uploaded.  When the cloud holds
    no records the local records are uploaded as they are, and the
    result is that of the upload ('Sync failed' if it throws). *)
Theorem sync_outcomes (localRecords : list RecordType.t) (w : World) :
  (exists w' result, sync downloadFromCloud uploadToCloud localRecords w = (w', Returns result)
                     /\ (result.1 = true -> result.2 = None))
  /\ (forall w1 e, downloadFromCloud w = (w1, Throws e) ->
        sync downloadFromCloud uploadToCloud localRecords w = (w1, Returns (false, Some "Sync failed")))
  /\ (forall w1 cloudData message,
        downloadFromCloud w = (w1, Returns (cloudData, Some message)) ->
        message <> EmptyString ->
        sync downloadFromCloud uploadToCloud localRecords w = (w1, Returns (false, Some message)))
  /\ (forall w1 cloudData downloadError,
        downloadFromCloud w = (w1, Returns (cloudData, downloadError)) ->
        error_present downloadError = false ->
        cloud_has_data cloudData = false ->
        sync downloadFromCloud uploadToCloud localRecords w
        = match uploadToCloud localRecords w1 with
          | (w2, Returns (true, _)) => (w2, Returns (true, None))
          | (w2, Returns (false, uploadError)) => (w2, Returns (false, uploadError))
          | (w2, Throws _) => (w2, Returns (false, Some "Sync failed"))
          end).
Proof.
  split_and!.
  - unfold sync, try_catch_async, mbind, Async_bind.
    destruct (downloadFromCloud w) as [w1 [[cloudData downloadError]|e]]; [|in_band].
    destruct (error_present downloadError); [in_band|].
    match goal with |- context [match ?run w1 with _ => _ end] =>
      destruct (run w1) as [w2 [[]|e]] end; [|in_band].
    destruct (uploadToCloud _ w2) as [w3 [[[] uploadError]|e]]; in_band.
  - intros w1 e Hdownload. unfold sync, try_catch_async, mbind, Async_bind.
    by rewrite Hdownload.
  - intros w1 cloudData message Hdownload Hmessage.
    unfold sync, try_catch_async, mbind, Async_bind. rewrite Hdownload.
    cbn [error_present]. by destruct (String.eqb_spec message EmptyString).
  - intros w1 cloudData downloadError Hdownload Herror Hcloud.
    unfold sync, try_catch_async, mbind, Async_bind.
    rewrite Hdownload, Herror, Hcloud.
    assert (recordsToUpload localRecords cloudData = localRecords) as ->.
    { unfold recordsToUpload, cloud_has_data in *. destruct cloudData as [d|]; [|done].
      by rewrite Hcloud. }
    unfold mret, Async_ret.
    by destruct (uploadToCloud localRecords w1) as [w2 [[[] uploadError]|e]].
Qed.

(** X23.  Records that share an id make [sync] fail.  If the merged
    list holds an id twice (two cloud records, or two local records,
    with the same id), the write of the merge is refused, [sync] returns
    'Sync failed', nothing is uploaded and the database is as it was
    after the download. *)
Theorem sync_fails_on_duplicate_ids (localRecords : list RecordType.t)
    (cloudData : SyncData.t) (w w1 : World) :
  downloadFromCloud w = (w1, Returns (Some cloudData, None)) ->
  SyncData.records cloudData <> [] ->
  ~ NoDup (RecordType.id <$> mergeRecords localRecords (SyncData.records cloudData)) ->
  exists w2,
    sync downloadFromCloud uploadToCloud localRecords w = (w2, Returns (false, Some "Sync failed"))
    /\ idb_records w2 = idb_records w1
    /\ idb_settings w2 = idb_settings w1.
Proof.
  intros Hdownload Hcloud Hdup.
  destruct (saveRecords_duplicate_ids _ w1 Hdup) as (w2 & e & Hsave & Hrec & Hset).
  exists w2. split; [|done].
  unfold sync, try_catch_async, mbind, Async_bind. rewrite Hdownload.
  cbn [error_present].
  assert (cloud_has_data (Some cloudData) = true) as ->.
  { unfold cloud_has_data. by destruct (SyncData.records cloudData). }
  assert (recordsToUpload localRecords (Some cloudData)
          = mergeRecords localRecords (SyncData.records cloudData)) as ->.
  { unfold recordsToUpload. by destruct (SyncData.records cloudData). }
  by rewrite Hsave.
Qed.

(** X24.  With pairwise distinct ids on each side and a working back
    end, the merged list has pairwise distinct ids, [sync] stores
    exactly the merged records in the database, and its result is that
    of the upload of the merged list. *)
Theorem sync_stores_merge_of_distinct_ids (localRecords : list RecordType.t)
    (cloudData : SyncData.t) (w w1 : World) :
  downloadFromCloud w = (w1, Returns (Some cloudData, None)) ->
  SyncData.records cloudData <> [] ->
  NoDup (RecordType.id <$> localRecords) ->
  NoDup (RecordType.id <$> SyncData.records cloudData) ->
  idb_write_budget w1 = None ->
  let merged := mergeRecords localRecords (SyncData.records cloudData) in
  NoDup (RecordType.id <$> merged)
  /\ exists w2,
       saveRecords merged w1 = (w2, Returns tt)
       /\ (map_to_list (idb_records w2)).*2 ≡ₚ merged
       /\ sync downloadFromCloud uploadToCloud localRecords w
          = match uploadToCloud merged w2 with
            | (w3, Returns (true, _)) => (w3, Returns (true, None))
            | (w3, Returns (false, uploadError)) => (w3, Returns (false, uploadError))
            | (w3, Throws _) => (w3, Returns (false, Some "Sync failed"))
            end.
Proof.
  intros Hdownload Hcloud Hlocal Hids Hbudget merged.
  assert (NoDup (RecordType.id <$> merged)) as Hnodup by by apply mergeRecords_NoDup.
  split; [exact Hnodup|].
  destruct (saveRecords_succeeds merged w1 Hbudget Hnodup) as [w2 Hsave].
  exists w2. split; [exact Hsave|]. split.
  - destruct (saveRecords_cases merged w1)
      as [(w3 & e & Hsave' & _)|(w3 & Hsave' & Hrec & _)]; [congruence|].
    assert (w3 = w2) as -> by congruence.
    rewrite Hrec. unfold keyed. rewrite <- list_fmap_compose. cbn. by rewrite list_fmap_id.
  - by apply sync_stores_and_uploads_merge with (cloudData := cloudData) (w1 := w1).
Qed.
End SyncLemmas.

Lemma sync_fails_on_duplicate_ids_witness :
  let cloudData :=
    SyncData.mk SYNC_VERSION "2025-01-02T00:00:00.000Z"
      [sample_record "c1" "first copy"; sample_record "c1" "second copy"]
      (SyncSettings.mk JSUndefined JSUndefined JSUndefined JSUndefined) in
  let download : Async (option SyncData.t * option string) :=
    mret (Some cloudData, None) in
  let upload (records : list RecordType.t) : Async (bool * option string) :=
    mret (true, None) in
  (download sample_old_world = (sample_old_world, Returns (Some cloudData, None))
   /\ SyncData.records cloudData <> []
   /\ ~ NoDup (RecordType.id <$> mergeRecords [] (SyncData.records cloudData)))
  /\ exists w2,
       sync download upload [] sample_old_world
       = (w2, Returns (false, Some "Sync failed"))
       /\ idb_records w2 = idb_records sample_old_world
       /\ idb_settings w2 = idb_settings sample_old_world.
Proof.
  intros cloudData download upload.
  assert (download sample_old_world = (sample_old_world, Returns (Some cloudData, None)))
    as Hdownload by reflexivity.
  assert (SyncData.records cloudData <> []) as Hcloud by discriminate.
  assert (~ NoDup (RecordType.id <$> mergeRecords [] (SyncData.records cloudData)))
    as Hdup.
  { intros Hnodup. vm_compute in Hnodup. apply NoDup_cons in Hnodup as [Hfresh _].
    apply Hfresh. by left. }
  split; [exact (conj Hdownload (conj Hcloud Hdup))|].
  exact (sync_fails_on_duplicate_ids download upload [] cloudData sample_old_world
           sample_old_world Hdownload Hcloud Hdup).
Defined.

Lemma sync_stores_merge_of_distinct_ids_witness :
  let cloudData :=
    SyncData.mk SYNC_VERSION "2025-01-02T00:00:00.000Z"
      [sample_record "r0" "cloud copy"; sample_record "c1" "cloud only"]
      (SyncSettings.mk JSUndefined JSUndefined JSUndefined JSUndefined) in
  let localRecords := [sample_record "r0" "Older entry"] in
  let download : Async (option SyncData.t * option string) :=
    mret (Some cloudData, None) in
  let upload (records : list RecordType.t) : Async (bool * option string) :=
    mret (true, None) in
  (download sample_old_world = (sample_old_world, Returns (Some cloudData, None))
   /\ SyncData.records cloudData <> []
   /\ NoDup (RecordType.id <$> localRecords)
   /\ NoDup (RecordType.id <$> SyncData.records cloudData)
   /\ idb_write_budget sample_old_world = None)
  /\ mergeRecords localRecords (SyncData.records cloudData)
     = [sample_record "r0" "Older entry"; sample_record "c1" "cloud only"]
  /\ exists w2,
       saveRecords (mergeRecords localRecords (SyncData.records cloudData)) sample_old_world
       = (w2, Returns tt)
       /\ sync download upload localRecords sample_old_world = (w2, Returns (true, None)).
Proof.
  intros cloudData localRecords download upload.
  assert (download sample_old_world = (sample_old_world, Returns (Some cloudData, None)))
    as Hdownload by reflexivity.
  assert (SyncData.records cloudData <> []) as Hcloud by discriminate.
  assert (NoDup (RecordType.id <$> localRecords)) as Hlocal by apply NoDup_singleton.
  assert (NoDup (RecordType.id <$> SyncData.records cloudData)) as Hids.
  { cbn. apply NoDup_cons. split; [solve_not_listed|]. apply NoDup_singleton. }
  assert (idb_write_budget sample_old_world = None) as Hbudget by reflexivity.
  split; [exact (conj Hdownload (conj Hcloud (conj Hlocal (conj Hids Hbudget))))|].
  split; [by vm_compute|].
  destruct (sync_stores_merge_of_distinct_ids download upload localRecords cloudData
              sample_old_world sample_old_world Hdownload Hcloud Hlocal Hids Hbudget)
    as (_ & w2 & Hsave & _ & Hsync).
  exists w2. split; [exact Hsave|]. exact Hsync.
Defined.

(* ================================================================== *)
(** * The evidence store: ids, deletion, search by tag *)
(* ================================================================== *)

Lemma js_json_clone_parsed (object : JSObject) :
  js_parsed object -> js_json_clone object = object.
Proof.
  intros [_ Hdefined]. unfold js_json_clone.
  induction Hdefined as [|p object Hp _ IH]; [reflexivity|].
  by rewrite filter_cons, decide_True, IH.
Qed.

Lemma map_js_json_clone_parsed (records : list JSObject) :
  Forall js_parsed records -> map js_json_clone records = records.
Proof.
  induction 1 as [|r records Hr _ IH]; [reflexivity|].
  cbn. by rewrite js_json_clone_parsed, IH.
Qed.

Lemma fold_max_le (ids : list Z) (start : Z) :
  (start <= fold_left Z.max ids start)%Z
  /\ forall id, In id ids -> (id <= fold_left Z.max ids start)%Z.
Proof.
  revert start. induction ids as [|id ids IH]; intros start; cbn.
  - split; [lia|done].
  - destruct (IH (Z.max start id)) as [Hstart Hids]. split; [lia|].
    intros id' [<-|Hin]; [lia|by apply Hids].
Qed.

(** The id that [saveToLocalStorage] assigns exceeds every id in the
    store. *)
Lemma saveToLocalStorage_id (record : JSObject) (records : list JSObject) :
  (forall r, r ∈ records -> (id_or_zero r < (saveToLocalStorage record records).2)%Z)
  /\ (records = [] -> (saveToLocalStorage record records).2 = 1%Z).
Proof.
  unfold saveToLocalStorage. cbn [snd]. destruct records as [|r rest]; [split; [|done]|].
  { intros r Hr. by apply elem_of_nil in Hr. }
  split; [|done].
  destruct (fold_max_le (map id_or_zero rest) (id_or_zero r)) as [Hfirst Hrest].
  intros r' [->|Hr']%elem_of_cons; [lia|].
  assert (id_or_zero r' <= fold_left Z.max (map id_or_zero rest) (id_or_zero r))%Z;
    [|lia].
  apply Hrest. apply in_map. by apply list_elem_of_In.
Qed.

Lemma filter_all {A} (P : A -> Prop) `{forall x, Decision (P x)} (l : list A) :
  (forall x, x ∈ l -> P x) -> filter P l = l.
Proof.
  induction l as [|x l IH]; intros Hall; [reflexivity|].
  rewrite filter_cons, decide_True by (apply Hall; left).
  rewrite IH; [reflexivity|]. intros y Hy. apply Hall. by right.
Qed.

Lemma js_get_id_or_zero (r : JSObject) (id : Z) :
  js_get "id" r = JSNumber id -> id_or_zero r = id.
Proof. unfold id_or_zero. by intros ->. Qed.

Section EncryptedStorageLemmas.
Variable digest : list byte -> list byte.

(** The record that [saveRecord] stores last. *)
Lemma saveRecord_stores (record : JSObject) (records : list JSObject) :
  js_has "hash" record = false ->
  js_has "id" record = false ->
  js_parsed record ->
  Forall js_parsed records ->
  let id := (saveRecord (Some digest) record records).2 in
  let stored := record ++ [("hash", JSString (generateHash (Some digest) record));
                           ("id", JSNumber id)] in
  (saveRecord (Some digest) record records).1 = records ++ [stored]
  /\ js_get "id" stored = JSNumber id
  /\ js_parsed stored.
Proof.
  intros Hhash Hid [Hkeys Hdefined] Hparsed id stored.
  assert (js_parsed stored) as Hstored.
  { split.
    - unfold stored. rewrite fmap_app. apply NoDup_app. split; [exact Hkeys|]. split.
      + intros key Hkey Hin. cbn in Hin.
        apply elem_of_cons in Hin as [->|Hin]; [by apply js_has_false in Hhash|].
        apply list_elem_of_singleton in Hin as ->. by apply js_has_false in Hid.
      + cbn. apply NoDup_cons. split; [|apply NoDup_singleton].
        intros Hin%list_elem_of_singleton. discriminate.
    - unfold stored. apply Forall_app. split; [exact Hdefined|].
      repeat constructor; discriminate. }
  split_and!; [|..|exact Hstored].
  - rewrite (saveRecord_appends (Some digest) record records Hhash Hid). cbn [fst].
    fold id. fold stored.
    by rewrite map_js_json_clone_parsed, js_json_clone_parsed.
  - unfold stored. rewrite js_get_app_absent by (by apply js_has_false).
    unfold js_get. cbn. reflexivity.
Qed.

(** X25.  The ids of the evidence store (web path, with Web Crypto).
    Take a store of parsed records whose ids are as the interface
    declares them (a number or missing), and a record without [hash]
    and [id].  The id that [saveRecord] assigns is greater than every
    id in the store, and is 1 for the empty store; the store grows by
    one record at its end, which carries that id; no record stored
    before has it, so ids that were pairwise distinct stay so. *)
Theorem saveRecord_assigns_fresh_id (record : JSObject) (records : list JSObject) :
  js_has "hash" record = false ->
  js_has "id" record = false ->
  js_parsed record ->
  Forall js_parsed records ->
  Forall id_declared records ->
  let id := (saveRecord (Some digest) record records).2 in
  let records' := (saveRecord (Some digest) record records).1 in
  (forall r, r ∈ records -> (id_or_zero r < id)%Z)
  /\ (records = [] -> id = 1%Z)
  /\ (js_get "id" <$> records') = (js_get "id" <$> records) ++ [JSNumber id]
  /\ (JSNumber id ∉ (js_get "id" <$> records))
  /\ (NoDup (js_get "id" <$> records) -> NoDup (js_get "id" <$> records'))
  /\ Forall js_parsed records'.
Proof.
  intros Hhash Hid Hrecord Hparsed _ id records'.
  destruct (saveRecord_stores record records Hhash Hid Hrecord Hparsed)
    as (Hstore & Hget & Hstored).
  fold id in Hstore, Hget, Hstored. fold records' in Hstore.
  assert (forall r, r ∈ records -> (id_or_zero r < id)%Z) as Hfresh.
  { unfold id, saveRecord. apply saveToLocalStorage_id. }
  assert (JSNumber id ∉ (js_get "id" <$> records)) as Hnew.
  { intros (r & Hr & Hin)%list_elem_of_fmap. symmetry in Hr.
    apply js_get_id_or_zero in Hr. specialize (Hfresh r Hin). lia. }
  assert ((js_get "id" <$> records') = (js_get "id" <$> records) ++ [JSNumber id]) as Hids.
  { rewrite Hstore, fmap_app. cbn [fmap list_fmap]. by rewrite Hget. }
  split_and!; try done.
  - unfold id, saveRecord. apply saveToLocalStorage_id.
  - intros Hnodup. rewrite Hids. apply NoDup_app. split; [exact Hnodup|]. split.
    + intros v Hv Hin%list_elem_of_singleton. by subst.
    + apply NoDup_singleton.
  - rewrite Hstore. apply Forall_app. split; [exact Hparsed|]. by constructor.
Qed.

(** X26.  [deleteRecord] undoes [saveRecord], and ids are given out
    again (web path, with Web Crypto; a store of parsed records whose
    ids are a number or missing, a record without [hash] and [id]).
    Deleting the id that [saveRecord] has just assigned gives back the
    store from before; the next record saved then gets the same id as
    the deleted one, and after [clearAllRecords] the next record gets
    id 1.  After [deleteRecord] of any id no stored record has that
    id. *)
Theorem deleteRecord_undoes_saveRecord (record other : JSObject)
    (records : list JSObject) :
  js_has "hash" record = false ->
  js_has "id" record = false ->
  js_parsed record ->
  Forall js_parsed records ->
  Forall id_declared records ->
  let id := (saveRecord (Some digest) record records).2 in
  let records' := (saveRecord (Some digest) record records).1 in
  EncryptedStorageService.deleteRecord id records' = records
  /\ (saveRecord (Some digest) other (EncryptedStorageService.deleteRecord id records')).2 = id
  /\ (saveRecord (Some digest) other (EncryptedStorageService.clearAllRecords records')).2 = 1%Z
  /\ (forall id' r, r ∈ EncryptedStorageService.deleteRecord id' records' ->
        js_get "id" r <> JSNumber id').
Proof.
  intros Hhash Hid Hrecord Hparsed _ id records'.
  destruct (saveRecord_stores record records Hhash Hid Hrecord Hparsed)
    as (Hstore & Hget & Hstored).
  fold id in Hstore, Hget, Hstored. fold records' in Hstore.
  assert (forall r, r ∈ records -> (id_or_zero r < id)%Z) as Hfresh.
  { unfold id, saveRecord. apply saveToLocalStorage_id. }
  assert (EncryptedStorageService.deleteRecord id records' = records) as Hdelete.
  { unfold EncryptedStorageService.deleteRecord. rewrite Hstore, filter_app.
    rewrite (filter_cons _ _ []), filter_nil.
    rewrite decide_False.
    2:{ unfold js_strict_equal. rewrite Hget. by rewrite bool_decide_eq_true_2. }
    rewrite app_nil_r, filter_all; [by apply map_js_json_clone_parsed|].
    intros r Hr. unfold js_strict_equal. apply bool_decide_eq_false.
    intros Heq%js_get_id_or_zero. specialize (Hfresh r Hr). lia. }
  split_and!.
  - exact Hdelete.
  - rewrite Hdelete. reflexivity.
  - reflexivity.
  - intros id' r Hr. unfold EncryptedStorageService.deleteRecord in Hr.
    assert (Forall js_parsed records') as Hall.
    { rewrite Hstore. apply Forall_app. split; [exact Hparsed|]. by constructor. }
    rewrite map_js_json_clone_parsed in Hr.
    + apply list_elem_of_filter in Hr as [Hne _]. unfold js_strict_equal in Hne.
      by apply bool_decide_eq_false in Hne.
    + apply Forall_forall. intros r' [_ Hr']%list_elem_of_filter.
      by eapply Forall_forall in Hall.
Qed.
End EncryptedStorageLemmas.

Lemma saveRecord_assigns_fresh_id_witness :
  let record := evidence_record 17 "Incident" "Incident at pickup" "#Harassment" None in
  let records := (saveRecord (Some SHA256) record []).1 in
  (js_has "hash" record = false /\ js_has "id" record = false
   /\ js_parsed record /\ Forall js_parsed records /\ Forall id_declared records)
  /\ (saveRecord (Some SHA256) record records).2 = 2%Z
  /\ (js_get "id" <$> (saveRecord (Some SHA256) record records).1)
     = [JSNumber 1; JSNumber 2]
  /\ NoDup (js_get "id" <$> (saveRecord (Some SHA256) record records).1).
Proof.
  intros record records.
  assert (js_has "hash" record = false) as Hhash by reflexivity.
  assert (js_has "id" record = false) as Hid by reflexivity.
  assert (js_parsed record) as Hrecord.
  { split; [|repeat constructor; discriminate].
    cbn. repeat (apply NoDup_cons; split; [solve_not_listed|]). apply NoDup_nil_2. }
  assert (Forall js_parsed records) as Hparsed.
  { destruct (saveRecord_stores SHA256 record [] Hhash Hid Hrecord (Forall_nil_2 _))
      as (Hstore & _ & Hstored).
    unfold records. rewrite Hstore. by constructor. }
  assert ((js_get "id" <$> records) = [JSNumber 1]) as Hold by (by vm_compute).
  assert (Forall id_declared records) as Hdeclared.
  { destruct records as [|r [|r' rest]]; try discriminate Hold.
    injection Hold as Hr. constructor; [|constructor].
    unfold id_declared. rewrite Hr. reflexivity. }
  split; [exact (conj Hhash (conj Hid (conj Hrecord (conj Hparsed Hdeclared))))|].
  destruct (saveRecord_assigns_fresh_id SHA256 record records
              Hhash Hid Hrecord Hparsed Hdeclared) as (_ & _ & Hids & _ & Hnodup & _).
  assert ((saveRecord (Some SHA256) record records).2 = 2%Z) as Hnew by (by vm_compute).
  split; [exact Hnew|]. rewrite Hids, Hold, Hnew in *.
  split; [reflexivity|]. apply Hnodup, NoDup_singleton.
Defined.

Lemma deleteRecord_undoes_saveRecord_witness :
  let record := evidence_record 17 "Incident" "Incident at pickup" "#Harassment" None in
  let other := evidence_record 18 "Incident" "Missed exchange" "#MissedVisitation" None in
  (js_has "hash" record = false /\ js_has "id" record = false
   /\ js_parsed record /\ Forall js_parsed [] /\ Forall id_declared [])
  /\ (saveRecord (Some SHA256) record []).2 = 1%Z
  /\ EncryptedStorageService.deleteRecord 1 (saveRecord (Some SHA256) record []).1 = []
  /\ (saveRecord (Some SHA256) other
        (EncryptedStorageService.deleteRecord 1
           (saveRecord (Some SHA256) record []).1)).2 = 1%Z.
Proof.
  intros record other.
  assert (js_has "hash" record = false) as Hhash by reflexivity.
  assert (js_has "id" record = false) as Hid by reflexivity.
  assert (js_parsed record) as Hrecord.
  { split; [|repeat constructor; discriminate].
    cbn. repeat (apply NoDup_cons; split; [solve_not_listed|]). apply NoDup_nil_2. }
  split; [exact (conj Hhash (conj Hid (conj Hrecord
                   (conj (Forall_nil_2 _) (Forall_nil_2 _)))))|].
  split; [reflexivity|].
  destruct (deleteRecord_undoes_saveRecord SHA256 record other [] Hhash Hid Hrecord
              (Forall_nil_2 _) (Forall_nil_2 _)) as (Hdelete & Hreuse & _).
  exact (conj Hdelete Hreuse).
Defined.

Lemma string_prefix_iff (needle haystack : string) :
  String.prefix needle haystack = true <-> exists after, haystack = needle +:+ after.
Proof.
  revert haystack. induction needle as [|c needle IH]; intros haystack.
  - split; [intros _; by exists haystack|]. intros _. by destruct haystack.
  - destruct haystack as [|d haystack]; cbn.
    + split; [done|]. intros [after Heq]. rewrite string_append_cons in Heq. discriminate.
    + destruct (ascii_dec c d) as [->|Hne].
      * rewrite IH. split; intros [after Heq]; exists after.
        -- by rewrite string_append_cons, Heq.
        -- rewrite string_append_cons in Heq. by injection Heq.
      * split; [done|]. intros [after Heq]. rewrite string_append_cons in Heq.
        injection Heq as -> _. done.
Qed.

(** [haystack.includes(needle)] holds exactly when [needle] occurs in
    [haystack]. *)
Lemma string_includes_iff (needle haystack : string) :
  string_includes needle haystack = true
  <-> exists before after, haystack = before +:+ needle +:+ after.
Proof.
  induction haystack as [|c haystack IH].
  - cbn [string_includes]. rewrite orb_false_r, string_prefix_iff. split.
    + intros [after Heq]. exists EmptyString, after. exact Heq.
    + intros ([|d before] & after & Heq); [by exists after|].
      rewrite string_append_cons in Heq. discriminate.
  - cbn [string_includes]. rewrite orb_true_iff, string_prefix_iff, IH. split.
    + intros [[after Heq]|(before & after & Heq)].
      * exists EmptyString, after. exact Heq.
      * exists (String c before), after. by rewrite string_append_cons, Heq.
    + intros ([|d before] & after & Heq).
      * left. by exists after.
      * right. rewrite string_append_cons in Heq. injection Heq as -> Heq. eauto.
Qed.

Lemma string_includes_empty (haystack : string) :
  string_includes EmptyString haystack = true.
Proof. by destruct haystack. Qed.

Lemma string_includes_trans (a b c : string) :
  string_includes a b = true -> string_includes b c = true ->
  string_includes a c = true.
Proof.
  rewrite !string_includes_iff. intros (p & q & ->) (p' & q' & ->).
  exists (p' +:+ p), (q +:+ q'). by rewrite !string_append_assoc.
Qed.

Lemma array_filter_tags (tag : string) (records : list JSObject) :
  match EncryptedStorageService.array_filter
          (EncryptedStorageService.tags_include tag) records with
  | Returns found =>
      (forall r, r ∈ records -> exists tags, js_get "tags" r = JSString tags)
      /\ found = filter (fun r => tag_matches tag r = true) records
  | Throws e =>
      exists r message,
        r ∈ records /\ (forall tags, js_get "tags" r <> JSString tags)
        /\ e = TypeError message
  end.
Proof.
  induction records as [|r records IH]; cbn [EncryptedStorageService.array_filter].
  { split; [|reflexivity]. intros r Hr. by apply elem_of_nil in Hr. }
  remember (EncryptedStorageService.array_filter
              (EncryptedStorageService.tags_include tag) records) as rest eqn:Hrest.
  clear Hrest. unfold EncryptedStorageService.tags_include.
  destruct (js_get "tags" r) as [| |b|n|tags] eqn:Htags; cbn [mbind Completion_bind];
    try (exists r; eexists; split; [by left|]; split; [congruence|reflexivity]).
  destruct rest as [found|e]; cbn [mbind Completion_bind].
  - destruct IH as [Hall ->]. split.
    + intros r' [->|Hr']%elem_of_cons; [eauto|by apply Hall].
    + assert (tag_matches tag r = string_includes tag tags) as Hmatch.
      { unfold tag_matches. by rewrite Htags. }
      rewrite filter_cons, Hmatch.
      destruct (string_includes tag tags); [by rewrite decide_True|by rewrite decide_False].
  - destruct IH as (r' & message & Hr' & Hbad & ->).
    exists r', message. split; [by right|done].
Qed.

(** X27.  [getRecordsByTag] matches substrings of the [tags] string.
    It returns exactly when every stored record has a string under
    [tags], and rejects, with a TypeError, exactly when some stored
    record has none.  When it returns, it returns, in the order of the
    store, exactly the records whose [tags] contains the tag as a
    substring; the empty tag finds every record, and whatever a tag
    finds is found by each tag contained in it. *)
Theorem getRecordsByTag_matches_substrings (tag : string) (records : list JSObject) :
  match EncryptedStorageService.getRecordsByTag tag records with
  | Returns found =>
      (forall r, r ∈ records -> exists tags, js_get "tags" r = JSString tags)
      /\ (forall r, r ∈ found
                 <-> r ∈ records
                     /\ exists before after,
                          js_get "tags" r = JSString (before +:+ tag +:+ after))
      /\ found `sublist_of` records
      /\ (tag = EmptyString -> found = records)
      /\ (forall longer found',
            string_includes tag longer = true ->
            EncryptedStorageService.getRecordsByTag longer records = Returns found' ->
            found' ⊆ found)
  | Throws e =>
      exists r message,
        r ∈ records /\ (forall tags, js_get "tags" r <> JSString tags)
        /\ e = TypeError message
  end.
Proof.
  unfold EncryptedStorageService.getRecordsByTag.
  pose proof (array_filter_tags tag records) as Hfilter.
  destruct (EncryptedStorageService.array_filter _ records) as [found|e];
    cbn [try_catch]; [|exact Hfilter].
  destruct Hfilter as [Hall ->].
  assert (forall tag' r, tag_matches tag' r = true
            <-> exists before after,
                  js_get "tags" r = JSString (before +:+ tag' +:+ after)) as Hmatch.
  { intros tag' r. unfold tag_matches. split.
    - destruct (js_get "tags" r); try done.
      intros (before & after & ->)%string_includes_iff. eauto.
    - intros (before & after & ->). apply string_includes_iff. eauto. }
  split_and!.
  - exact Hall.
  - intros r. rewrite list_elem_of_filter, Hmatch. tauto.
  - apply sublist_filter.
  - intros ->. apply filter_all. intros r Hr. unfold tag_matches.
    destruct (Hall r Hr) as [tags ->]. apply string_includes_empty.
  - intros longer found' Hlonger Hrun.
    pose proof (array_filter_tags longer records) as Hfilter'.
    destruct (EncryptedStorageService.array_filter _ records) as [found''|e];
      cbn [try_catch] in Hrun; [|discriminate].
    injection Hrun as ->. destruct Hfilter' as [_ ->].
    intros r [Hr Hin]%list_elem_of_filter. apply list_elem_of_filter. split; [|exact Hin].
    unfold tag_matches in *. destruct (js_get "tags" r); try done.
    by eapply string_includes_trans.
Qed.

(* ================================================================== *)
(** * The hash of an evidence record *)
(* ================================================================== *)

(** The first [4 * k] characters of [btoa binary] depend on the first
    [3 * k] characters of [binary] only. *)
Lemma string_take_btoa (k : nat) (binary : string) :
  string_take (4 * k) (btoa binary) = string_take (4 * k) (btoa (string_take (3 * k) binary)).
Proof.
  revert binary. induction k as [|k IH]; intros binary; [reflexivity|].
  replace (4 * S k) with (S (S (S (S (4 * k))))) by lia.
  replace (3 * S k) with (S (S (S (3 * k)))) by lia.
  destruct binary as [|a [|b [|c rest]]].
  - reflexivity.
  - reflexivity.
  - reflexivity.
  - cbn [string_take].
    change (btoa (String a (String b (String c ?r))))
      with (base64_quad a b c +:+ btoa r).
    destruct a as [a0 a1 a2 a3 a4 a5 a6 a7], b as [b0 b1 b2 b3 b4 b5 b6 b7],
      c as [c0 c1 c2 c3 c4 c5 c6 c7].
    cbn [base64_quad]. rewrite !string_append_cons, !string_append_nil_l.
    cbn [string_take]. by rewrite IH.
Qed.

(** X28.  Without Web Crypto, and for JSON texts made of characters
    up to U+00FF (the strings of this model, on which [btoa] is
    defined), the hash covers the first 48 characters of the JSON text
    and nothing else: two records whose JSON texts agree on their first
    48 characters have the same hash, and either one is accepted by
    [verifyRecordIntegrity] with the hash of the other. *)
Theorem fallback_hash_covers_48_characters (r1 r2 : JSObject) :
  string_take 48 (JSON_stringify_object r1) = string_take 48 (JSON_stringify_object r2) ->
  generateHash None r1 = generateHash None r2
  /\ (js_has "hash" r2 = false ->
      verifyRecordIntegrity None
        (js_spread_set r2 "hash" (JSString (generateHash None r1))) = true).
Proof.
  intros Hprefix.
  assert (generateHash None r1 = generateHash None r2) as Hhash.
  { unfold generateHash. change 64 with (4 * 16).
    rewrite (string_take_btoa 16 (JSON_stringify_object r1)).
    rewrite (string_take_btoa 16 (JSON_stringify_object r2)).
    change (3 * 16) with 48. by rewrite Hprefix. }
  split; [exact Hhash|]. intros Hfree.
  unfold verifyRecordIntegrity, js_strict_equal.
  destruct (js_spread_set_fresh "hash" (JSString (generateHash None r1)) r2 Hfree)
    as (_ & -> & ->).
  rewrite Hhash. by apply bool_decide_eq_true.
Qed.

Lemma fallback_hash_covers_48_characters_witness :
  let saved := evidence_record 1700000000000 "Incident" "Incident at pickup" "#Harassment" None in
  let altered := evidence_record 1700000000000 "Incident" "Nothing happened" "#Harassment" None in
  string_take 48 (JSON_stringify_object saved) = string_take 48 (JSON_stringify_object altered)
  /\ saved <> altered
  /\ generateHash None saved = generateHash None altered
  /\ verifyRecordIntegrity None
       (js_spread_set altered "hash" (JSString (generateHash None saved))) = true.
Proof.
  intros saved altered.
  assert (string_take 48 (JSON_stringify_object saved)
          = string_take 48 (JSON_stringify_object altered)) as Hprefix by (by vm_compute).
  split; [exact Hprefix|]. split; [discriminate|].
  destruct (fallback_hash_covers_48_characters saved altered Hprefix) as [Hhash Hverify].
  split; [exact Hhash|]. by apply Hverify.
Defined.

Lemma evidence_record_injective (timestamp timestamp' : Z)
    (type type' content content' tags tags' : string)
    (attachments attachments' : option string) :
  JSON_stringify_object (evidence_record timestamp type content tags attachments)
  = JSON_stringify_object (evidence_record timestamp' type' content' tags' attachments') ->
  (timestamp, type, content, tags, attachments)
  = (timestamp', type', content', tags', attachments').
Proof.
  intros Heq. apply (f_equal parse_evidence_record) in Heq.
  rewrite !parse_evidence_record_stringify in Heq. by injection Heq as -> -> -> -> ->.
Qed.

Lemma string_join_snoc (sep part : string) (parts : list string) :
  parts <> [] ->
  string_join sep (parts ++ [part]) = string_join sep parts +:+ sep +:+ part.
Proof.
  induction parts as [|p parts IH]; [done|]. intros _.
  destruct parts as [|q parts]; [reflexivity|].
  change (string_join sep ((p :: q :: parts) ++ [part]))
    with (p +:+ sep +:+ string_join sep ((q :: parts) ++ [part])).
  rewrite IH by done.
  change (string_join sep (p :: q :: parts))
    with (p +:+ sep +:+ string_join sep (q :: parts)).
  by rewrite !string_append_assoc.
Qed.

(** An object with one more member has a longer JSON text. *)
Lemma JSON_stringify_object_snoc (object : JSObject) (key : string) (value : JSValue) :
  json_members object <> [] ->
  value <> JSUndefined ->
  String.length (JSON_stringify_object object)
  < String.length (JSON_stringify_object (object ++ [(key, value)])).
Proof.
  intros Hmembers Hvalue. unfold JSON_stringify_object, json_members.
  rewrite omap_app. cbn [omap list_omap fst snd].
  destruct (json_of_value value) as [text|] eqn:Htext; [|by destruct value as [| |[]| |]].
  cbn [fmap option_fmap option_map]. fold (json_members object).
  rewrite string_join_snoc by exact Hmembers.
  rewrite !string_length_append. cbn [String.length]. lia.
Qed.

Lemma JSString_inj (a b : string) : JSString a = JSString b -> a = b.
Proof. by intros [=]. Qed.

Section HashLemmas.
Variable digest : list byte -> list byte.

(** X29.  With Web Crypto the hash binds the content.  The JSON text
    of an evidence record determines its timestamp, type, content, tags
    and attachments; so two evidence records with the same hash are the
    same record unless the digest collides, and [verifyRecordIntegrity]
    accepts the hash of one record on another record only then. *)
Theorem evidence_hash_binds_content (timestamp timestamp' : Z)
    (type type' content content' tags tags' : string)
    (attachments attachments' : option string) :
  let saved := evidence_record timestamp type content tags attachments in
  let other := evidence_record timestamp' type' content' tags' attachments' in
  (JSON_stringify_object saved = JSON_stringify_object other -> saved = other)
  /\ (generateHash (Some digest) saved = generateHash (Some digest) other ->
      saved = other \/ digest_collision digest)
  /\ (verifyRecordIntegrity (Some digest)
        (js_spread_set other "hash" (JSString (generateHash (Some digest) saved))) = true ->
      saved = other \/ digest_collision digest).
Proof.
  intros saved other.
  assert (JSON_stringify_object saved = JSON_stringify_object other -> saved = other)
    as Hjson.
  { intros Heq%evidence_record_injective. unfold saved, other. congruence. }
  assert (generateHash (Some digest) saved = generateHash (Some digest) other ->
          saved = other \/ digest_collision digest) as Hhash.
  { intros Heq%generateHash_subtle_eq.
    destruct (decide (JSON_stringify_object saved = JSON_stringify_object other))
      as [Hsame|Hdiff]; [left; by apply Hjson|].
    right. eexists _, _. split; [|exact Heq].
    intros Hbytes%TextEncoder_encode_injective. done. }
  split; [exact Hjson|]. split; [exact Hhash|].
  intros Hverify. apply Hhash.
  destruct (evidence_record_keys timestamp' type' content' tags' attachments')
    as [Hfree _].
  unfold verifyRecordIntegrity, js_strict_equal in Hverify.
  destruct (js_spread_set_fresh "hash" (JSString (generateHash (Some digest) saved))
              other Hfree) as (_ & Hget & Hrest).
  rewrite Hget, Hrest in Hverify. apply bool_decide_eq_true in Hverify.
  by apply JSString_inj in Hverify.
Qed.

(** X30.  What the store hands back fails its own check.  For every
    evidence record and every store, the record that [saveRecord] stores
    holds the hash of the record as it was passed in, beside the
    assigned id; [verifyRecordIntegrity], which leaves out only the
    [hash] property, hashes the id as well, and with Web Crypto it
    accepts the stored record only if the digest collides. *)
Theorem stored_record_fails_own_check (timestamp : Z) (type content tags : string)
    (attachments : option string) (records : list JSObject) :
  let record := evidence_record timestamp type content tags attachments in
  exists stored,
    (saveRecord (Some digest) record records).1 = map js_json_clone records ++ [stored]
    /\ js_get "hash" stored = JSString (generateHash (Some digest) record)
    /\ js_rest_without "id" (js_rest_without "hash" stored) = record
    /\ (verifyRecordIntegrity (Some digest) stored = true -> digest_collision digest).
Proof.
  intros record.
  destruct (evidence_record_keys timestamp type content tags attachments) as [Hhash Hid].
  set (id := (saveRecord (Some digest) record records).2).
  set (stored := record ++ [("hash", JSString (generateHash (Some digest) record));
                            ("id", JSNumber id)]).
  assert (js_json_clone stored = stored) as Hclone.
  { unfold stored, record, evidence_record. by destruct attachments. }
  assert (js_get "hash" stored = JSString (generateHash (Some digest) record)) as Hget.
  { unfold stored, record, evidence_record. by destruct attachments. }
  assert (js_rest_without "hash" stored = record ++ [("id", JSNumber id)]) as Hrest.
  { unfold stored, record, evidence_record. by destruct attachments. }
  exists stored. split_and!.
  - rewrite (saveRecord_appends (Some digest) record records Hhash Hid). cbn [fst].
    fold id. fold stored. by rewrite Hclone.
  - exact Hget.
  - rewrite Hrest. unfold record, evidence_record. by destruct attachments.
  - intros Hverify. unfold verifyRecordIntegrity, js_strict_equal in Hverify.
    rewrite Hget, Hrest in Hverify. apply bool_decide_eq_true in Hverify.
    apply JSString_inj in Hverify. symmetry in Hverify.
    apply generateHash_subtle_eq in Hverify.
    eexists _, _. split; [|exact Hverify].
    intros Hbytes%TextEncoder_encode_injective.
    pose proof (JSON_stringify_object_snoc record "id" (JSNumber id)) as Hlonger.
    rewrite Hbytes in Hlonger.
    eapply Nat.lt_irrefl, Hlonger; [|done].
    unfold record, evidence_record. by destruct attachments.
Qed.
End HashLemmas.
